(** * Json-converter: the spreadsheet-to-JSON projection of [src/App.tsx]

    A shallow embedding of [normalizeHeaders], [isRowEmpty], [clampNumber]
    and of the body of the [convertResult] memo, together with the parts of
    the JavaScript runtime they call (string trimming, [String(...)],
    template literals, [Map], ordinary objects, [JSON.stringify]), and of
    the state of the [App] component: [loadFile], the effect on [workbook],
    the guards of the memo, [canDownload], [downloadJson], [copyJson]. *)

From Stdlib Require Import ZArith List Lia String Ascii Sorted.
From stdpp Require Import base option list gmap.

Local Open Scope Z_scope.
Local Open Scope list_scope.

(** ** JavaScript strings

    A JavaScript string is a sequence of UTF-16 code units; a code unit is
    kept as its number. *)

Abbreviation jsstring := (list N).

(** A literal of the source text: every character of an ASCII literal is one
    code unit. *)
Definition lit (s : string) : jsstring :=
  map N_of_ascii (list_ascii_of_string s).

(** WhiteSpace and LineTerminator code points, the ones [trim] removes. *)
Definition is_js_space (c : N) : bool :=
  ((9 <=? c) && (c <=? 13) || (c =? 32) || (c =? 160) || (c =? 5760)
   || (8192 <=? c) && (c <=? 8202) || (c =? 8232) || (c =? 8233)
   || (c =? 8239) || (c =? 8287) || (c =? 12288) || (c =? 65279))%N.

Fixpoint trim_start (s : jsstring) : jsstring :=
  match s with
  | [] => []
  | c :: s' => if is_js_space c then trim_start s' else s
  end.

Definition trim_end (s : jsstring) : jsstring := rev (trim_start (rev s)).

(** [String.prototype.trim] *)
Definition trim (s : jsstring) : jsstring := trim_end (trim_start s).

(** Decimal digits of a natural number, as [Number::toString] prints the
    array positions and counters interpolated by the template literals. *)
Definition digit (d : nat) : N := (48 + N.of_nat d)%N.

Fixpoint dec_go (fuel n : nat) (acc : jsstring) : jsstring :=
  match fuel with
  | O => acc
  | S fuel' =>
      let acc' := digit (n mod 10) :: acc in
      if (n / 10 =? 0)%nat then acc' else dec_go fuel' (n / 10) acc'
  end.

Definition dec (n : nat) : jsstring := dec_go (S n) n [].

(** ** Cells

    The numbers of the sheet are IEEE doubles; the conversion only ever
    prints them, so the number type and its two printers are an interface. *)

Class JsNumber (Num : Type) := {
  num_to_string : Num -> jsstring;   (* Number::toString *)
  num_is_finite : Num -> bool;       (* false for NaN and the infinities *)
}.

Inductive Cell {Num : Type} : Type :=
  | CUndef
  | CNull
  | CBool (b : bool)
  | CNum (n : Num)
  | CStr (s : jsstring).
Arguments Cell : clear implicits.

(** Exceptions of the JavaScript runtime. *)
Inductive js_error : Type :=
  | TypeError (msg : string).

Inductive res (A : Type) : Type :=
  | Ok (a : A)
  | Throw (e : js_error).
Arguments Ok {A} a.
Arguments Throw {A} e.

#[global] Instance res_ret : MRet res := fun A a => Ok a.
#[global] Instance res_bind : MBind res := fun A B k m =>
  match m with
  | Ok a => k a
  | Throw e => Throw e
  end.

Section Engine.
Context {Num : Type} `{JsNumber Num}.

Abbreviation Cell := (Cell Num).
Abbreviation Row := (list Cell).
Abbreviation Grid := (list (list Cell)).

(** [v == null] *)
Definition is_nullish (v : Cell) : bool :=
  match v with
  | CUndef | CNull => true
  | _ => false
  end.

(** [v ?? d] *)
Definition coalesce (v d : Cell) : Cell := if is_nullish v then d else v.

(** [String(v)] on a cell. *)
Definition js_String (v : Cell) : jsstring :=
  match v with
  | CUndef => lit "undefined"
  | CNull => lit "null"
  | CBool true => lit "true"
  | CBool false => lit "false"
  | CNum n => num_to_string n
  | CStr s => s
  end.

(** [typeof v === 'string'] *)
Definition is_string (v : Cell) : bool :=
  match v with
  | CStr _ => true
  | _ => false
  end.

(** The method call [v.trim()]: only strings have the method. *)
Definition call_trim (v : Cell) : res jsstring :=
  match v with
  | CStr s => Ok (trim s)
  | _ => Throw (TypeError "trim is not a function")
  end.

(** [a[i]] on an array: [undefined] outside of it. *)
Definition js_index {A} (a : list A) (i : Z) : option A :=
  if i <? 0 then None else a !! Z.to_nat i.

(** [a.slice(start)] *)
Definition js_slice_from {A} (a : list A) (start : Z) : list A :=
  if start <? 0
  then drop (Z.to_nat (Z.max (Z.of_nat (length a) + start) 0)) a
  else drop (Z.to_nat start) a.

(** [a.slice(0, n)] for a literal [n >= 0]. *)
Definition js_slice_to {A} (a : list A) (n : nat) : list A := take n a.

(** ** normalizeHeaders *)

(** The callback of the first [map]. *)
Definition base_key (i : nat) (v : Cell) : jsstring :=
  let text := trim (js_String (coalesce v (CStr []))) in
  if (0 <? length text)%nat then text else lit "Column" ++ dec (i + 1).

(** The second [map], with the [used] map threaded through the calls. *)
Fixpoint dedup (used : gmap jsstring nat) (base : list jsstring) : list jsstring :=
  match base with
  | [] => []
  | key :: rest =>
      let count := default 0%nat (used !! key) in
      let used' := <[key := (count + 1)%nat]> used in
      (if (count =? 0)%nat then key else key ++ lit "_" ++ dec (count + 1))
        :: dedup used' rest
  end.

Definition normalizeHeaders (values : Row) : list jsstring :=
  let base := imap base_key values in
  dedup ∅ base.

(** ** isRowEmpty *)

Definition cell_is_blank (cell : Cell) : res bool :=
  if is_nullish cell then Ok true
  else if is_string cell then
    t ← call_trim cell; Ok (length t =? 0)%nat
  else Ok false.

(** [Array.prototype.every]: stops at the first [false] (or exception). *)
Fixpoint js_every {A} (p : A -> res bool) (a : list A) : res bool :=
  match a with
  | [] => Ok true
  | x :: a' => b ← p x; if (b : bool) then js_every p a' else Ok false
  end.

Definition isRowEmpty (row : Row) : res bool := js_every cell_is_blank row.

(** ** clampNumber *)

Definition clampNumber (value min max : Z) : Z := Z.min max (Z.max min value).

(** ** Ordinary objects

    The object literal [{}] of the [map] callback: its own properties in
    creation order. All values stored by the conversion are cells that went
    through [?? ''], hence never [null] or [undefined]. *)

Abbreviation JsObject := (list (jsstring * Cell)).

Definition proto_key : jsstring := lit "__proto__".

Fixpoint obj_update (k : jsstring) (v : Cell) (o : JsObject) : option JsObject :=
  match o with
  | [] => None
  | (k', v') :: o' =>
      if decide (k' = k) then Some ((k', v) :: o')
      else o'' ← obj_update k v o'; Some ((k', v') :: o'')
  end.

(** [obj[k] = v] on an object created by [{}]. The key [__proto__] is not
    an own property: the assignment reaches the accessor inherited from
    [Object.prototype], whose setter ignores every value that is neither
    an object nor [null]. An existing own property keeps its place. *)
Definition obj_set (k : jsstring) (v : Cell) (o : JsObject) : JsObject :=
  if decide (k = proto_key) then o
  else match obj_update k v o with
       | Some o' => o'
       | None => o ++ [(k, v)]
       end.

(** [obj[k]] restricted to own properties. *)
Fixpoint obj_get (k : jsstring) (o : JsObject) : option Cell :=
  match o with
  | [] => None
  | (k', v) :: o' => if decide (k' = k) then Some v else obj_get k o'
  end.

(** The [for] loop of the [map] callback, [i] running over the positions
    of [headers] from the position of its first element. *)
Fixpoint fill_object (headers : list jsstring) (r : Row) (i : nat)
    (obj : JsObject) : JsObject :=
  match headers with
  | [] => obj
  | key :: headers' =>
      let v := coalesce (default CUndef (r !! i)) (CStr []) in
      fill_object headers' r (S i) (obj_set key v obj)
  end.

Definition row_to_object (headers : list jsstring) (r : Row) : JsObject :=
  fill_object headers r 0 [].

(** ** JSON.stringify

    [SerializeJSONProperty] of ECMA-262 on the values the conversion
    exports: an array of arrays of cells, or an array of objects of cells. *)

Definition is_digit (c : N) : bool := ((48 <=? c) && (c <=? 57))%N.

Fixpoint digits_value (acc : N) (s : jsstring) : N :=
  match s with
  | [] => acc
  | c :: s' => digits_value (10 * acc + (c - 48))%N s'
  end.

(** An array index: a canonical numeric string below [2^32 - 1]. *)
Definition array_index (k : jsstring) : option N :=
  match k with
  | [] => None
  | c :: k' =>
      if forallb is_digit k && (negb (c =? 48)%N || bool_decide (k' = []))
         && (length k <=? 10)%nat && (digits_value 0 k <=? 4294967294)%N
      then Some (digits_value 0 k) else None
  end.

Fixpoint insert_index {A} (n : N) (x : A) (l : list (N * A)) : list (N * A) :=
  match l with
  | [] => [(n, x)]
  | (m, y) :: l' =>
      if (n <? m)%N then (n, x) :: l else (m, y) :: insert_index n x l'
  end.

Fixpoint index_props (o : JsObject) : list (N * (jsstring * Cell)) :=
  match o with
  | [] => []
  | (k, v) :: o' =>
      match array_index k with
      | Some n => insert_index n (k, v) (index_props o')
      | None => index_props o'
      end
  end.

(** [OrdinaryOwnPropertyKeys]: array indices in ascending order, then the
    other keys in creation order. *)
Definition own_props (o : JsObject) : JsObject :=
  map snd (index_props o)
  ++ List.filter (fun kv => bool_decide (array_index (fst kv) = None)) o.

Definition hex_digit (d : N) : N := (if d <? 10 then 48 + d else 87 + d)%N.

(** [UnicodeEscape]: a backslash, [u] and four lowercase hexadecimal digits. *)
Definition unicode_escape (c : N) : jsstring :=
  [92; 117; hex_digit (c / 4096 mod 16); hex_digit (c / 256 mod 16);
   hex_digit (c / 16 mod 16); hex_digit (c mod 16)]%N.

Definition is_lead (c : N) : bool := ((55296 <=? c) && (c <=? 56319))%N.
Definition is_trail (c : N) : bool := ((56320 <=? c) && (c <=? 57343))%N.

Definition quote_unit (c : N) : jsstring :=
  (if c =? 8 then [92; 98]
   else if c =? 9 then [92; 116]
   else if c =? 10 then [92; 110]
   else if c =? 12 then [92; 102]
   else if c =? 13 then [92; 114]
   else if c =? 34 then [92; 34]
   else if c =? 92 then [92; 92]
   else if (c <? 32) || is_lead c || is_trail c then unicode_escape c
   else [c])%N.

(** The characters [QuoteJSONString] puts between the quotes: a surrogate
    pair is one code point and is copied, a lone surrogate is escaped. *)
Fixpoint quote_body (s : jsstring) : jsstring :=
  match s with
  | [] => []
  | c :: s' =>
      if is_lead c then
        match s' with
        | d :: s'' =>
            if is_trail d then c :: d :: quote_body s''
            else quote_unit c ++ quote_body s'
        | [] => quote_unit c
        end
      else quote_unit c ++ quote_body s'
  end.

Definition quote (s : jsstring) : jsstring := 34%N :: quote_body s ++ [34%N].

(** [SerializeJSONProperty] on a cell; [None] is the result [undefined]. *)
Definition serialize_cell (v : Cell) : option jsstring :=
  match v with
  | CUndef => None
  | CNull => Some (lit "null")
  | CBool true => Some (lit "true")
  | CBool false => Some (lit "false")
  | CNum n => Some (if num_is_finite n then num_to_string n else lit "null")
  | CStr s => Some (quote s)
  end.

Fixpoint join {A} (sep : list A) (parts : list (list A)) : list A :=
  match parts with
  | [] => []
  | [p] => p
  | p :: parts' => p ++ sep ++ join sep parts'
  end.

(** The common end of [SerializeJSONArray] and [SerializeJSONObject]. *)
Definition wrap (opening closing : N) (gap stepback indent : jsstring)
    (partial : list jsstring) : jsstring :=
  match partial with
  | [] => [opening; closing]
  | _ =>
      match gap with
      | [] => opening :: join [44%N] partial ++ [closing]
      | _ =>
          opening :: 10%N :: indent ++ join (44%N :: 10%N :: indent) partial
            ++ 10%N :: stepback ++ [closing]
      end
  end.

(** [SerializeJSONArray], over the serializer of the elements. *)
Definition serialize_array {A} (ser : jsstring -> A -> option jsstring)
    (gap indent : jsstring) (a : list A) : jsstring :=
  let stepback := indent in
  let indent := indent ++ gap in
  let partial := map (fun x => default (lit "null") (ser indent x)) a in
  wrap 91 93 gap stepback indent partial.

(** [SerializeJSONObject]: a property whose value is [undefined] is left out. *)
Definition serialize_object (gap indent : jsstring) (o : JsObject) : jsstring :=
  let stepback := indent in
  let indent := indent ++ gap in
  let partial :=
    omap (fun kv : jsstring * Cell =>
            strP ← serialize_cell (snd kv);
            Some (quote (fst kv) ++ 58%N :: (match gap with [] => [] | _ => [32%N] end)
                    ++ strP))
         (own_props o) in
  wrap 123 125 gap stepback indent partial.

(** The exported value: the local [data]. *)
Inductive Data : Type :=
  | DArrays (exportRows : Grid)
  | DObjects (objects : list JsObject).

(** The gap of [JSON.stringify(value, null, space)] for a number [space]. *)
Definition gap_of_space (space : Z) : jsstring :=
  replicate (Z.to_nat (Z.min 10 space)) 32%N.

Definition JSON_stringify (value : Data) (space : Z) : jsstring :=
  let gap := gap_of_space space in
  match value with
  | DArrays rows =>
      serialize_array
        (fun indent r =>
           Some (serialize_array (fun _ c => serialize_cell c) gap indent r))
        gap [] rows
  | DObjects objs =>
      serialize_array (fun indent o => Some (serialize_object gap indent o))
        gap [] objs
  end.

(** ** convertResult *)

Inductive OutputMode : Type := objects | arrays.

Record ConvertOptions : Type := {
  sheetName : jsstring;
  outputMode : OutputMode;
  headerRowNumber : Z;
  skipEmptyRows : bool;
  pretty : bool;
}.

(** The object the memo returns, together with the local [data] its [json]
    is printed from. *)
Record ConvertResult : Type := {
  data : Data;
  json : jsstring;
  previewRows : Grid;
  rowCount : nat;
  headerRowIndex : Z;
}.

(** [Array.prototype.filter] with a callback that may throw. *)
Fixpoint js_filter {A} (p : A -> res bool) (a : list A) : res (list A) :=
  match a with
  | [] => Ok []
  | x :: a' =>
      b ← p x;
      rest ← js_filter p a';
      Ok (if (b : bool) then x :: rest else rest)
  end.

(** The body of the memo from the point where the selected sheet has been
    read into [rows]; before that point the memo returns [null] without
    calling any of the functions above. [headerRowNumber] is an integer, as
    the configuration of the specification has it. *)
Definition convertResult (rows : Grid) (options : ConvertOptions)
    : res ConvertResult :=
  let headerRowIndex :=
    clampNumber (headerRowNumber options - 1) 0
      (Z.max 0 (Z.of_nat (length rows) - 1)) in
  '(data, previewRows, rowCount) ←
    match outputMode options with
    | arrays =>
        exportRows ←
          (if skipEmptyRows options
           then js_filter (fun r => b ← isRowEmpty r; Ok (negb b)) rows
           else Ok rows);
        Ok (DArrays exportRows, js_slice_to exportRows 25, length exportRows)
    | objects =>
        let headerRow := default [] (js_index rows headerRowIndex) in
        let headers := normalizeHeaders headerRow in
        dataRows ←
          js_filter
            (fun r => if skipEmptyRows options
                      then b ← isRowEmpty r; Ok (negb b) else Ok true)
            (js_slice_from rows (headerRowIndex + 1));
        let objects := map (row_to_object headers) dataRows in
        Ok (DObjects objects, headerRow :: js_slice_to dataRows 24,
            length objects)
    end;
  let json := JSON_stringify data (if pretty options then 2 else 0) in
  Ok {| data := data; json := json; previewRows := previewRows;
        rowCount := rowCount; headerRowIndex := headerRowIndex |}.

End Engine.

(** ** A number type for concrete sheets

    Integers, printed in decimal as [Number::toString] prints every integer
    of magnitude below [10^21]. *)

#[global] Instance Z_number : JsNumber Z := {
  num_to_string z :=
    if z <? 0 then 45%N :: dec (Z.to_nat (- z)) else dec (Z.to_nat z);
  num_is_finite _ := true;
}.

(** Reading a text back as an ASCII string, for examples. *)
Definition show (s : jsstring) : string :=
  string_of_list_ascii (map ascii_of_N s).

(** ** The component [App]: state, file loading, sheet choice, download

    The state hooks of the component are one record. The xlsx library is
    outside of the repository: its worksheets are a type parameter, its
    [sheet_to_json] (with the options of the memo) a function parameter,
    and what reading a file gives is the argument of [loadFile]. *)

Module App.
Section Component.
Context {Num : Type} `{JsNumber Num}.
Context {WorkSheet : Type}.
Variable sheet_to_json : WorkSheet -> list (list (Cell Num)).

(** The part of a [File] the component reads. *)
Record File : Type := { name : jsstring }.

(** [XLSX.WorkBook]: [Sheets[n]] is [None] where the lookup is falsy. *)
Record WorkBook : Type := {
  SheetNames : list jsstring;
  Sheets : jsstring -> option WorkSheet;
}.

Record State : Type := {
  file : option File;
  workbook : option WorkBook;
  error : option jsstring;
  isLoading : bool;
  options : ConvertOptions;
}.

(** A string in a condition: the empty string is falsy. *)
Definition is_empty_string (s : jsstring) : bool :=
  match s with
  | [] => true
  | _ => false
  end.

(** The initial values of the hooks. *)
Definition initial : State :=
  {| file := None; workbook := None; error := None; isLoading := false;
     options := {| sheetName := []; outputMode := objects;
                   headerRowNumber := 1; skipEmptyRows := true;
                   pretty := true |} |}.

(** The new [sheetName] of the effect on [workbook]. *)
Definition select_sheet (prev : jsstring) (names : list jsstring) : jsstring :=
  if negb (is_empty_string prev) && bool_decide (prev ∈ names) then prev
  else default [] (head names).

(** The effect that runs when [workbook] has changed. *)
Definition sheet_effect (st : State) : State :=
  match workbook st with
  | None => st
  | Some wb =>
      let prev := options st in
      {| file := file st; workbook := workbook st; error := error st;
         isLoading := isLoading st;
         options :=
           {| sheetName := select_sheet (sheetName prev) (SheetNames wb);
              outputMode := outputMode prev;
              headerRowNumber := headerRowNumber prev;
              skipEmptyRows := skipEmptyRows prev;
              pretty := pretty prev |} |}
  end.

(** What the [try] block of [loadFile] meets: a workbook, or a value thrown
    by [arrayBuffer] or [XLSX.read]. *)
Inductive Thrown : Type :=
  | ErrorObject (message : jsstring)   (* [e instanceof Error] *)
  | OtherValue.

Inductive ReadOutcome : Type :=
  | Decoded (wb : WorkBook)
  | Rejected (e : Thrown).

Definition msg_no_sheets : jsstring :=
  lit "Dosyada sayfa bulunamad" ++ [305%N] ++ lit ".".

Definition msg_unreadable (message : jsstring) : jsstring :=
  lit "Dosya okunamad" ++ [305%N] ++ lit ": " ++ message.

Definition msg_unknown : jsstring := lit "Bilinmeyen hata".

(** [loadFile] up to its first [await]. *)
Definition loadFile_begin (nextFile : File) (st : State) : State :=
  {| file := Some nextFile; workbook := workbook st; error := None;
     isLoading := true; options := options st |}.

(** [loadFile] from the [await] on: the [try], [catch] and [finally]. *)
Definition loadFile_settle (outcome : ReadOutcome) (st : State) : State :=
  let '(wb, err) :=
    match outcome with
    | Decoded wb =>
        if (length (SheetNames wb) =? 0)%nat
        then (None, Some msg_no_sheets)
        else (Some wb, error st)
    | Rejected e =>
        let message :=
          match e with
          | ErrorObject m => m
          | OtherValue => msg_unknown
          end in
        (None, Some (msg_unreadable message))
    end in
  {| file := file st; workbook := wb; error := err; isLoading := false;
     options := options st |}.

(** One call of [loadFile] with no other event in between. *)
Definition loadFile (outcome : ReadOutcome) (nextFile : File) (st : State)
    : State :=
  loadFile_settle outcome (loadFile_begin nextFile st).

(** [onPickFile] *)
Definition onPickFile (outcome : ReadOutcome) (next : option File) (st : State)
    : State :=
  match next with
  | None => st
  | Some f => loadFile outcome f st
  end.

(** The memo [convertResult] with its guards; [None] is [null]. *)
Definition convertResult_memo (st : State) : option (res ConvertResult) :=
  match workbook st with
  | None => None
  | Some wb =>
      if is_empty_string (sheetName (options st)) then None
      else match Sheets wb (sheetName (options st)) with
           | None => None
           | Some sheet =>
               Some (convertResult (sheet_to_json sheet) (options st))
           end
  end.

(** [canDownload] *)
Definition canDownload (st : State) : bool :=
  match convertResult_memo st with
  | Some (Ok r) =>
      negb (is_empty_string (json r))
      && match file st with Some _ => true | None => false end
  | _ => false
  end.

(** A character of the subject against a lower-case letter or a point of
    the pattern, case ignored. *)
Definition ci_char (p c : N) : bool :=
  ((c =? p) || ((97 <=? p) && (p <=? 122) && (c + 32 =? p)))%N.

(** The characters of [pat] at the start of [s], case ignored: what is left
    of [s]. *)
Fixpoint ci_literal (pat s : jsstring) : option jsstring :=
  match pat with
  | [] => Some s
  | p :: pat' =>
      match s with
      | c :: s' => if ci_char p c then ci_literal pat' s' else None
      | [] => None
      end
  end.

Definition ends_here (o : option jsstring) : bool :=
  match o with
  | Some [] => true
  | _ => false
  end.

(** The pattern [\.(xlsx|xls|csv)$] with the flag [i], tried at the start
    of [s]. *)
Definition ext_match (s : jsstring) : bool :=
  match ci_literal (lit ".") s with
  | Some s' =>
      ends_here (ci_literal (lit "xlsx") s')
      || ends_here (ci_literal (lit "xls") s')
      || ends_here (ci_literal (lit "csv") s')
  | None => false
  end.

(** [s.replace(pattern, '')]: the leftmost match, which runs to the end of
    [s], is removed. *)
Fixpoint replace_ext (s : jsstring) : jsstring :=
  match s with
  | [] => []
  | c :: s' => if ext_match s then [] else c :: replace_ext s'
  end.

(** The [baseName] and [outName] of [downloadJson]. *)
Definition baseName (f : option File) : jsstring :=
  match f with
  | Some f' =>
      if is_empty_string (name f') then lit "data" else replace_ext (name f')
  | None => lit "data"
  end.

Definition outName (f : option File) : jsstring := baseName f ++ lit ".json".

(** [downloadJson]: the name and the text of the blob handed to the
    browser, [None] when the guard returns. *)
Definition downloadJson (st : State) : option (jsstring * jsstring) :=
  match convertResult_memo st with
  | Some (Ok r) =>
      if is_empty_string (json r) then None
      else Some (outName (file st), json r)
  | _ => None
  end.

(** [copyJson]: the text written to the clipboard. *)
Definition copyJson (st : State) : option jsstring :=
  match convertResult_memo st with
  | Some (Ok r) => if is_empty_string (json r) then None else Some (json r)
  | _ => None
  end.

(** What happens to the component: a file is picked or dropped, a pending
    read settles, the effect on [workbook] runs, a control calls
    [setOptions] with an updater. *)
Inductive Event : Type :=
  | PickFile (next : option File)
  | Settle (outcome : ReadOutcome)
  | SheetEffect
  | SetOptions (updater : ConvertOptions -> ConvertOptions).

(** One event on the state and the number of reads in flight. A read
    settles only after the call of [loadFile] that started it. *)
Definition step (ev : Event) (s : State * nat) : State * nat :=
  let '(st, pending) := s in
  match ev with
  | PickFile None => s
  | PickFile (Some f) => (loadFile_begin f st, S pending)
  | Settle outcome =>
      match pending with
      | O => s
      | S pending' => (loadFile_settle outcome st, pending')
      end
  | SheetEffect => (sheet_effect st, pending)
  | SetOptions updater =>
      ({| file := file st; workbook := workbook st; error := error st;
          isLoading := isLoading st; options := updater (options st) |},
       pending)
  end.

Definition run (evs : list Event) (s : State * nat) : State * nat :=
  fold_left (fun s ev => step ev s) evs s.

End Component.
End App.

(** ** JSON.parse

    The JSON grammar of ECMA-404 as a lexer and a recursive-descent
    parser. The lexer keeps the whitespace, so that the layout of a text can
    be inspected. The parser returns the parse tree, numbers kept as their
    literals: the value [JSON.parse] builds is a function of that tree. *)

Definition is_json_ws (c : N) : bool :=
  ((c =? 32) || (c =? 9) || (c =? 10) || (c =? 13))%N.

Definition is_punct (c : N) : bool :=
  ((c =? 91) || (c =? 93) || (c =? 123) || (c =? 125) || (c =? 44)
   || (c =? 58))%N.

Inductive token : Type :=
  | TWs (c : N)              (* one whitespace character *)
  | TPunct (c : N)           (* one of [ ] { } , : *)
  | TStr (raw : jsstring)    (* the characters between two quotes *)
  | TAtom (text : jsstring). (* a run of other characters *)

(** The accumulators hold the characters read so far, last one first. *)
Inductive lex_state : Type :=
  | LDefault
  | LAtom (acc : jsstring)
  | LStr (acc : jsstring) (esc : bool).

Definition flush (st : lex_state) : list token :=
  match st with
  | LAtom acc => [TAtom (rev acc)]
  | _ => []
  end.

Definition atom_acc (st : lex_state) : jsstring :=
  match st with
  | LAtom acc => acc
  | _ => []
  end.

Fixpoint lex_go (st : lex_state) (s : jsstring) : option (list token) :=
  match s with
  | [] =>
      match st with
      | LStr _ _ => None
      | _ => Some (flush st)
      end
  | c :: s' =>
      match st with
      | LStr acc esc =>
          if esc then lex_go (LStr (c :: acc) false) s'
          else if (c =? 92)%N then lex_go (LStr (c :: acc) true) s'
          else if (c =? 34)%N then
            ts ← lex_go LDefault s'; Some (TStr (rev acc) :: ts)
          else lex_go (LStr (c :: acc) false) s'
      | _ =>
          if is_json_ws c then
            ts ← lex_go LDefault s'; Some (flush st ++ TWs c :: ts)
          else if is_punct c then
            ts ← lex_go LDefault s'; Some (flush st ++ TPunct c :: ts)
          else if (c =? 34)%N then
            ts ← lex_go (LStr [] false) s'; Some (flush st ++ ts)
          else lex_go (LAtom (c :: atom_acc st)) s'
      end
  end.

Definition lex (s : jsstring) : option (list token) := lex_go LDefault s.

Definition is_ws_token (t : token) : bool :=
  match t with
  | TWs _ => true
  | _ => false
  end.

Definition significant (ts : list token) : list token :=
  List.filter (fun t => negb (is_ws_token t)) ts.

(** The text of a token sequence. *)
Definition unlex_token (t : token) : jsstring :=
  match t with
  | TWs c | TPunct c => [c]
  | TStr raw => 34%N :: raw ++ [34%N]
  | TAtom text => text
  end.

Definition unlex (ts : list token) : jsstring := concat (map unlex_token ts).

(** A text without its whitespace outside of string literals. *)
Definition strip_ws (s : jsstring) : option jsstring :=
  ts ← lex s; Some (unlex (significant ts)).

(** Numbers: an optional minus sign; a zero, or a non-zero digit and more
    digits; an optional fraction, a point and digits; an optional exponent,
    the letter e in either case, an optional sign and digits. *)

Fixpoint drop_digits (s : jsstring) : jsstring :=
  match s with
  | [] => []
  | c :: s' => if is_digit c then drop_digits s' else s
  end.

Definition nonempty_digits (s : jsstring) : bool :=
  match s with
  | [] => false
  | _ :: _ => forallb is_digit s
  end.

Definition json_exponent (s : jsstring) : bool :=
  match s with
  | [] => true
  | e :: s' =>
      ((e =? 101) || (e =? 69))%N
      && match s' with
         | sign :: s'' =>
             if ((sign =? 43) || (sign =? 45))%N then nonempty_digits s''
             else nonempty_digits s'
         | [] => false
         end
  end.

Definition json_fraction (s : jsstring) : bool :=
  match s with
  | c :: s' =>
      if (c =? 46)%N then
        match s' with
        | d :: _ => is_digit d && json_exponent (drop_digits s')
        | [] => false
        end
      else json_exponent s
  | [] => true
  end.

Definition json_unsigned (s : jsstring) : bool :=
  match s with
  | [] => false
  | c :: s' =>
      if (c =? 48)%N then json_fraction s'
      else is_digit c && json_fraction (drop_digits s')
  end.

Definition json_number (s : jsstring) : bool :=
  match s with
  | c :: s' => if (c =? 45)%N then json_unsigned s' else json_unsigned s
  | [] => false
  end.

(** Strings: the characters between the quotes, decoded. *)

Definition hex_value (c : N) : option N :=
  (if (48 <=? c) && (c <=? 57) then Some (c - 48)
   else if (97 <=? c) && (c <=? 102) then Some (c - 87)
   else if (65 <=? c) && (c <=? 70) then Some (c - 55)
   else None)%N.

Definition unescape (c : N) : option N :=
  (if c =? 34 then Some 34
   else if c =? 92 then Some 92
   else if c =? 47 then Some 47
   else if c =? 98 then Some 8
   else if c =? 102 then Some 12
   else if c =? 110 then Some 10
   else if c =? 114 then Some 13
   else if c =? 116 then Some 9
   else None)%N.

Fixpoint decode_string (raw : jsstring) : option jsstring :=
  match raw with
  | [] => Some []
  | c :: r =>
      if (c =? 92)%N then
        match r with
        | e :: r' =>
            if (e =? 117)%N then
              match r' with
              | h1 :: h2 :: h3 :: h4 :: r'' =>
                  a ← hex_value h1; b ← hex_value h2;
                  c' ← hex_value h3; d ← hex_value h4;
                  s ← decode_string r'';
                  Some ((4096 * a + 256 * b + 16 * c' + d)%N :: s)
              | _ => None
              end
            else u ← unescape e; s ← decode_string r'; Some (u :: s)
        | [] => None
        end
      else if ((c <? 32) || (c =? 34))%N then None
      else s ← decode_string r; Some (c :: s)
  end.

#[local] Unset Elimination Schemes.
Inductive PVal : Type :=
  | PNull
  | PBool (b : bool)
  | PNum (text : jsstring)
  | PStr (s : jsstring)
  | PArr (elems : list PVal)
  | PObj (members : list (jsstring * PVal)).
#[local] Set Elimination Schemes.

Definition parse_atom (text : jsstring) : option PVal :=
  if decide (text = lit "null") then Some PNull
  else if decide (text = lit "true") then Some (PBool true)
  else if decide (text = lit "false") then Some (PBool false)
  else if json_number text then Some (PNum text)
  else None.

Definition is_punct_token (c : N) (t : option token) : bool :=
  match t with
  | Some (TPunct d) => (c =? d)%N
  | _ => false
  end.

Fixpoint parse_value (fuel : nat) (ts : list token)
    : option (PVal * list token) :=
  match fuel with
  | O => None
  | S fuel' =>
      match ts with
      | TAtom text :: ts' => v ← parse_atom text; Some (v, ts')
      | TStr raw :: ts' => s ← decode_string raw; Some (PStr s, ts')
      | TPunct c :: ts' =>
          if (c =? 91)%N then
            if is_punct_token 93 (head ts') then Some (PArr [], tail ts')
            else '(vs, rest) ← parse_elements fuel' ts'; Some (PArr vs, rest)
          else if (c =? 123)%N then
            if is_punct_token 125 (head ts') then Some (PObj [], tail ts')
            else '(ms, rest) ← parse_members fuel' ts'; Some (PObj ms, rest)
          else None
      | _ => None
      end
  end
with parse_elements (fuel : nat) (ts : list token)
    : option (list PVal * list token) :=
  match fuel with
  | O => None
  | S fuel' =>
      '(v, ts1) ← parse_value fuel' ts;
      if is_punct_token 44 (head ts1) then
        '(vs, rest) ← parse_elements fuel' (tail ts1); Some (v :: vs, rest)
      else if is_punct_token 93 (head ts1) then Some ([v], tail ts1)
      else None
  end
with parse_members (fuel : nat) (ts : list token)
    : option (list (jsstring * PVal) * list token) :=
  match fuel with
  | O => None
  | S fuel' =>
      match ts with
      | TStr raw :: ts1 =>
          k ← decode_string raw;
          if is_punct_token 58 (head ts1) then
            '(v, ts2) ← parse_value fuel' (tail ts1);
            if is_punct_token 44 (head ts2) then
              '(ms, rest) ← parse_members fuel' (tail ts2);
              Some ((k, v) :: ms, rest)
            else if is_punct_token 125 (head ts2) then
              Some ([(k, v)], tail ts2)
            else None
          else None
      | _ => None
      end
  end.

(** [JSON.parse]: the whole text is one value between whitespace. *)
Definition JSON_parse (s : jsstring) : option PVal :=
  ts ← lex s;
  match parse_value (S (length ts)) (significant ts) with
  | Some (v, []) => Some v
  | _ => None
  end.

(** The layout of an indented text: every element of an array and every
    member of an object starts a line of its own, a line starts with
    [width] spaces for each level of nesting, and the closing bracket of a
    non-empty array or object stands on a line of its own, one level out. *)
Inductive line_state : Type :=
  | AfterBreak (k : nat)  (* [k] spaces since the last line break *)
  | MustBreak             (* after an opening bracket or a comma *)
  | InLine.               (* after any other token of the line *)

Definition start_ok (st : line_state) (expected : nat) : bool :=
  match st with
  | AfterBreak k => (k =? expected)%nat
  | MustBreak => false
  | InLine => true
  end.

Fixpoint indent_ok (width depth : nat) (st : line_state) (ts : list token)
    : bool :=
  match ts with
  | [] =>
      match st with
      | InLine => true
      | _ => false
      end
  | TWs c :: ts' =>
      if (c =? 10)%N then
        match st with
        | AfterBreak _ => false
        | _ => indent_ok width depth (AfterBreak 0) ts'
        end
      else if (c =? 32)%N then
        match st with
        | AfterBreak k => indent_ok width depth (AfterBreak (S k)) ts'
        | InLine => indent_ok width depth InLine ts'
        | MustBreak => false
        end
      else false
  | TPunct c :: ts' =>
      if ((c =? 93) || (c =? 125))%N then
        match st with
        | AfterBreak k => (k =? width * (depth - 1))%nat
        | MustBreak => true
        | InLine => false
        end
        && indent_ok width (depth - 1) InLine ts'
      else if ((c =? 91) || (c =? 123))%N then
        start_ok st (width * depth) && indent_ok width (S depth) MustBreak ts'
      else if (c =? 44)%N then
        match st with
        | InLine => indent_ok width depth MustBreak ts'
        | _ => false
        end
      else start_ok st (width * depth) && indent_ok width depth InLine ts'
  | _ :: ts' =>
      start_ok st (width * depth) && indent_ok width depth InLine ts'
  end.

(** The lines of a text are indented by [width] spaces per level. *)
Definition indented_by (width : nat) (s : jsstring) : Prop :=
  exists ts, lex s = Some ts /\ indent_ok width 0 InLine ts = true.

(** ** The tokens and the parse tree of an exported text *)

Section Layout.
Context {Num : Type} `{JsNumber Num}.

(** [wrap] on tokens. *)
Definition wrap_tokens (opening closing : N) (gap stepback indent : jsstring)
    (partial : list (list token)) : list token :=
  match partial with
  | [] => [TPunct opening; TPunct closing]
  | _ =>
      match gap with
      | [] => TPunct opening :: join [TPunct 44] partial ++ [TPunct closing]
      | _ =>
          TPunct opening :: TWs 10 :: map TWs indent
            ++ join (TPunct 44 :: TWs 10 :: map TWs indent) partial
            ++ TWs 10 :: map TWs stepback ++ [TPunct closing]
      end
  end.

Definition cell_text (c : Cell Num) : jsstring :=
  default (lit "null") (serialize_cell c).

Definition cell_token (c : Cell Num) : token :=
  match c with
  | CStr s => TStr (quote_body s)
  | _ => TAtom (cell_text c)
  end.

Definition cell_tree (c : Cell Num) : PVal :=
  match c with
  | CUndef | CNull => PNull
  | CBool b => PBool b
  | CNum n => if num_is_finite n then PNum (num_to_string n) else PNull
  | CStr s => PStr s
  end.

Definition row_tokens (gap indent : jsstring) (r : list (Cell Num))
    : list token :=
  wrap_tokens 91 93 gap indent (indent ++ gap)
    (map (fun c => [cell_token c]) r).

(** The properties [SerializeJSONObject] prints. *)
Definition printed_props (o : list (jsstring * Cell Num))
    : list (jsstring * Cell Num) :=
  List.filter
    (fun kv => match serialize_cell (snd kv) with Some _ => true | None => false end)
    (own_props o).

Definition member_tokens (gap : jsstring) (kv : jsstring * Cell Num)
    : list token :=
  TStr (quote_body (fst kv)) :: TPunct 58
    :: match gap with [] => [] | _ => [TWs 32] end ++ [cell_token (snd kv)].

(** The text of one member of an object. *)
Definition member_text (gap : jsstring) (kv : jsstring * Cell Num) : jsstring :=
  quote (fst kv) ++ 58%N :: match gap with [] => [] | _ => [32%N] end
    ++ cell_text (snd kv).

Definition object_tokens (gap indent : jsstring)
    (o : list (jsstring * Cell Num)) : list token :=
  wrap_tokens 123 125 gap indent (indent ++ gap)
    (map (member_tokens gap) (printed_props o)).

Definition data_tokens (gap : jsstring) (d : Data) : list token :=
  match d with
  | DArrays rows =>
      wrap_tokens 91 93 gap [] gap (map (row_tokens gap gap) rows)
  | DObjects objs =>
      wrap_tokens 91 93 gap [] gap (map (object_tokens gap gap) objs)
  end.

Definition data_tree (d : Data) : PVal :=
  match d with
  | DArrays rows => PArr (map (fun r => PArr (map cell_tree r)) rows)
  | DObjects objs =>
      PArr (map (fun o =>
                   PObj (map (fun kv => (fst kv, cell_tree (snd kv)))
                           (printed_props o)))
              objs)
  end.

(** The configuration with another [pretty]. *)
Definition with_pretty (b : bool) (options : ConvertOptions) : ConvertOptions :=
  {| sheetName := sheetName options; outputMode := outputMode options;
     headerRowNumber := headerRowNumber options;
     skipEmptyRows := skipEmptyRows options; pretty := b |}.

End Layout.

(** ** Definitions that follow the words of the specification *)

Section SpecWords.
Context {Num : Type} `{JsNumber Num}.

(** "cell is null/absent, OR cell is a string whose trimmed form has zero
    length" *)
Definition spec_cell_empty (c : Cell Num) : Prop :=
  match c with
  | CUndef | CNull => True
  | CStr s => length (trim s) = 0%nat
  | _ => False
  end.

#[global] Instance spec_cell_empty_dec c : Decision (spec_cell_empty c).
Proof. destruct c; simpl; apply _. Defined.

(** "A row is empty iff every cell satisfies ..." *)
Definition spec_row_empty (row : list (Cell Num)) : Prop :=
  Forall spec_cell_empty row.

(** The rows a filter keeps: all of them, or the non-empty ones. *)
Definition spec_retained (skip : bool) (rows : list (list (Cell Num)))
    : list (list (Cell Num)) :=
  if skip then List.filter (fun r => negb (bool_decide (spec_row_empty r))) rows
  else rows.

(** "text = trim(stringify(cell)), where stringify(null-or-absent) = ''" *)
Definition spec_text (c : Cell Num) : jsstring :=
  trim (match c with CUndef | CNull => [] | _ => js_String c end).

(** The number of occurrences of [k] in [l]. *)
Definition occurrences (k : jsstring) (l : list jsstring) : nat :=
  length (List.filter (fun k' => bool_decide (k' = k)) l).

(** "the first occurrence of a key keeps it unchanged; each subsequent
    occurrence is suffixed _n where n is the 1-based occurrence count" *)
Definition spec_suffixed (base : list jsstring) (i : nat) (k : jsstring)
    : jsstring :=
  let n := occurrences k (take (S i) base) in
  if (n =? 1)%nat then k else k ++ lit "_" ++ dec n.

(** "row[i] if present else empty string" *)
Definition spec_cell_or_empty (row : list (Cell Num)) (i : nat) : Cell Num :=
  match row !! i with
  | Some CUndef | Some CNull | None => CStr []
  | Some c => c
  end.

(** The last position of [k] in [hs]. *)
Fixpoint last_pos (k : jsstring) (hs : list jsstring) : option nat :=
  match hs with
  | [] => None
  | h :: hs' =>
      match last_pos k hs' with
      | Some j => Some (S j)
      | None => if decide (h = k) then Some 0%nat else None
      end
  end.

(** The position of the header row: the clamped [headerRowNumber - 1]. *)
Definition spec_header_index (rows : list (list (Cell Num))) (n : Z) : nat :=
  Z.to_nat (clampNumber (n - 1) 0 (Z.max 0 (Z.of_nat (length rows) - 1))).

(** "headerRow = grid[headerRowIndex] or an empty Row if Grid is empty" *)
Definition spec_header_row (rows : list (list (Cell Num))) (n : Z)
    : list (Cell Num) :=
  default [] (rows !! spec_header_index rows n).

(** "dataRows = grid[headerRowIndex+1 ..], then filtered by Row Filter when
    skipEmptyRows" *)
Definition spec_data_rows (skip : bool) (rows : list (list (Cell Num))) (n : Z)
    : list (list (Cell Num)) :=
  spec_retained skip (drop (S (spec_header_index rows n)) rows).

(** "an object binding headers[i] to the row's cell i (or empty string when
    the row is shorter)", read position by position. *)
Definition spec_binds_positionally (headers : list jsstring)
    (row : list (Cell Num)) (obj : list (jsstring * Cell Num)) : Prop :=
  forall i k, headers !! i = Some k ->
    obj_get k obj = Some (spec_cell_or_empty row i).

(** A string cell written as in the source text. *)
Definition str (s : string) : Cell Num := CStr (lit s).

End SpecWords.

(** ** Notions used in the proofs *)

(** The characters of an atom. *)
Definition atom_char (c : N) : bool :=
  negb (is_json_ws c) && negb (is_punct c) && negb (c =? 34)%N.

(** The next character, if any, ends an atom. *)
Definition delim_start (s : jsstring) : Prop :=
  match s with
  | [] => True
  | c :: _ => is_json_ws c || is_punct c = true
  end.

Definition delim_head (s : jsstring) : Prop :=
  match s with
  | [] => False
  | c :: _ => is_json_ws c || is_punct c = true
  end.

(** [t] is read as the tokens [toks], whatever follows. *)
Definition lexes_closed (t : jsstring) (toks : list token) : Prop :=
  forall s, lex (t ++ s) = ts ← lex s; Some (toks ++ ts).

(** [t] is read as the tokens [toks] when a delimiter or nothing follows. *)
Definition lexes_to (t : jsstring) (toks : list token) : Prop :=
  forall s, delim_start s -> lex (t ++ s) = ts ← lex s; Some (toks ++ ts).

(** The characters a string literal holds as they are. *)
Definition plain_char (c : N) : bool :=
  (negb (c <? 32) && negb (c =? 34) && negb (c =? 92))%N.

(** [toks] is parsed as the tree [pv], whatever tokens follow. *)
Definition parses_as (toks : list token) (pv : PVal) : Prop :=
  is_punct_token 93 (head toks) = false /\
  toks <> [] /\
  forall fuel rest, (length toks < fuel)%nat ->
    parse_value fuel (toks ++ rest) = Some (pv, rest).

(** Tokens that are laid out as one element at the depth [depth]. *)
Definition flat (width depth : nat) (toks : list token) : Prop :=
  forall st rest,
    indent_ok width depth st (toks ++ rest)
    = start_ok st (width * depth) && indent_ok width depth InLine rest.

(** The characters a state of the lexer has read and not yet emitted. *)
Definition state_text (st : lex_state) : jsstring :=
  match st with
  | LDefault => []
  | LAtom acc => rev acc
  | LStr acc _ => 34%N :: rev acc
  end.

(** ** The number a JSON number literal denotes

    The number [m * 10^e] as the pair [(m, e)], [m] not a multiple of ten,
    and [(0, 0)] for zero. *)

Fixpoint take_digits (s : jsstring) : jsstring :=
  match s with
  | [] => []
  | c :: s' => if is_digit c then c :: take_digits s' else []
  end.

Fixpoint strip_zeros (fuel : nat) (m e : Z) : Z * Z :=
  match fuel with
  | O => (m, e)
  | S fuel' =>
      if m =? 0 then (0, 0)
      else if m mod 10 =? 0 then strip_zeros fuel' (m / 10) (e + 1)
      else (m, e)
  end.

Definition number_value (s : jsstring) : option (Z * Z) :=
  if json_number s then
    let '(negative, body) :=
      match s with
      | 45%N :: s' => (true, s')
      | _ => (false, s)
      end in
    let int := take_digits body in
    let '(frac, rest) :=
      match drop_digits body with
      | 46%N :: r => (take_digits r, drop_digits r)
      | r => ([], r)
      end in
    let exponent :=
      match rest with
      | _ :: 45%N :: ds => - Z.of_N (digits_value 0 ds)
      | _ :: 43%N :: ds => Z.of_N (digits_value 0 ds)
      | _ :: ds => Z.of_N (digits_value 0 ds)
      | [] => 0
      end in
    let m := Z.of_N (digits_value 0 (int ++ frac)) in
    Some (strip_zeros (length (int ++ frac)) (if negative then - m else m)
            (exponent - Z.of_nat (length frac)))
  else None.

(** ** Sheets and configurations of the examples *)

Definition sample_options (mode : OutputMode) (n : Z) : ConvertOptions :=
  {| sheetName := lit "Sheet1"; outputMode := mode; headerRowNumber := n;
     skipEmptyRows := true; pretty := true |}.

Definition three_rows : list (list (Cell Z)) :=
  [[str "Name"; str "Age"]; [str "Ana"; CNum 30]; [str "Bo"; CNum 41]].

Definition colliding_sheet : list (list (Cell Z)) :=
  [[str "X"; str "X_2"; str "X"]; [str "a"; str "b"; str "c"]].

(** A grid of one number. *)
Definition thousand_sheet : list (list (Cell Z)) := [[CNum 1000]].

(** A workbook of two sheets, a file and the state after loading it. *)
Definition sample_workbook : App.WorkBook (WorkSheet := list (list (Cell Z))) :=
  {| App.SheetNames := [lit "Sheet1"; lit "Totals"];
     App.Sheets := fun n =>
       if decide (n = lit "Sheet1") then Some three_rows
       else if decide (n = lit "Totals") then Some colliding_sheet
       else None |}.

Definition sample_file : App.File := {| App.name := lit "report.XLSX" |}.

Definition sample_loaded : App.State (WorkSheet := list (list (Cell Z))) :=
  App.sheet_effect
    (App.loadFile (App.Decoded sample_workbook) sample_file App.initial).

(** A workbook without sheets. *)
Definition empty_workbook : App.WorkBook (WorkSheet := list (list (Cell Z))) :=
  {| App.SheetNames := []; App.Sheets := fun _ => None |}.

(** A grid with a blank row in the middle. *)
Definition gapped_rows : list (list (Cell Z)) :=
  [[str "Name"; str "Age"]; [CStr []; str " "]; [str "Bo"; CNum 41]].

(** ** Well-formed texts *)

Definition is_surrogate (c : N) : bool := is_lead c || is_trail c.

(** A sequence of code units in which every surrogate is half of a pair,
    a lead followed by a trail. *)
Fixpoint well_formed (s : jsstring) : bool :=
  match s with
  | [] => true
  | c :: s' =>
      if is_lead c then
        match s' with
        | d :: s'' => is_trail d && well_formed s''
        | [] => false
        end
      else negb (is_trail c) && well_formed s'
  end.

Definition token_well_formed (t : token) : Prop :=
  well_formed (unlex_token t) = true.

(** A sheet with a lone surrogate in a cell and in a header. *)
Definition surrogate_sheet : list (list (Cell Z)) :=
  [[CStr [55357%N]; str "n"]; [CStr [56832%N; 55357%N]; CNum (-7)]].

(** ** What every event keeps *)

Definition session_inv {WorkSheet : Type}
    (s : App.State (WorkSheet := WorkSheet) * nat) : Prop :=
  let '(st, pending) := s in
  ((0 < pending)%nat \/ is_Some (App.workbook st) -> is_Some (App.file st)) /\
  (forall wb, App.workbook st = Some wb -> App.SheetNames wb <> []) /\
  (App.isLoading st = true -> (0 < pending)%nat).

(** ** Words for the names of downloaded files *)

(** An ASCII letter in lower case. *)
Definition to_lower (c : N) : N :=
  if ((65 <=? c) && (c <=? 90))%N then (c + 32)%N else c.

(** One of the extensions xlsx, xls and csv, in any mix of cases. *)
Definition is_spreadsheet_ext (e : jsstring) : bool :=
  bool_decide (map to_lower e ∈ [lit "xlsx"; lit "xls"; lit "csv"]).

(** ** Words for blank cells *)


(** ** Range clamp *)

Section Clamp.
Context {Num : Type} `{JsNumber Num}.

Lemma clampNumber_between v lo hi :
  lo <= hi -> lo <= clampNumber v lo hi <= hi.
Proof. unfold clampNumber. lia. Qed.

Lemma clampNumber_id v lo hi :
  lo <= v <= hi -> clampNumber v lo hi = v.
Proof. unfold clampNumber. lia. Qed.

Lemma header_index_valid (rows : list (list (Cell Num))) (n : Z) :
  let idx := clampNumber (n - 1) 0 (Z.max 0 (Z.of_nat (length rows) - 1)) in
  (rows = [] -> idx = 0) /\
  (rows <> [] -> 0 <= idx < Z.of_nat (length rows) /\ is_Some (js_index rows idx)).
Proof.
  intros idx. subst idx. split.
  - intros ->. unfold clampNumber. simpl. lia.
  - intros Hne.
    assert (0 < length rows)%nat by (destruct rows; simpl; [congruence | lia]).
    pose proof (clampNumber_between (n - 1) 0 (Z.max 0 (Z.of_nat (length rows) - 1))
                  ltac:(lia)) as Hb.
    split; [lia |].
    unfold js_index.
    destruct (Z.ltb_spec (clampNumber (n - 1) 0 (Z.max 0 (Z.of_nat (length rows) - 1))) 0);
      [lia |].
    apply lookup_lt_is_Some. lia.
Qed.

End Clamp.

(** ** Row filter *)

Section RowFilter.
Context {Num : Type} `{JsNumber Num}.

Lemma cell_is_blank_ok (c : Cell Num) :
  cell_is_blank c = Ok (bool_decide (spec_cell_empty c)).
Proof.
  destruct c as [| | b | n | s]; try reflexivity.
  change (Ok (length (trim s) =? 0)%nat
          = Ok (bool_decide (length (trim s) = 0%nat))).
  f_equal. destruct (Nat.eqb_spec (length (trim s)) 0) as [E | E].
  - symmetry. by apply bool_decide_eq_true_2.
  - symmetry. by apply bool_decide_eq_false_2.
Qed.

Lemma isRowEmpty_ok (row : list (Cell Num)) :
  isRowEmpty row = Ok (bool_decide (spec_row_empty row)).
Proof.
  unfold isRowEmpty, spec_row_empty.
  induction row as [| c row IH]; cbn [js_every].
  - reflexivity.
  - rewrite cell_is_blank_ok. cbn [mbind res_bind].
    destruct (decide (spec_cell_empty c)) as [Hc | Hc].
    + rewrite (bool_decide_eq_true_2 _ Hc), IH. f_equal.
      apply bool_decide_ext. split.
      * intros Hr. by constructor.
      * by inversion 1.
    + rewrite (bool_decide_eq_false_2 _ Hc). f_equal. symmetry.
      apply bool_decide_eq_false_2. by inversion 1.
Qed.

Lemma js_filter_ok {A} (p : A -> res bool) (q : A -> bool) (a : list A) :
  (forall x, p x = Ok (q x)) -> js_filter p a = Ok (List.filter q a).
Proof.
  intros Hp. induction a as [| x a IH]; cbn [js_filter List.filter]; [done |].
  rewrite Hp, IH. cbn [mbind res_bind]. by destruct (q x).
Qed.

End RowFilter.

(** ** Header normalizer *)

Section Headers.
Context {Num : Type} `{JsNumber Num}.

Lemma occurrences_app k l1 l2 :
  occurrences k (l1 ++ l2) = (occurrences k l1 + occurrences k l2)%nat.
Proof. unfold occurrences. by rewrite List.filter_app, length_app. Qed.

Lemma occurrences_one k k' :
  occurrences k [k'] = if decide (k' = k) then 1%nat else 0%nat.
Proof.
  unfold occurrences. cbn [List.filter].
  destruct (decide (k' = k)) as [E | E].
  - by rewrite (bool_decide_eq_true_2 _ E).
  - by rewrite (bool_decide_eq_false_2 _ E).
Qed.

Lemma occurrences_absent k l : k ∉ l -> occurrences k l = 0%nat.
Proof.
  induction l as [| x l IH]; intros Hn; [done |].
  change (x :: l) with ([x] ++ l). rewrite occurrences_app, occurrences_one.
  rewrite not_elem_of_cons in Hn. destruct Hn as [Hx Hl].
  rewrite decide_False by congruence. by rewrite IH.
Qed.

Lemma occurrences_present k l : k ∈ l -> (1 <= occurrences k l)%nat.
Proof.
  induction l as [| x l IH]; intros Hin; [by apply elem_of_nil in Hin |].
  change (x :: l) with ([x] ++ l). rewrite occurrences_app, occurrences_one.
  apply elem_of_cons in Hin as [-> | Hin].
  - rewrite decide_True by done. lia.
  - specialize (IH Hin). lia.
Qed.

(** The counter kept in [used] is the number of occurrences so far. *)
Lemma dedup_occurrences (base pre : list jsstring) (used : gmap jsstring nat) :
  (forall k, default 0%nat (used !! k) = occurrences k pre) ->
  dedup used base
  = imap (fun i k => spec_suffixed (pre ++ base) (length pre + i) k) base.
Proof.
  revert pre used. induction base as [| key rest IH]; intros pre used Hused;
    [done |].
  cbn [dedup imap]. f_equal.
  - unfold spec_suffixed.
    rewrite Nat.add_0_r.
    replace (take (S (length pre)) (pre ++ key :: rest)) with (pre ++ [key]).
    2:{ rewrite take_app_ge by lia.
        replace (S (length pre) - length pre)%nat with 1%nat by lia. done. }
    rewrite occurrences_app, occurrences_one, decide_True by done.
    rewrite Hused.
    destruct (occurrences key pre) as [| c]; [done |].
    replace (S c + 1 =? 1)%nat with false by (symmetry; apply Nat.eqb_neq; lia).
    done.
  - rewrite (IH (pre ++ [key]) (<[key := (default 0%nat (used !! key) + 1)%nat]> used)).
    + apply imap_ext. intros i k _. cbn.
      rewrite <- app_assoc, length_app. cbn [length app].
      by replace (length pre + 1 + i)%nat with (length pre + S i)%nat by lia.
    + intros k. rewrite occurrences_app, occurrences_one.
      destruct (decide (key = k)) as [-> | Hne].
      * rewrite lookup_insert_eq. cbn. by rewrite Hused.
      * rewrite lookup_insert_ne by done. rewrite Hused. lia.
Qed.

Lemma normalizeHeaders_suffixed (values : list (Cell Num)) :
  normalizeHeaders values
  = imap (spec_suffixed (imap base_key values)) (imap base_key values).
Proof.
  unfold normalizeHeaders.
  rewrite (dedup_occurrences _ [] ∅); [done |].
  intros k. by rewrite lookup_empty.
Qed.

Lemma normalizeHeaders_length (values : list (Cell Num)) :
  length (normalizeHeaders values) = length values.
Proof. by rewrite normalizeHeaders_suffixed, !length_imap. Qed.

Lemma base_key_text (i : nat) (v : Cell Num) :
  base_key i v
  = if decide (spec_text v = []) then lit "Column" ++ dec (i + 1)
    else spec_text v.
Proof.
  unfold base_key, spec_text, coalesce.
  destruct v as [| | b | n | s]; cbn [is_nullish js_String].
  1,2: done.
  all: match goal with |- context [trim ?t] => destruct (trim t) as [| c t'] end;
    done.
Qed.

Lemma occurrences_first (l : list jsstring) i k :
  NoDup l -> l !! i = Some k -> occurrences k (take (S i) l) = 1%nat.
Proof.
  intros Hnd Hi.
  rewrite (take_S_r _ _ _ Hi), occurrences_app, occurrences_one.
  rewrite decide_True by done.
  rewrite occurrences_absent; [done |].
  intros Hin. apply list_elem_of_lookup in Hin as [j Hj].
  apply lookup_take_Some in Hj as [Hj Hlt].
  pose proof (NoDup_lookup _ _ _ _ Hnd Hi Hj). lia.
Qed.

End Headers.

(** ** Decimal numerals *)

Lemma dec_go_last fuel n acc :
  acc <> [] -> last (dec_go fuel n acc) = last acc.
Proof.
  revert n acc. induction fuel as [| fuel IH]; intros n acc Hacc; [done |].
  cbn [dec_go].
  assert (last (digit (n mod 10) :: acc) = last acc) as Hl
    by (destruct acc; [done | reflexivity]).
  destruct (n / 10 =? 0)%nat; [done |].
  by rewrite IH.
Qed.

Lemma dec_last n : exists d, last (dec n) = Some d /\ is_digit d = true.
Proof.
  exists (digit (n mod 10)). split.
  - unfold dec. cbn [dec_go].
    destruct (n / 10 =? 0)%nat; [done |]. by rewrite dec_go_last.
  - pose proof (Nat.mod_upper_bound n 10 ltac:(lia)).
    unfold is_digit, digit. apply andb_true_iff. split; apply N.leb_le; lia.
Qed.

Lemma suffixed_last (k : jsstring) n :
  exists d, last (k ++ lit "_" ++ dec n) = Some d /\ is_digit d = true.
Proof.
  destruct (dec_last n) as (d & Hd & Hdig). exists d. split; [| done].
  rewrite app_assoc. destruct (dec n) as [| c t] eqn:E; [done |].
  rewrite last_app. by rewrite Hd.
Qed.

(** ** Objects *)

Section Objects.
Context {Num : Type} `{JsNumber Num}.

Abbreviation keys_of := (map (fst : jsstring * Cell Num -> jsstring)).

Lemma last_pos_None k hs : last_pos k hs = None <-> k ∉ hs.
Proof.
  induction hs as [| h hs IH]; cbn [last_pos].
  - split; [intros _; apply not_elem_of_nil | done].
  - rewrite not_elem_of_cons. destruct (last_pos k hs) as [j |].
    + split; [done |]. intros [_ Hn]. by apply IH in Hn.
    + destruct (decide (h = k)) as [-> | Hne].
      * split; [done | by intros [? _]].
      * split; [| done]. intros _. split; [congruence | by apply IH].
Qed.

Lemma last_pos_Some k hs j :
  last_pos k hs = Some j <->
  hs !! j = Some k /\ forall j', (j < j')%nat -> hs !! j' <> Some k.
Proof.
  revert j. induction hs as [| h hs IH]; intros j; cbn [last_pos].
  - split; [done | by intros [? _]].
  - destruct (last_pos k hs) as [j0 |] eqn:E.
    + split.
      * intros [= <-]. destruct (proj1 (IH j0) eq_refl) as [Hj Hlast].
        split; [done |]. intros [| j'] Hlt; [lia |]. apply Hlast. lia.
      * intros [Hj Hlast]. destruct j as [| j].
        -- destruct (proj1 (IH j0) eq_refl) as [Hj0 _].
           exfalso. apply (Hlast (S j0)); [lia | done].
        -- f_equal. assert (Some j0 = Some j) as [= ->]; [| done].
           apply IH. split; [done |]. intros j' Hlt.
           apply (Hlast (S j')). lia.
    + apply last_pos_None in E. destruct (decide (h = k)) as [-> | Hne].
      * split.
        -- intros [= <-]. split; [done |]. intros [| j'] Hlt; [lia |].
           cbn. intros Hj'. apply E. by eapply list_elem_of_lookup_2.
        -- intros [Hj _]. destruct j as [| j]; [done |].
           exfalso. apply E. by eapply list_elem_of_lookup_2.
      * split; [done |]. intros [Hj _]. destruct j as [| j].
        -- cbn in Hj. congruence.
        -- exfalso. apply E. by eapply list_elem_of_lookup_2.
Qed.

Lemma obj_update_None k v (o : list (jsstring * Cell Num)) :
  obj_update k v o = None <-> k ∉ keys_of o.
Proof.
  induction o as [| [k' v'] o IH]; cbn [obj_update map fst].
  - split; [intros _; apply not_elem_of_nil | done].
  - rewrite not_elem_of_cons. destruct (decide (k' = k)) as [-> | Hne].
    + split; [done | by intros [? _]].
    + destruct (obj_update k v o) as [o' |]; cbn.
      * split; [done |]. intros [_ Hn]. by apply IH in Hn.
      * split; [| done]. intros _. split; [congruence | by apply IH].
Qed.

Lemma obj_update_Some k v (o o' : list (jsstring * Cell Num)) :
  obj_update k v o = Some o' ->
  keys_of o' = keys_of o /\
  obj_get k o' = Some v /\
  forall k', k' <> k -> obj_get k' o' = obj_get k' o.
Proof.
  revert o'. induction o as [| [k1 v1] o IH]; intros o'; cbn [obj_update];
    [done |].
  destruct (decide (k1 = k)) as [-> | Hne].
  - intros [= <-]. cbn [map fst obj_get]. rewrite decide_True by done.
    split; [done |]. split; [done |]. intros k' Hk'.
    by rewrite !decide_False by congruence.
  - destruct (obj_update k v o) as [o1 |]; cbn; [| done].
    intros [= <-]. destruct (IH o1 eq_refl) as (Hk & Hg & Ho).
    cbn [map fst obj_get]. rewrite Hk. split; [done |].
    rewrite decide_False by done. split; [done |].
    intros k' Hk'. destruct (decide (k1 = k')); [done | by apply Ho].
Qed.

Lemma obj_get_None k (o : list (jsstring * Cell Num)) :
  obj_get k o = None <-> k ∉ keys_of o.
Proof.
  induction o as [| [k' v'] o IH]; cbn [obj_get map fst].
  - split; [intros _; apply not_elem_of_nil | done].
  - rewrite not_elem_of_cons. destruct (decide (k' = k)) as [-> | Hne].
    + split; [done | by intros [? _]].
    + rewrite IH. split; [intros; split; [congruence | done] | by intros [_ ?]].
Qed.

Lemma obj_get_app_absent k (o1 o2 : list (jsstring * Cell Num)) :
  k ∉ keys_of o1 -> obj_get k (o1 ++ o2) = obj_get k o2.
Proof.
  induction o1 as [| [k' v'] o1 IH]; cbn [obj_get map fst app]; [done |].
  rewrite not_elem_of_cons. intros [Hne Hn].
  rewrite decide_False by congruence. by apply IH.
Qed.

Lemma obj_get_app_present k (o1 o2 : list (jsstring * Cell Num)) :
  k ∈ keys_of o1 -> obj_get k (o1 ++ o2) = obj_get k o1.
Proof.
  induction o1 as [| [k' v'] o1 IH]; cbn [obj_get map fst app].
  - intros Hin. by apply elem_of_nil in Hin.
  - intros Hin. destruct (decide (k' = k)); [done |].
    apply IH. apply elem_of_cons in Hin as [? | ?]; [congruence | done].
Qed.

Lemma obj_set_proto v (o : list (jsstring * Cell Num)) :
  obj_set proto_key v o = o.
Proof. unfold obj_set. by rewrite decide_True. Qed.

Lemma obj_set_get_eq k v (o : list (jsstring * Cell Num)) :
  k <> proto_key -> obj_get k (obj_set k v o) = Some v.
Proof.
  intros Hk. unfold obj_set. rewrite decide_False by done.
  destruct (obj_update k v o) as [o' |] eqn:E.
  - by apply obj_update_Some in E as (_ & ? & _).
  - apply obj_update_None in E. rewrite obj_get_app_absent by done.
    cbn. by rewrite decide_True.
Qed.

Lemma obj_set_get_ne k k' v (o : list (jsstring * Cell Num)) :
  k' <> k -> obj_get k' (obj_set k v o) = obj_get k' o.
Proof.
  intros Hk. unfold obj_set. destruct (decide (k = proto_key)); [done |].
  destruct (obj_update k v o) as [o' |] eqn:E.
  - apply obj_update_Some in E as (_ & _ & Ho). by apply Ho.
  - destruct (obj_get k' o) as [c |] eqn:G.
    + rewrite obj_get_app_present; [done |].
      apply dec_stable. intros Hn. apply obj_get_None in Hn. congruence.
    + apply obj_get_None in G. rewrite obj_get_app_absent by done.
      cbn. by rewrite decide_False by congruence.
Qed.

Lemma obj_set_keys k v (o : list (jsstring * Cell Num)) :
  keys_of (obj_set k v o)
  = if decide (k = proto_key) then keys_of o
    else if decide (k ∈ keys_of o) then keys_of o else keys_of o ++ [k].
Proof.
  unfold obj_set. destruct (decide (k = proto_key)); [done |].
  destruct (obj_update k v o) as [o' |] eqn:E.
  - rewrite decide_True.
    + by apply obj_update_Some in E as (? & _ & _).
    + apply dec_stable. intros Hn. apply (obj_update_None k v) in Hn.
      congruence.
  - apply obj_update_None in E. rewrite decide_False by done.
    by rewrite map_app.
Qed.


Lemma coalesce_cell (r : list (Cell Num)) i :
  coalesce (default CUndef (r !! i)) (CStr []) = spec_cell_or_empty r i.
Proof. unfold spec_cell_or_empty. by destruct (r !! i) as [[]|]. Qed.

Lemma fill_object_get k hs (r : list (Cell Num)) i o :
  k <> proto_key ->
  obj_get k (fill_object hs r i o)
  = match last_pos k hs with
    | Some j => Some (spec_cell_or_empty r (i + j))
    | None => obj_get k o
    end.
Proof.
  intros Hk. revert i o. induction hs as [| h hs IH]; intros i o; [done |].
  cbn [fill_object last_pos]. rewrite IH.
  destruct (last_pos k hs) as [j |].
  - by replace (S i + j)%nat with (i + S j)%nat by lia.
  - destruct (decide (h = k)) as [-> | Hne].
    + rewrite obj_set_get_eq by done. by rewrite Nat.add_0_r, coalesce_cell.
    + by rewrite obj_set_get_ne by congruence.
Qed.

Lemma fill_object_get_proto hs (r : list (Cell Num)) i o :
  obj_get proto_key (fill_object hs r i o) = obj_get proto_key o.
Proof.
  revert i o. induction hs as [| h hs IH]; intros i o; [done |].
  cbn [fill_object]. rewrite IH.
  destruct (decide (h = proto_key)) as [-> | Hne].
  - by rewrite obj_set_proto.
  - by rewrite obj_set_get_ne by congruence.
Qed.

Lemma fill_object_keys_NoDup hs (r : list (Cell Num)) i o :
  NoDup (keys_of o) -> NoDup (keys_of (fill_object hs r i o)).
Proof.
  revert i o. induction hs as [| h hs IH]; intros i o Hnd; [done |].
  cbn [fill_object]. apply IH. rewrite obj_set_keys.
  repeat case_decide; try done.
  apply NoDup_app. split; [done |]. split; [| apply NoDup_singleton].
  intros x Hx Hx'. apply list_elem_of_singleton in Hx'. by subst.
Qed.

Lemma fill_object_keys_from hs (r : list (Cell Num)) i o k :
  k ∈ keys_of (fill_object hs r i o) ->
  k ∈ keys_of o \/ (k ∈ hs /\ k <> proto_key).
Proof.
  revert i o. induction hs as [| h hs IH]; intros i o; [by left |].
  cbn [fill_object]. intros Hin. apply IH in Hin as [Hin | [Hin Hk]].
  - rewrite obj_set_keys in Hin. repeat case_decide; try by left.
    apply elem_of_app in Hin as [Hin | Hin]; [by left |].
    apply list_elem_of_singleton in Hin as ->. right. split; [left | done].
  - right. split; [by right | done].
Qed.

Lemma fill_object_keys_indep hs (r r' : list (Cell Num)) i o o' :
  keys_of o = keys_of o' ->
  keys_of (fill_object hs r i o) = keys_of (fill_object hs r' i o').
Proof.
  revert i o o'. induction hs as [| h hs IH]; intros i o o' Hk; [done |].
  cbn [fill_object]. apply IH. by rewrite !obj_set_keys, Hk.
Qed.

(** Two objects with the same keys in the same order and the same value
    under every key are the same object. *)
Lemma object_ext (o1 o2 : list (jsstring * Cell Num)) :
  NoDup (keys_of o1) -> keys_of o1 = keys_of o2 ->
  (forall k, obj_get k o1 = obj_get k o2) -> o1 = o2.
Proof.
  revert o2. induction o1 as [| [k1 v1] o1 IH]; intros [| [k2 v2] o2];
    cbn [map fst]; try done.
  intros Hnd [= <- Hk] Hget. apply NoDup_cons in Hnd as [Hk1 Hnd].
  pose proof (Hget k1) as H1. cbn [obj_get] in H1.
  rewrite !decide_True in H1 by done. injection H1 as <-.
  f_equal. apply IH; [done | done |].
  intros k. specialize (Hget k). cbn [obj_get] in Hget.
  destruct (decide (k1 = k)) as [<- | Hne]; [| done].
  transitivity (@None (Cell Num)); [| symmetry]; apply obj_get_None; congruence.
Qed.

Lemma elem_of_delete_dup (l : list jsstring) i j x :
  i <> j -> l !! i = l !! j -> is_Some (l !! i) -> x ∈ l -> x ∈ delete i l.
Proof.
  intros Hij Heq [y Hy] Hx. apply list_elem_of_lookup in Hx as [m Hm].
  assert (exists m', m' <> i /\ l !! m' = Some x) as (m' & Hm' & Hx').
  { destruct (decide (m = i)) as [-> | Hne]; [| by exists m].
    exists j. split; [done |]. by rewrite <- Heq. }
  apply list_elem_of_lookup.
  destruct (decide (m' < i)%nat) as [Hlt | Hge].
  - exists m'. by rewrite list_lookup_delete_lt.
  - exists (m' - 1)%nat. rewrite list_lookup_delete_ge by lia.
    by replace (S (m' - 1)) with m' by lia.
Qed.

(** The object built from a row: its bindings, and its size when two
    positions of the headers carry the same key. *)
Lemma row_to_object_get hs (r : list (Cell Num)) k :
  obj_get k (row_to_object hs r)
  = if decide (k = proto_key) then None
    else match last_pos k hs with
         | Some j => Some (spec_cell_or_empty r j)
         | None => None
         end.
Proof.
  unfold row_to_object. destruct (decide (k = proto_key)) as [-> | Hk].
  - by rewrite fill_object_get_proto.
  - by rewrite fill_object_get.
Qed.

Lemma row_to_object_size_dup hs (r : list (Cell Num)) i j :
  i <> j -> hs !! i = hs !! j -> is_Some (hs !! i) ->
  (length (row_to_object hs r) < length hs)%nat.
Proof.
  intros Hij Heq Hi.
  assert (length (keys_of (row_to_object hs r)) <= length (delete i hs))%nat
    as Hle.
  { apply submseteq_length, NoDup_submseteq.
    - apply fill_object_keys_NoDup. constructor.
    - intros x Hx. apply (elem_of_delete_dup _ i j); try done.
      apply fill_object_keys_from in Hx as [Hx | [Hx _]]; [| done].
      by apply elem_of_nil in Hx. }
  rewrite length_map in Hle. rewrite length_delete in Hle by done.
  destruct Hi as [y Hy]. apply lookup_lt_Some in Hy. lia.
Qed.

Lemma row_to_object_overwritten hs (r : list (Cell Num)) i j c :
  (i < j)%nat -> hs !! i = hs !! j -> is_Some (hs !! j) ->
  row_to_object hs (<[i := c]> r) = row_to_object hs r.
Proof.
  intros Hij Heq [key Hj].
  apply object_ext.
  - apply fill_object_keys_NoDup. constructor.
  - by apply fill_object_keys_indep.
  - intros k. rewrite !row_to_object_get.
    destruct (decide (k = proto_key)); [done |].
    destruct (last_pos k hs) as [m |] eqn:E; [| done].
    apply last_pos_Some in E as [Hm Hlast].
    assert (m <> i) as Hne.
    { intros ->. apply (Hlast j Hij). congruence. }
    unfold spec_cell_or_empty. by rewrite list_lookup_insert_ne.
Qed.

End Objects.

(** ** The conversion *)

Section Conversion.
Context {Num : Type} `{JsNumber Num}.

Lemma retained_filter (skip : bool) (rows : list (list (Cell Num))) :
  js_filter (fun r => if skip then b ← isRowEmpty r; Ok (negb b) else Ok true)
    rows
  = Ok (spec_retained skip rows).
Proof.
  unfold spec_retained. destruct skip.
  - apply js_filter_ok. intros r. by rewrite isRowEmpty_ok.
  - rewrite (js_filter_ok _ (fun _ => true)) by done. f_equal.
    induction rows as [| r rows IH]; [done |]. cbn. by rewrite IH.
Qed.

Lemma header_index_nat (rows : list (list (Cell Num))) n :
  clampNumber (n - 1) 0 (Z.max 0 (Z.of_nat (length rows) - 1))
  = Z.of_nat (spec_header_index rows n).
Proof.
  unfold spec_header_index.
  pose proof (clampNumber_between (n - 1) 0
                (Z.max 0 (Z.of_nat (length rows) - 1)) ltac:(lia)).
  lia.
Qed.

Lemma convertResult_arrays (rows : list (list (Cell Num))) options :
  outputMode options = arrays ->
  let exportRows := spec_retained (skipEmptyRows options) rows in
  convertResult rows options
  = Ok {| data := DArrays exportRows;
          json := JSON_stringify (DArrays exportRows)
                    (if pretty options then 2 else 0);
          previewRows := take 25 exportRows;
          rowCount := length exportRows;
          headerRowIndex :=
            Z.of_nat (spec_header_index rows (headerRowNumber options)) |}.
Proof.
  intros Hmode exportRows. unfold convertResult. rewrite Hmode.
  rewrite header_index_nat.
  assert ((if skipEmptyRows options
           then js_filter (fun r => b ← isRowEmpty r; Ok (negb b)) rows
           else Ok rows) = Ok exportRows) as ->; [| done].
  subst exportRows. unfold spec_retained. destruct (skipEmptyRows options);
    [| done].
  apply js_filter_ok. intros r. by rewrite isRowEmpty_ok.
Qed.

Lemma convertResult_objects (rows : list (list (Cell Num))) options :
  outputMode options = objects ->
  let headerRow := spec_header_row rows (headerRowNumber options) in
  let dataRows :=
    spec_data_rows (skipEmptyRows options) rows (headerRowNumber options) in
  let objs := map (row_to_object (normalizeHeaders headerRow)) dataRows in
  convertResult rows options
  = Ok {| data := DObjects objs;
          json := JSON_stringify (DObjects objs)
                    (if pretty options then 2 else 0);
          previewRows := headerRow :: take 24 dataRows;
          rowCount := length objs;
          headerRowIndex :=
            Z.of_nat (spec_header_index rows (headerRowNumber options)) |}.
Proof.
  intros Hmode headerRow dataRows objs. unfold convertResult. rewrite Hmode.
  rewrite header_index_nat.
  set (idx := spec_header_index rows (headerRowNumber options)).
  assert (js_slice_from rows (Z.of_nat idx + 1) = drop (S idx) rows) as ->.
  { unfold js_slice_from.
    destruct (Z.ltb_spec (Z.of_nat idx + 1) 0); [lia |].
    f_equal. lia. }
  rewrite retained_filter. cbn [mbind res_bind].
  assert (js_index rows (Z.of_nat idx) = rows !! idx) as ->.
  { unfold js_index. destruct (Z.ltb_spec (Z.of_nat idx) 0); [lia |].
    by rewrite Nat2Z.id. }
  done.
Qed.

Lemma convertResult_total (rows : list (list (Cell Num))) options :
  exists r, convertResult rows options = Ok r.
Proof.
  destruct (outputMode options) eqn:Hmode.
  - eexists. by apply convertResult_objects.
  - eexists. by apply convertResult_arrays.
Qed.

End Conversion.

(** ** The properties of the specification *)

Section Properties.
Context {Num : Type} `{JsNumber Num}.

(** C4: for integers [v], [min], [max] with [0 <= min <= max], the clamp
    lies in [[min, max]] and is [v] when [v] already lies there; hence the
    header row index of every conversion is [0] on an empty grid and a
    position of the grid otherwise, whatever the header row number. *)
Theorem clampNumber_header_index (v min max : Z)
    (rows : list (list (Cell Num))) (options : ConvertOptions) :
  0 <= min <= max ->
  (min <= clampNumber v min max <= max) /\
  (min <= v <= max -> clampNumber v min max = v) /\
  exists r, convertResult rows options = Ok r /\
    headerRowIndex r
    = clampNumber (headerRowNumber options - 1) 0
        (Z.max 0 (Z.of_nat (length rows) - 1)) /\
    (rows = [] -> headerRowIndex r = 0) /\
    (rows <> [] ->
       0 <= headerRowIndex r < Z.of_nat (length rows) /\
       is_Some (js_index rows (headerRowIndex r))).
Proof.
  intros Hrange. split; [apply clampNumber_between; lia |].
  split; [apply clampNumber_id |].
  destruct (convertResult_total rows options) as [r Hr]. exists r.
  split; [done |].
  assert (headerRowIndex r
          = clampNumber (headerRowNumber options - 1) 0
              (Z.max 0 (Z.of_nat (length rows) - 1))) as Hidx.
  { rewrite header_index_nat.
    destruct (outputMode options) eqn:Hmode.
    - rewrite convertResult_objects in Hr by done. by injection Hr as <-.
    - rewrite convertResult_arrays in Hr by done. by injection Hr as <-. }
  split; [done |]. rewrite Hidx.
  apply (header_index_valid rows (headerRowNumber options)).
Qed.

(** C5: [isRowEmpty] answers [true] exactly when every cell is null or
    absent or a string whose trimmed form has length zero; a number or a
    boolean cell, [0] and [false] included, makes the row non-empty; the
    row without cells is empty. *)
Theorem isRowEmpty_classification (row : list (Cell Num)) :
  (exists b, isRowEmpty row = Ok b /\ (b = true <-> spec_row_empty row)) /\
  (forall n, CNum n ∈ row -> isRowEmpty row = Ok false) /\
  (forall b, CBool b ∈ row -> isRowEmpty row = Ok false) /\
  isRowEmpty ([] : list (Cell Num)) = Ok true /\
  isRowEmpty ([CNull; CStr []; str "  "] : list (Cell Num)) = Ok true /\
  (forall n : Num, isRowEmpty [CNum n] = Ok false) /\
  isRowEmpty ([CBool false] : list (Cell Num)) = Ok false /\
  isRowEmpty ([str "a"] : list (Cell Num)) = Ok false.
Proof.
  assert (forall c : Cell Num, c ∈ row -> ~ spec_cell_empty c ->
            isRowEmpty row = Ok false) as Hnon.
  { intros c Hin Hc. rewrite isRowEmpty_ok. f_equal.
    apply bool_decide_eq_false_2. intros Hall.
    apply Hc. unfold spec_row_empty in Hall. rewrite Forall_forall in Hall.
    by apply Hall. }
  split.
  { exists (bool_decide (spec_row_empty row)). split; [apply isRowEmpty_ok |].
    apply bool_decide_eq_true. }
  split; [intros n Hin; apply (Hnon _ Hin); cbn; tauto |].
  split; [intros b Hin; apply (Hnon _ Hin); cbn; tauto |].
  repeat split; reflexivity.
Qed.

(** C2: after trimming and blank substitution, the first occurrence of a
    key is kept and its n-th occurrence (n >= 2) is emitted as the key
    followed by [_n], n counting the occurrences of the key itself among
    the keys up to that position; so [X, X, X] gives [X, X_2, X_3]. *)
Theorem normalizeHeaders_occurrence_suffix (values : list (Cell Num)) :
  let base :=
    imap (fun i v => if decide (spec_text v = [])
                     then lit "Column" ++ dec (i + 1) else spec_text v)
         values in
  normalizeHeaders values = imap (spec_suffixed base) base /\
  normalizeHeaders ([str "X"; str "X"; str "X"] : list (Cell Num))
  = [lit "X"; lit "X_2"; lit "X_3"].
Proof.
  intros base. split; [| reflexivity].
  rewrite normalizeHeaders_suffixed.
  assert (imap base_key values = base) as ->; [| done].
  apply imap_ext. intros i v _. apply base_key_text.
Qed.

(** C8, as amended: when the trimmed texts of the entries of a header row
    are pairwise different and none of them is empty, [normalizeHeaders]
    returns exactly these trimmed texts, in the same order. *)
Theorem normalizeHeaders_distinct_texts (values : list (Cell Num)) :
  NoDup (map spec_text values) ->
  Forall (fun v => spec_text v <> []) values ->
  normalizeHeaders values = map spec_text values.
Proof.
  intros Hnd Hne.
  assert (imap base_key values = map spec_text values) as Hbase.
  { apply list_eq. intros i.
    rewrite list_lookup_imap, list_lookup_fmap.
    destruct (values !! i) as [v |] eqn:Hv; [| done]. cbn. f_equal.
    rewrite base_key_text, decide_False; [done |].
    rewrite Forall_forall in Hne. apply Hne.
    by eapply list_elem_of_lookup_2. }
  rewrite normalizeHeaders_suffixed, Hbase.
  apply list_eq. intros i. rewrite list_lookup_imap.
  destruct (map spec_text values !! i) as [k |] eqn:Hk; [| done]. cbn.
  unfold spec_suffixed. by rewrite (occurrences_first _ _ _ Hnd Hk).
Qed.

(** C1: [normalizeHeaders] returns one key for each cell of the header row,
    in the order of the cells, but its keys are not always different: on the
    header row [X, X_2, X] it emits the key [X_2] twice. *)
Theorem normalizeHeaders_emits_duplicate :
  (forall values : list (Cell Num),
     length (normalizeHeaders values) = length values) /\
  let values : list (Cell Num) := [str "X"; str "X_2"; str "X"] in
  normalizeHeaders values = [lit "X"; lit "X_2"; lit "X_2"] /\
  ~ NoDup (normalizeHeaders values).
Proof.
  split; [apply normalizeHeaders_length |].
  intros values. split; [reflexivity |].
  change (~ NoDup [lit "X"; lit "X_2"; lit "X_2"]).
  intros Hnd. apply NoDup_cons in Hnd as [_ Hnd].
  apply NoDup_cons in Hnd as [Hn _]. apply Hn. left.
Qed.

(** C6: the conversion returns a result for every grid and every
    configuration and [isRowEmpty] returns a boolean for every row, no
    exception of the runtime being raised; [normalizeHeaders] and
    [clampNumber] have a value on every input. *)
Theorem projection_total (rows : list (list (Cell Num)))
    (options : ConvertOptions) (row values : list (Cell Num)) (v min max : Z) :
  (exists r, convertResult rows options = Ok r) /\
  (exists r, convertResult [] options = Ok r) /\
  (exists b, isRowEmpty row = Ok b) /\
  (exists hs, normalizeHeaders values = hs /\ length hs = length values) /\
  normalizeHeaders ([] : list (Cell Num)) = [] /\
  (exists z, clampNumber v min max = z).
Proof.
  split; [apply convertResult_total |].
  split; [apply convertResult_total |].
  split; [eexists; apply isRowEmpty_ok |].
  split; [eexists; split; [done | apply normalizeHeaders_length] |].
  split; [done | by eexists].
Qed.

(** C7: the preview never has more than 25 rows; in objects mode it is the
    header row followed by the first 24 data rows, in arrays mode the first
    25 retained rows. *)
Theorem previewRows_cap (rows : list (list (Cell Num)))
    (options : ConvertOptions) :
  exists r, convertResult rows options = Ok r /\
    (length (previewRows r) <= 25)%nat /\
    match outputMode options with
    | objects =>
        previewRows r
        = spec_header_row rows (headerRowNumber options)
          :: take 24 (spec_data_rows (skipEmptyRows options) rows
                        (headerRowNumber options))
    | arrays =>
        previewRows r = take 25 (spec_retained (skipEmptyRows options) rows)
    end.
Proof.
  destruct (outputMode options) eqn:Hmode.
  - eexists. split; [by apply convertResult_objects |].
    cbn [previewRows length]. rewrite length_take. split; [lia | done].
  - eexists. split; [by apply convertResult_arrays |].
    cbn [previewRows]. rewrite length_take. split; [lia | done].
Qed.

End Properties.

Section ObjectsMode.
Context {Num : Type} `{JsNumber Num}.

Lemma spec_suffixed_proto base j k :
  spec_suffixed base j k = proto_key ->
  k = proto_key /\ occurrences k (take (S j) base) = 1%nat.
Proof.
  unfold spec_suffixed.
  destruct (Nat.eqb_spec (occurrences k (take (S j) base)) 1) as [E | E].
  - by intros ->.
  - intros Heq. exfalso.
    destruct (suffixed_last k (occurrences k (take (S j) base)))
      as (d & Hd & Hdig).
    rewrite Heq in Hd. vm_compute in Hd. injection Hd as <-. done.
Qed.

(** A key emitted at two positions is not [__proto__]. *)
Lemma emitted_twice_not_proto (values : list (Cell Num)) i j key :
  (i < j)%nat ->
  normalizeHeaders values !! i = Some key ->
  normalizeHeaders values !! j = Some key ->
  key <> proto_key.
Proof.
  intros Hij Hi Hj ->.
  rewrite normalizeHeaders_suffixed in Hi, Hj.
  rewrite list_lookup_imap in Hi, Hj.
  set (base := imap base_key values) in *.
  destruct (base !! i) as [ki |] eqn:Eki; [| done].
  destruct (base !! j) as [kj |] eqn:Ekj; [| done].
  cbn in Hi, Hj. injection Hi as Hi. injection Hj as Hj.
  apply spec_suffixed_proto in Hi as [-> _].
  apply spec_suffixed_proto in Hj as [-> Hocc].
  rewrite (take_S_r _ _ _ Ekj), occurrences_app, occurrences_one in Hocc.
  rewrite decide_True in Hocc by done.
  assert (1 <= occurrences proto_key (take j base))%nat; [| lia].
  apply occurrences_present, list_elem_of_lookup. exists i.
  apply lookup_take_Some. by split.
Qed.

(** C10: when [normalizeHeaders] emits one key at the positions [i < j],
    [j] being the last of them, every object of objects mode binds the key
    to the cell of its row at [j], is the same whatever the cell at [i] is,
    and has fewer keys than there are headers. *)
Theorem duplicate_key_last_wins (rows : list (list (Cell Num)))
    (options : ConvertOptions) (i j : nat) (key : jsstring) :
  let headers :=
    normalizeHeaders (spec_header_row rows (headerRowNumber options)) in
  outputMode options = objects ->
  (i < j)%nat ->
  headers !! i = Some key ->
  headers !! j = Some key ->
  (forall j', (j < j')%nat -> headers !! j' <> Some key) ->
  exists r objs,
    convertResult rows options = Ok r /\
    data r = DObjects objs /\
    Forall2
      (fun row obj =>
         obj_get key obj = Some (spec_cell_or_empty row j) /\
         (forall c, row_to_object headers (<[i := c]> row) = obj) /\
         (length obj < length headers)%nat)
      (spec_data_rows (skipEmptyRows options) rows (headerRowNumber options))
      objs.
Proof.
  intros headers Hmode Hij Hi Hj Hlast.
  eexists. eexists. split; [by apply convertResult_objects |].
  split; [done |].
  apply Forall2_fmap_r, Forall_Forall2_diag, Forall_forall.
  intros row _. fold headers.
  pose proof (emitted_twice_not_proto _ _ _ _ Hij Hi Hj) as Hkey.
  split; [| split].
  - rewrite row_to_object_get, decide_False by done.
    by rewrite (proj2 (last_pos_Some key headers j) (conj Hj Hlast)).
  - intros c. apply (row_to_object_overwritten headers row i j); [done | |].
    + by rewrite Hi, Hj.
    + by rewrite Hj.
  - apply (row_to_object_size_dup headers row i j); [lia | |].
    + by rewrite Hi, Hj.
    + by rewrite Hi.
Qed.

(** C3: in objects mode the data rows are the rows after the clamped
    header row, filtered by the row-emptiness predicate when
    [skipEmptyRows] holds; the value is the sequence of their objects in row
    order and [rowCount] their number; an object binds nothing but header
    keys, each to a cell of its row at a position of that key, so cells
    beyond the header length are dropped; and where the header keys are
    pairwise different and none of them is [__proto__], the object binds
    [headers[i]] to the cell [i] of the row (the empty string when the row
    is shorter), as on the grid of the rows [Name, Age], [Ana, 30] and a
    row of two empty strings. The code fails to bind position by position
    on two kinds of header row: under the header [__proto__] the column is
    lost, the object of the row [a] being empty; and under the header row
    [X, X_2, X], whose keys are [X, X_2, X_2], the key [X_2] is bound to
    the third cell and the second cell is lost. *)
Theorem objects_mode_binding_defect (rows : list (list (Cell Num)))
    (sheet : jsstring) (n : Z) (skip pr : bool) :
  let options :=
    {| sheetName := sheet; outputMode := objects; headerRowNumber := n;
       skipEmptyRows := skip; pretty := pr |} in
  let headers := normalizeHeaders (spec_header_row rows n) in
  let dataRows := spec_data_rows skip rows n in
  (exists r objs,
     convertResult rows options = Ok r /\
     data r = DObjects objs /\
     rowCount r = length dataRows /\
     Forall2
       (fun row obj =>
          (NoDup headers -> proto_key ∉ headers ->
           spec_binds_positionally headers row obj) /\
          (forall k v, obj_get k obj = Some v ->
             exists j, headers !! j = Some k /\ v = spec_cell_or_empty row j))
       dataRows objs) /\
  (exists r,
     convertResult
       ([[str "Name"; str "Age"]; [str "Ana"; str "30"]; [CStr []; CStr []]]
          : list (list (Cell Num)))
       {| sheetName := sheet; outputMode := objects; headerRowNumber := 1;
          skipEmptyRows := true; pretty := pr |} = Ok r /\
     data r = DObjects [[(lit "Name", str "Ana"); (lit "Age", str "30")]] /\
     rowCount r = 1%nat) /\
  (exists r,
     convertResult
       ([[str "__proto__"]; [str "a"]] : list (list (Cell Num)))
       {| sheetName := sheet; outputMode := objects; headerRowNumber := 1;
          skipEmptyRows := true; pretty := pr |} = Ok r /\
     data r = DObjects [[]] /\
     rowCount r = 1%nat /\
     ~ spec_binds_positionally
         (normalizeHeaders ([str "__proto__"] : list (Cell Num)))
         ([str "a"] : list (Cell Num)) []) /\
  (exists r,
     convertResult
       ([[str "X"; str "X_2"; str "X"]; [str "a"; str "b"; str "c"]]
          : list (list (Cell Num)))
       {| sheetName := sheet; outputMode := objects; headerRowNumber := 1;
          skipEmptyRows := true; pretty := pr |} = Ok r /\
     data r = DObjects [[(lit "X", str "a"); (lit "X_2", str "c")]] /\
     rowCount r = 1%nat /\
     ~ spec_binds_positionally
         (normalizeHeaders ([str "X"; str "X_2"; str "X"] : list (Cell Num)))
         ([str "a"; str "b"; str "c"] : list (Cell Num))
         [(lit "X", str "a"); (lit "X_2", str "c")]).
Proof.
  intros options headers dataRows. split; [| split; [| split]].
  - eexists. eexists. split; [by apply convertResult_objects |].
    split; [done |]. split; [cbn [rowCount]; by rewrite length_map |].
    apply Forall2_fmap_r, Forall_Forall2_diag, Forall_forall.
    intros row _. cbn [headerRowNumber options]. fold headers. split.
    + intros Hnd Hproto i k Hi.
      assert (k <> proto_key) as Hk.
      { intros ->. apply Hproto. by eapply list_elem_of_lookup_2. }
      rewrite row_to_object_get, decide_False by done.
      rewrite (proj2 (last_pos_Some k headers i)); [done |].
      split; [done |]. intros j' Hlt Hj'.
      pose proof (NoDup_lookup _ _ _ _ Hnd Hi Hj'). lia.
    + intros k v. rewrite row_to_object_get.
      destruct (decide (k = proto_key)); [done |].
      destruct (last_pos k headers) as [j |] eqn:E; [| done].
      intros [= <-]. exists j. split; [| done].
      by apply last_pos_Some in E as [? _].
  - eexists. split; [by apply convertResult_objects |]. split; reflexivity.
  - eexists. split; [by apply convertResult_objects |].
    split; [reflexivity |]. split; [reflexivity |]. intros Hb.
    specialize (Hb 0%nat (lit "__proto__") eq_refl). discriminate Hb.
  - eexists. split; [by apply convertResult_objects |].
    split; [reflexivity |]. split; [reflexivity |]. intros Hb.
    specialize (Hb 1%nat (lit "X_2") eq_refl). vm_compute in Hb.
    discriminate Hb.
Qed.

End ObjectsMode.


(** ** Concrete sheets *)

Lemma clampNumber_header_index_witness :
  0 <= 0 <= 2 /\
  (0 <= clampNumber 99 0 2 <= 2) /\
  (0 <= 99 <= 2 -> clampNumber 99 0 2 = 99) /\
  exists r, convertResult three_rows (sample_options objects 99) = Ok r /\
    headerRowIndex r
    = clampNumber (headerRowNumber (sample_options objects 99) - 1) 0
        (Z.max 0 (Z.of_nat (length three_rows) - 1)) /\
    (three_rows = [] -> headerRowIndex r = 0) /\
    (three_rows <> [] ->
       0 <= headerRowIndex r < Z.of_nat (length three_rows) /\
       is_Some (js_index three_rows (headerRowIndex r))).
Proof.
  split; [lia |].
  apply (clampNumber_header_index 99 0 2 three_rows (sample_options objects 99)).
  lia.
Defined.

Lemma normalizeHeaders_distinct_texts_witness :
  let values : list (Cell Z) := [str " a "; CNum 5; str "b"] in
  NoDup (map spec_text values) /\
  Forall (fun v => spec_text v <> []) values /\
  normalizeHeaders values = map spec_text values.
Proof.
  cbn zeta.
  assert (NoDup (map spec_text ([str " a "; CNum 5; str "b"] : list (Cell Z))))
    as Hnd by (apply (bool_decide_unpack _); vm_compute; exact I).
  assert (Forall (fun v : Cell Z => spec_text v <> [])
            [str " a "; CNum 5; str "b"])
    as Hne by (apply (bool_decide_unpack _); vm_compute; exact I).
  split; [exact Hnd |]. split; [exact Hne |].
  exact (normalizeHeaders_distinct_texts _ Hnd Hne).
Defined.

(** The header row [X, " X"] has no duplicate, empty or whitespace-only
    entry, and is not returned unchanged up to trimming. *)
Lemma normalizeHeaders_trimmed_collision :
  let values : list (Cell Z) := [str "X"; str " X"] in
  NoDup values /\
  Forall (fun v => ~ spec_cell_empty v) values /\
  map spec_text values = [lit "X"; lit "X"] /\
  normalizeHeaders values = [lit "X"; lit "X_2"] /\
  normalizeHeaders values <> map spec_text values.
Proof.
  cbn zeta. split; [| split; [| split; [| split]]].
  - apply NoDup_cons. split; [| apply NoDup_singleton].
    intros Hin. apply list_elem_of_singleton in Hin. discriminate Hin.
  - repeat constructor; vm_compute; lia.
  - reflexivity.
  - reflexivity.
  - vm_compute. discriminate.
Qed.

Lemma duplicate_key_last_wins_witness :
  exists r objs,
    convertResult colliding_sheet (sample_options objects 1) = Ok r /\
    data r = DObjects objs /\
    Forall2
      (fun row obj =>
         obj_get (lit "X_2") obj = Some (spec_cell_or_empty row 2) /\
         (forall c,
            row_to_object
              (normalizeHeaders
                 (spec_header_row colliding_sheet
                    (headerRowNumber (sample_options objects 1))))
              (<[1%nat := c]> row) = obj) /\
         (length obj
          < length (normalizeHeaders
                      (spec_header_row colliding_sheet
                         (headerRowNumber (sample_options objects 1)))))%nat)
      (spec_data_rows (skipEmptyRows (sample_options objects 1))
         colliding_sheet (headerRowNumber (sample_options objects 1)))
      objs.
Proof.
  apply (duplicate_key_last_wins colliding_sheet (sample_options objects 1)
           1 2 (lit "X_2")).
  - reflexivity.
  - lia.
  - reflexivity.
  - reflexivity.
  - intros j' Hj'. do 3 (destruct j' as [| j']; [lia |]). discriminate.
Defined.

(** ** Lexing the printed texts *)

Lemma lexes_closed_to t toks : lexes_closed t toks -> lexes_to t toks.
Proof. intros Hc s _. apply Hc. Qed.

Lemma delim_head_start s s' : delim_head s -> delim_start (s ++ s').
Proof. by destruct s. Qed.

Lemma lexes_closed_nil : lexes_closed [] [].
Proof. intros s. change ([] ++ s) with s. by destruct (lex s). Qed.

Lemma lexes_closed_app t1 t2 k1 k2 :
  lexes_closed t1 k1 -> lexes_closed t2 k2 -> lexes_closed (t1 ++ t2) (k1 ++ k2).
Proof.
  intros H1 H2 s. rewrite <- app_assoc, H1, H2.
  destruct (lex s) as [ts |]; cbn; [| done]. by rewrite app_assoc.
Qed.

Lemma lexes_to_closed_app t1 t2 k1 k2 :
  lexes_to t1 k1 -> delim_head t2 -> lexes_closed t2 k2 ->
  lexes_closed (t1 ++ t2) (k1 ++ k2).
Proof.
  intros H1 Hd H2 s. rewrite <- app_assoc, H1 by by apply delim_head_start.
  rewrite H2. destruct (lex s) as [ts |]; cbn; [| done]. by rewrite app_assoc.
Qed.

Lemma lexes_closed_to_app t1 t2 k1 k2 :
  lexes_closed t1 k1 -> lexes_to t2 k2 -> lexes_to (t1 ++ t2) (k1 ++ k2).
Proof.
  intros H1 H2 s Hs. rewrite <- app_assoc, H1, H2 by done.
  destruct (lex s) as [ts |]; cbn; [| done]. by rewrite app_assoc.
Qed.

Lemma lexes_ws_char c : is_json_ws c = true -> lexes_closed [c] [TWs c].
Proof. intros Hc s. unfold lex. cbn. by rewrite Hc. Qed.

Lemma ws_not_punct c : is_json_ws c = true -> is_punct c = false.
Proof.
  unfold is_json_ws, is_punct. intros Hc.
  repeat (apply orb_true_iff in Hc as [Hc | Hc]);
    apply N.eqb_eq in Hc; by subst.
Qed.

Lemma lexes_punct_char c : is_punct c = true -> lexes_closed [c] [TPunct c].
Proof.
  intros Hc s. unfold lex. cbn. rewrite Hc.
  destruct (is_json_ws c) eqn:Hw; [| done].
  apply ws_not_punct in Hw. congruence.
Qed.

Lemma lexes_ws t :
  forallb is_json_ws t = true -> lexes_closed t (map TWs t).
Proof.
  induction t as [| c t IH]; intros Hall; [apply lexes_closed_nil |].
  cbn in Hall. apply andb_true_iff in Hall as [Hc Ht].
  apply (lexes_closed_app [c] t [TWs c]); [by apply lexes_ws_char | by apply IH].
Qed.

Lemma lex_go_atom_end acc s :
  delim_start s ->
  lex_go (LAtom acc) s = ts ← lex_go LDefault s; Some (TAtom (rev acc) :: ts).
Proof.
  destruct s as [| c s]; [done |]. cbn [delim_start lex_go].
  intros Hd. destruct (is_json_ws c) eqn:Hw.
  - by destruct (lex_go LDefault s).
  - cbn in Hd. rewrite Hd. by destruct (lex_go LDefault s).
Qed.

Lemma lex_go_atom_chars a st s :
  a <> [] -> forallb atom_char a = true ->
  match st with LStr _ _ => False | _ => True end ->
  lex_go st (a ++ s) = lex_go (LAtom (rev a ++ atom_acc st)) s.
Proof.
  revert st. induction a as [| c a IH]; intros st Hne Hall Hst; [done |].
  cbn in Hall. apply andb_true_iff in Hall as [Hc Ha].
  unfold atom_char in Hc. apply andb_true_iff in Hc as [Hc Hq].
  apply andb_true_iff in Hc as [Hw Hp].
  apply negb_true_iff in Hw, Hp, Hq.
  assert (lex_go st ((c :: a) ++ s) = lex_go (LAtom (c :: atom_acc st)) (a ++ s))
    as ->.
  { destruct st; [| | done]; cbn; by rewrite Hw, Hp, Hq. }
  destruct a as [| c' a'].
  - done.
  - rewrite IH by done. cbn [atom_acc rev]. by rewrite <- !app_assoc.
Qed.

Lemma lexes_atom a :
  a <> [] -> forallb atom_char a = true -> lexes_to a [TAtom a].
Proof.
  intros Hne Hall s Hs. unfold lex.
  rewrite (lex_go_atom_chars a LDefault) by done.
  cbn [atom_acc]. rewrite app_nil_r, lex_go_atom_end by done.
  by rewrite rev_involutive.
Qed.

(** ** String literals *)

Lemma quote_body_cases (P : jsstring -> Prop) :
  P [] ->
  (forall c d s, is_lead c = true -> is_trail d = true -> P s ->
     quote_body (c :: d :: s) = c :: d :: quote_body s -> P (c :: d :: s)) ->
  (forall c s, P s ->
     quote_body (c :: s) = quote_unit c ++ quote_body s -> P (c :: s)) ->
  forall s, P s.
Proof.
  intros Hnil Hpair Hunit s.
  assert (P s /\ forall c, P (c :: s)) as [Hs _]; [| done].
  induction s as [| d s [IHs IHc]].
  - split; [done |]. intros c. apply Hunit; [done |].
    cbn. destruct (is_lead c); by rewrite ?app_nil_r.
  - split; [apply IHc |]. intros c.
    destruct (is_lead c && is_trail d) eqn:E.
    + apply andb_true_iff in E as [Hc Hd].
      apply Hpair; try done. cbn [quote_body]. by rewrite Hc, Hd.
    + apply Hunit; [apply IHc |]. cbn [quote_body].
      destruct (is_lead c); [| done]. cbn in E. by rewrite E.
Qed.

Lemma lead_plain c : is_lead c = true -> plain_char c = true.
Proof.
  unfold is_lead, plain_char. intros Hc.
  apply andb_true_iff in Hc as [Hlo Hhi]. apply N.leb_le in Hlo, Hhi.
  rewrite !andb_true_iff, !negb_true_iff.
  repeat split; [apply N.ltb_ge | apply N.eqb_neq | apply N.eqb_neq]; lia.
Qed.

Lemma trail_plain c : is_trail c = true -> plain_char c = true.
Proof.
  unfold is_trail, plain_char. intros Hc.
  apply andb_true_iff in Hc as [Hlo Hhi]. apply N.leb_le in Hlo, Hhi.
  rewrite !andb_true_iff, !negb_true_iff.
  repeat split; [apply N.ltb_ge | apply N.eqb_neq | apply N.eqb_neq]; lia.
Qed.

Lemma plain_char_inv c :
  plain_char c = true ->
  (c <? 32)%N = false /\ (c =? 34)%N = false /\ (c =? 92)%N = false.
Proof.
  unfold plain_char. rewrite !andb_true_iff, !negb_true_iff. tauto.
Qed.

Lemma hex_digit_value d :
  (d < 16)%N ->
  hex_value (hex_digit d) = Some d /\ plain_char (hex_digit d) = true.
Proof.
  intros Hd. unfold hex_digit, hex_value, plain_char.
  destruct (N.ltb_spec d 10).
  - replace ((48 <=? 48 + d) && (48 + d <=? 57))%N with true.
    2:{ symmetry. apply andb_true_iff. split; apply N.leb_le; lia. }
    split; [f_equal; lia |].
    rewrite !andb_true_iff, !negb_true_iff.
    repeat split; [apply N.ltb_ge | apply N.eqb_neq | apply N.eqb_neq]; lia.
  - replace ((48 <=? 87 + d) && (87 + d <=? 57))%N with false.
    2:{ symmetry. apply andb_false_iff. right. apply N.leb_gt. lia. }
    replace ((97 <=? 87 + d) && (87 + d <=? 102))%N with true.
    2:{ symmetry. apply andb_true_iff. split; apply N.leb_le; lia. }
    split; [f_equal; lia |].
    rewrite !andb_true_iff, !negb_true_iff.
    repeat split; [apply N.ltb_ge | apply N.eqb_neq | apply N.eqb_neq]; lia.
Qed.

Lemma hex_digits_sum c :
  (c < 65536)%N ->
  (4096 * (c / 4096 mod 16) + 256 * (c / 256 mod 16) + 16 * (c / 16 mod 16)
   + c mod 16 = c)%N.
Proof.
  intros Hc.
  pose proof (N.div_mod c 16 ltac:(lia)) as H1.
  pose proof (N.div_mod (c / 16) 16 ltac:(lia)) as H2.
  pose proof (N.div_mod (c / 16 / 16) 16 ltac:(lia)) as H3.
  rewrite !N.Div0.div_div in H2, H3. rewrite N.Div0.div_div in H3.
  change (16 * 16)%N with 256%N in *. change (256 * 16)%N with 4096%N in *.
  assert (c / 4096 < 16)%N as H4
    by (apply N.Div0.div_lt_upper_bound; lia).
  rewrite (N.mod_small (c / 4096) 16) by done.
  lia.
Qed.

(** The three shapes of the text of one code unit. *)
Lemma quote_unit_cases c :
  (exists e, quote_unit c = [92%N; e] /\ unescape e = Some c
             /\ (e =? 117)%N = false) \/
  (quote_unit c = unicode_escape c /\ (c < 65536)%N) \/
  (quote_unit c = [c] /\ plain_char c = true).
Proof.
  unfold quote_unit.
  destruct (N.eqb_spec c 8) as [-> | H8]; [left; by exists 98%N |].
  destruct (N.eqb_spec c 9) as [-> | H9]; [left; by exists 116%N |].
  destruct (N.eqb_spec c 10) as [-> | H10]; [left; by exists 110%N |].
  destruct (N.eqb_spec c 12) as [-> | H12]; [left; by exists 102%N |].
  destruct (N.eqb_spec c 13) as [-> | H13]; [left; by exists 114%N |].
  destruct (N.eqb_spec c 34) as [-> | H34]; [left; by exists 34%N |].
  destruct (N.eqb_spec c 92) as [-> | H92]; [left; by exists 92%N |].
  destruct ((c <? 32)%N || is_lead c || is_trail c) eqn:E.
  - right. left. split; [done |].
    apply orb_true_iff in E as [E | E];
      [apply orb_true_iff in E as [E | E] |].
    + apply N.ltb_lt in E. lia.
    + unfold is_lead in E. apply andb_true_iff in E as [_ E].
      apply N.leb_le in E. lia.
    + unfold is_trail in E. apply andb_true_iff in E as [_ E].
      apply N.leb_le in E. lia.
  - right. right. split; [done |].
    apply orb_false_iff in E as [E _]. apply orb_false_iff in E as [E _].
    unfold plain_char. rewrite E.
    by rewrite (proj2 (N.eqb_neq c 34) H34), (proj2 (N.eqb_neq c 92) H92).
Qed.

Lemma lex_go_str_plain p acc s :
  forallb plain_char p = true ->
  lex_go (LStr acc false) (p ++ s) = lex_go (LStr (rev p ++ acc) false) s.
Proof.
  revert acc. induction p as [| c p IH]; intros acc Hall; [done |].
  cbn in Hall. apply andb_true_iff in Hall as [Hc Hp].
  apply plain_char_inv in Hc as (_ & H34 & H92).
  cbn [app lex_go]. rewrite H92, H34, IH by done.
  cbn [rev]. by rewrite <- app_assoc.
Qed.

Lemma unicode_escape_hex c :
  exists h1 h2 h3 h4,
    unicode_escape c = [92; 117; h1; h2; h3; h4]%N /\
    forallb plain_char [h1; h2; h3; h4] = true /\
    hex_value h1 = Some (c / 4096 mod 16)%N /\
    hex_value h2 = Some (c / 256 mod 16)%N /\
    hex_value h3 = Some (c / 16 mod 16)%N /\
    hex_value h4 = Some (c mod 16)%N.
Proof.
  pose proof (hex_digit_value (c / 4096 mod 16)
                ltac:(apply N.mod_upper_bound; lia)) as [V1 P1].
  pose proof (hex_digit_value (c / 256 mod 16)
                ltac:(apply N.mod_upper_bound; lia)) as [V2 P2].
  pose proof (hex_digit_value (c / 16 mod 16)
                ltac:(apply N.mod_upper_bound; lia)) as [V3 P3].
  pose proof (hex_digit_value (c mod 16)
                ltac:(apply N.mod_upper_bound; lia)) as [V4 P4].
  do 4 eexists. split; [reflexivity |].
  split; [cbn [forallb]; by rewrite P1, P2, P3, P4 | done].
Qed.

Lemma lex_go_str_unit c acc s :
  lex_go (LStr acc false) (quote_unit c ++ s)
  = lex_go (LStr (rev (quote_unit c) ++ acc) false) s.
Proof.
  destruct (quote_unit_cases c) as [(e & -> & _ & _) | [[-> _] | [-> Hp]]].
  - done.
  - destruct (unicode_escape_hex c) as (h1 & h2 & h3 & h4 & -> & Hp & _).
    change (lex_go (LStr (117%N :: 92%N :: acc) false) ([h1; h2; h3; h4] ++ s)
            = lex_go (LStr (rev [h1; h2; h3; h4] ++ 117%N :: 92%N :: acc) false) s).
    by apply lex_go_str_plain.
  - apply (lex_go_str_plain [c]). cbn. by rewrite Hp.
Qed.

Lemma lex_go_str_body s acc rest :
  lex_go (LStr acc false) (quote_body s ++ 34%N :: rest)
  = ts ← lex_go LDefault rest; Some (TStr (rev acc ++ quote_body s) :: ts).
Proof.
  revert acc. pattern s. apply quote_body_cases; clear s.
  - intros acc. cbn. by rewrite app_nil_r.
  - intros c d s Hc Hd IH Heq acc. rewrite Heq.
    change (c :: d :: quote_body s) with ([c; d] ++ quote_body s).
    rewrite <- app_assoc, lex_go_str_plain.
    2:{ cbn. by rewrite (lead_plain _ Hc), (trail_plain _ Hd). }
    rewrite IH. destruct (lex_go LDefault rest); [| done]. cbn.
    by rewrite <- !app_assoc.
  - intros c s IH Heq acc. rewrite Heq, <- app_assoc, lex_go_str_unit, IH.
    destruct (lex_go LDefault rest); [| done]. cbn.
    by rewrite rev_app_distr, rev_involutive, <- !app_assoc.
Qed.

Lemma lexes_quote s : lexes_closed (quote s) [TStr (quote_body s)].
Proof.
  intros rest. unfold lex, quote. cbn [app lex_go].
  change (is_json_ws 34) with false. change (is_punct 34) with false.
  cbn [N.eqb Pos.eqb flush app]. rewrite <- app_assoc. cbn [app].
  rewrite lex_go_str_body. by destruct (lex_go LDefault rest).
Qed.

Lemma decode_string_plain p r :
  forallb plain_char p = true ->
  decode_string (p ++ r) = s ← decode_string r; Some (p ++ s).
Proof.
  induction p as [| c p IH]; intros Hall.
  - cbn. by destruct (decode_string r).
  - cbn in Hall. apply andb_true_iff in Hall as [Hc Hp].
    apply plain_char_inv in Hc as (H32 & H34 & H92).
    cbn [app decode_string]. rewrite H92, H32, H34, IH by done. cbn.
    by destruct (decode_string r).
Qed.

Lemma decode_string_unit c r :
  decode_string (quote_unit c ++ r) = s ← decode_string r; Some (c :: s).
Proof.
  destruct (quote_unit_cases c) as [(e & -> & He & Hu) | [[-> Hc] | [-> Hp]]].
  - cbn [app decode_string]. change (92 =? 92)%N with true. cbn match.
    rewrite Hu, He. by destruct (decode_string r).
  - destruct (unicode_escape_hex c)
      as (h1 & h2 & h3 & h4 & -> & _ & V1 & V2 & V3 & V4).
    cbn [app decode_string]. change (92 =? 92)%N with true.
    change (117 =? 117)%N with true. cbn match.
    rewrite V1, V2, V3, V4. cbn [mbind option_bind].
    destruct (decode_string r); [| done]. cbn.
    by rewrite hex_digits_sum.
  - by apply (decode_string_plain [c]); cbn; rewrite Hp.
Qed.

Lemma decode_quote_body s : decode_string (quote_body s) = Some s.
Proof.
  pattern s. apply quote_body_cases; clear s.
  - done.
  - intros c d s Hc Hd IH Heq. rewrite Heq.
    change (c :: d :: quote_body s) with ([c; d] ++ quote_body s).
    rewrite (decode_string_plain [c; d]).
    2:{ cbn. by rewrite (lead_plain _ Hc), (trail_plain _ Hd). }
    by rewrite IH.
  - intros c s IH Heq. by rewrite Heq, decode_string_unit, IH.
Qed.

(** ** Number literals *)

Lemma atom_char_intro c :
  c <> 32%N -> c <> 9%N -> c <> 10%N -> c <> 13%N -> c <> 91%N -> c <> 93%N ->
  c <> 123%N -> c <> 125%N -> c <> 44%N -> c <> 58%N -> c <> 34%N ->
  atom_char c = true.
Proof.
  intros. unfold atom_char, is_json_ws, is_punct.
  repeat match goal with
         | |- context [(c =? ?b)%N] =>
             rewrite (proj2 (N.eqb_neq c b)) by done
         end.
  done.
Qed.

Lemma digit_atom_char c : is_digit c = true -> atom_char c = true.
Proof.
  unfold is_digit. intros Hc. apply andb_true_iff in Hc as [Hlo Hhi].
  apply N.leb_le in Hlo, Hhi. apply atom_char_intro; lia.
Qed.

Lemma forallb_cons_true {A} (f : A -> bool) x l :
  f x = true -> forallb f l = true -> forallb f (x :: l) = true.
Proof. intros Hx Hl. cbn. by rewrite Hx, Hl. Qed.

Lemma digits_atom_chars s :
  forallb is_digit s = true -> forallb atom_char s = true.
Proof.
  induction s as [| c s IH]; [done |]. cbn. rewrite !andb_true_iff.
  intros [Hc Hs]. split; [by apply digit_atom_char | by apply IH].
Qed.

Lemma drop_digits_atom_chars s :
  forallb atom_char (drop_digits s) = true -> forallb atom_char s = true.
Proof.
  induction s as [| c s IH]; [done |]. cbn [drop_digits].
  destruct (is_digit c) eqn:Hc; [| done].
  intros Hs. apply forallb_cons_true; [by apply digit_atom_char | by apply IH].
Qed.

Lemma nonempty_digits_atom_chars s :
  nonempty_digits s = true -> forallb atom_char s = true.
Proof. destruct s; [done |]. apply digits_atom_chars. Qed.

Lemma json_exponent_atom_chars s :
  json_exponent s = true -> forallb atom_char s = true.
Proof.
  destruct s as [| e s]; [done |]. cbn [json_exponent].
  rewrite andb_true_iff. intros [He Hs].
  assert (atom_char e = true) as Hae.
  { apply orb_true_iff in He as [He | He]; apply N.eqb_eq in He; by subst. }
  apply forallb_cons_true; [done |].
  destruct s as [| sign s]; [done |].
  destruct ((sign =? 43)%N || (sign =? 45)%N) eqn:Hsign.
  - assert (atom_char sign = true) as Hasign.
    { apply orb_true_iff in Hsign as [Hs' | Hs']; apply N.eqb_eq in Hs';
        by subst. }
    apply forallb_cons_true; [done |]. by apply nonempty_digits_atom_chars.
  - by apply nonempty_digits_atom_chars.
Qed.

Lemma json_fraction_atom_chars s :
  json_fraction s = true -> forallb atom_char s = true.
Proof.
  destruct s as [| c s]; [done |]. cbn [json_fraction].
  destruct (N.eqb_spec c 46) as [-> | Hc].
  - destruct s as [| d s]; [done |]. rewrite andb_true_iff. intros [_ Hs].
    apply json_exponent_atom_chars, drop_digits_atom_chars in Hs.
    by apply forallb_cons_true.
  - apply json_exponent_atom_chars.
Qed.

Lemma json_unsigned_atom_chars s :
  json_unsigned s = true -> forallb atom_char s = true.
Proof.
  destruct s as [| c s]; [done |]. cbn [json_unsigned].
  destruct (N.eqb_spec c 48) as [-> | Hc].
  - intros Hs. apply json_fraction_atom_chars in Hs.
    by apply forallb_cons_true.
  - rewrite andb_true_iff. intros [Hd Hs].
    apply json_fraction_atom_chars, drop_digits_atom_chars in Hs.
    apply forallb_cons_true; [by apply digit_atom_char | done].
Qed.

Lemma json_number_atom_chars s :
  json_number s = true -> s <> [] /\ forallb atom_char s = true.
Proof.
  destruct s as [| c s]; [done |]. cbn [json_number]. intros Hs.
  split; [done |].
  destruct (N.eqb_spec c 45) as [-> | Hc].
  - apply json_unsigned_atom_chars in Hs. by apply forallb_cons_true.
  - by apply json_unsigned_atom_chars.
Qed.

Lemma json_number_parse_atom s :
  json_number s = true -> parse_atom s = Some (PNum s).
Proof.
  intros Hs. unfold parse_atom.
  repeat case_decide; subst; try done. by rewrite Hs.
Qed.

(** ** The tokens of the exported text *)

Section Serializer.
Context {Num : Type} `{JsNumber Num}.
Hypothesis num_json :
  forall n : Num, num_is_finite n = true -> json_number (num_to_string n) = true.

Lemma lexes_cell (c : Cell Num) : lexes_to (cell_text c) [cell_token c].
Proof.
  destruct c as [| | [] | n | s]; try (by apply lexes_atom).
  - unfold cell_token, cell_text. cbn [serialize_cell default].
    destruct (num_is_finite n) eqn:Hn; [| by apply lexes_atom].
    apply num_json, json_number_atom_chars in Hn as [Hne Hall].
    by apply lexes_atom.
  - apply lexes_closed_to, lexes_quote.
Qed.

Lemma lexes_join sep septoks tail tailtoks parts tokss :
  Forall2 lexes_to parts tokss ->
  lexes_closed sep septoks -> delim_head sep ->
  lexes_closed tail tailtoks -> delim_head tail ->
  parts <> [] ->
  lexes_closed (join sep parts ++ tail) (join septoks tokss ++ tailtoks).
Proof.
  intros Hall Hsep Hdsep Htail Hdtail.
  induction Hall as [| p toks parts tokss Hp Hall IH]; [done |]. intros _.
  destruct Hall as [| p' toks' parts' tokss' Hp' Hall'].
  - cbn [join]. by apply lexes_to_closed_app.
  - cbn [join] in *. rewrite <- !app_assoc.
    apply lexes_to_closed_app; [done | by destruct sep |].
    apply lexes_closed_app; [done |]. by apply IH.
Qed.

Lemma lexes_wrap opening closing gap stepback indent parts tokss :
  is_punct opening = true -> is_punct closing = true ->
  forallb is_json_ws indent = true -> forallb is_json_ws stepback = true ->
  Forall2 lexes_to parts tokss ->
  lexes_closed (wrap opening closing gap stepback indent parts)
    (wrap_tokens opening closing gap stepback indent tokss).
Proof.
  intros Ho Hc Hind Hstep Hall.
  pose proof (lexes_punct_char _ Ho) as Hlo.
  pose proof (lexes_punct_char _ Hc) as Hlc.
  assert (lexes_closed [10%N] [TWs 10]) as Hnl by by apply lexes_ws_char.
  assert (lexes_closed [44%N] [TPunct 44]) as Hcomma
    by by apply lexes_punct_char.
  destruct Hall as [| p toks parts tokss Hp Hall].
  - apply (lexes_closed_app [opening] [closing] [TPunct opening]); done.
  - unfold wrap, wrap_tokens. destruct gap as [| g gap].
    + apply (lexes_closed_app [opening] _ [TPunct opening]); [done |].
      apply lexes_join; try done.
      * by constructor.
      * cbn. by rewrite Hc, orb_true_r.
    + apply (lexes_closed_app [opening] _ [TPunct opening]); [done |].
      apply (lexes_closed_app [10%N] _ [TWs 10]); [done |].
      apply lexes_closed_app; [by apply lexes_ws |].
      apply lexes_join; try done.
      * by constructor.
      * apply (lexes_closed_app [44%N] _ [TPunct 44]); [done |].
        apply (lexes_closed_app [10%N] _ [TWs 10]); [done |].
        by apply lexes_ws.
      * apply (lexes_closed_app [10%N] _ [TWs 10]); [done |].
        apply lexes_closed_app; [by apply lexes_ws | done].
Qed.

Lemma lexes_row gap indent (r : list (Cell Num)) :
  forallb is_json_ws gap = true -> forallb is_json_ws indent = true ->
  lexes_closed (serialize_array (fun _ c => serialize_cell c) gap indent r)
    (row_tokens gap indent r).
Proof.
  intros Hgap Hind. unfold serialize_array, row_tokens.
  apply lexes_wrap; try done.
  - by rewrite forallb_app, Hgap, Hind.
  - apply Forall2_fmap, Forall_Forall2_diag, Forall_forall.
    intros c _. apply lexes_cell.
Qed.

Lemma object_partial gap (props : list (jsstring * Cell Num)) :
  omap (fun kv : jsstring * Cell Num =>
          strP ← serialize_cell (snd kv);
          Some (quote (fst kv) ++ 58%N :: match gap with [] => [] | _ => [32%N] end
                  ++ strP)) props
  = map (member_text gap)
      (List.filter
         (fun kv => match serialize_cell (snd kv) with
                    | Some _ => true | None => false end) props).
Proof.
  induction props as [| [k v] props IH]; [done |].
  unfold omap in *. cbn [list_omap List.filter map snd fst]. rewrite IH.
  unfold member_text, cell_text. cbn [fst snd].
  destruct (serialize_cell v) as [t |] eqn:E; cbn [map fst snd mbind option_bind];
    by rewrite ?E.
Qed.

Lemma lexes_member gap (kv : jsstring * Cell Num) :
  lexes_to (member_text gap kv) (member_tokens gap kv).
Proof.
  unfold member_text, member_tokens.
  apply (lexes_closed_to_app _ _ [TStr (quote_body (fst kv))]);
    [apply lexes_quote |].
  apply (lexes_closed_to_app [58%N] _ [TPunct 58]);
    [by apply lexes_punct_char |].
  apply lexes_closed_to_app; [| apply lexes_cell].
  destruct gap; [apply lexes_closed_nil | by apply lexes_ws_char].
Qed.

Lemma lexes_object gap indent (o : list (jsstring * Cell Num)) :
  forallb is_json_ws gap = true -> forallb is_json_ws indent = true ->
  lexes_closed (serialize_object gap indent o) (object_tokens gap indent o).
Proof.
  intros Hgap Hind. unfold serialize_object, object_tokens, printed_props.
  cbv zeta. rewrite object_partial. apply lexes_wrap; try done.
  - by rewrite forallb_app, Hgap, Hind.
  - apply Forall2_fmap, Forall_Forall2_diag, Forall_forall.
    intros kv _. apply lexes_member.
Qed.

Lemma gap_of_space_ws space : forallb is_json_ws (gap_of_space space) = true.
Proof.
  unfold gap_of_space. induction (Z.to_nat (Z.min 10 space)) as [| k IH];
    [done |]. cbn. by rewrite IH.
Qed.

Lemma lex_stringify (d : Data) space :
  lex (JSON_stringify d space) = Some (data_tokens (gap_of_space space) d).
Proof.
  pose proof (gap_of_space_ws space) as Hgap.
  assert (lexes_closed (JSON_stringify d space)
            (data_tokens (gap_of_space space) d)) as Hlex.
  { unfold JSON_stringify, data_tokens, serialize_array at 1 3.
    destruct d as [rows | objs]; (apply lexes_wrap; try done);
      apply Forall2_fmap, Forall_Forall2_diag, Forall_forall; intros x _;
      cbn [default app]; apply lexes_closed_to.
    - by apply lexes_row.
    - by apply lexes_object. }
  specialize (Hlex []). rewrite !app_nil_r in Hlex. rewrite Hlex.
  cbn. by rewrite app_nil_r.
Qed.

End Serializer.

(** ** Whitespace and text of the tokens *)

Lemma significant_app ts1 ts2 :
  significant (ts1 ++ ts2) = significant ts1 ++ significant ts2.
Proof. apply List.filter_app. Qed.

Lemma significant_ws t : significant (map TWs t) = [].
Proof. induction t as [| c t IH]; [done |]. apply IH. Qed.

Lemma significant_join sep parts :
  significant (join sep parts) = join (significant sep) (map significant parts).
Proof.
  induction parts as [| p parts IH]; [done |].
  destruct parts as [| p' parts']; [done |].
  cbn [join map] in *. by rewrite !significant_app, IH.
Qed.

Lemma wrap_tokens_compact opening closing stepback indent stepback' indent' parts :
  wrap_tokens opening closing [] stepback indent parts
  = wrap_tokens opening closing [] stepback' indent' parts.
Proof. by destruct parts. Qed.

Lemma significant_wrap opening closing gap stepback indent parts :
  significant (wrap_tokens opening closing gap stepback indent parts)
  = wrap_tokens opening closing [] [] [] (map significant parts).
Proof.
  destruct parts as [| p parts]; [done |].
  unfold wrap_tokens. cbn [map]. destruct gap as [| g gap].
  - change (TPunct opening :: ?l) with ([TPunct opening] ++ l).
    rewrite !significant_app, (significant_join _ (p :: parts)). done.
  - change (TPunct opening :: TWs 10 :: ?l)
      with ([TPunct opening] ++ [TWs 10] ++ l).
    change (TWs 10 :: map TWs stepback ++ ?l)
      with ([TWs 10] ++ map TWs stepback ++ l).
    rewrite !significant_app, !significant_ws,
      (significant_join _ (p :: parts)).
    change (significant (TPunct 44 :: TWs 10 :: map TWs indent))
      with (TPunct 44 :: significant (map TWs indent)).
    by rewrite significant_ws.
Qed.

Lemma unlex_app ts1 ts2 : unlex (ts1 ++ ts2) = unlex ts1 ++ unlex ts2.
Proof. unfold unlex. by rewrite map_app, concat_app. Qed.

Lemma unlex_ws t : unlex (map TWs t) = t.
Proof. induction t as [| c t IH]; [done |]. cbn. f_equal. apply IH. Qed.

Lemma unlex_join sep parts :
  unlex (join sep parts) = join (unlex sep) (map unlex parts).
Proof.
  induction parts as [| p parts IH]; [done |].
  destruct parts as [| p' parts']; [done |].
  cbn [join map] in *. by rewrite !unlex_app, IH.
Qed.

Lemma unlex_wrap opening closing gap stepback indent parts :
  unlex (wrap_tokens opening closing gap stepback indent parts)
  = wrap opening closing gap stepback indent (map unlex parts).
Proof.
  destruct parts as [| p parts]; [done |].
  unfold wrap_tokens, wrap. cbn [map]. destruct gap as [| g gap].
  - change (TPunct opening :: ?l) with ([TPunct opening] ++ l).
    by rewrite !unlex_app, (unlex_join _ (p :: parts)).
  - change (TPunct opening :: TWs 10 :: ?l)
      with ([TPunct opening] ++ [TWs 10] ++ l).
    change (TWs 10 :: map TWs stepback ++ ?l)
      with ([TWs 10] ++ map TWs stepback ++ l).
    rewrite !unlex_app, !unlex_ws, (unlex_join _ (p :: parts)).
    change (unlex (TPunct 44 :: TWs 10 :: map TWs indent))
      with (44%N :: 10%N :: unlex (map TWs indent)).
    by rewrite unlex_ws.
Qed.

Section Layout_facts.
Context {Num : Type} `{JsNumber Num}.

Lemma unlex_cell (c : Cell Num) : unlex [cell_token c] = cell_text c.
Proof.
  destruct c as [| | [] | n | s]; unfold unlex; cbn; by rewrite ?app_nil_r.
Qed.

Lemma unlex_member gap (kv : jsstring * Cell Num) :
  unlex (member_tokens gap kv) = member_text gap kv.
Proof.
  unfold member_tokens, member_text.
  change (TStr ?raw :: TPunct 58 :: ?l) with ([TStr raw] ++ [TPunct 58] ++ l).
  rewrite !unlex_app, unlex_cell. unfold quote.
  destruct gap; unfold unlex; cbn; by rewrite ?app_nil_r, <- ?app_assoc.
Qed.

Lemma unlex_row gap indent (r : list (Cell Num)) :
  unlex (row_tokens gap indent r)
  = serialize_array (fun _ c => serialize_cell c) gap indent r.
Proof.
  unfold row_tokens, serialize_array. rewrite unlex_wrap, map_map.
  f_equal. apply map_ext. intros c. apply unlex_cell.
Qed.

Lemma unlex_object gap indent (o : list (jsstring * Cell Num)) :
  unlex (object_tokens gap indent o) = serialize_object gap indent o.
Proof.
  unfold object_tokens, serialize_object, printed_props. cbv zeta.
  rewrite unlex_wrap, map_map, object_partial.
  f_equal. apply map_ext. intros kv. apply unlex_member.
Qed.

Lemma unlex_data (d : Data) space :
  unlex (data_tokens (gap_of_space space) d) = JSON_stringify d space.
Proof.
  unfold data_tokens, JSON_stringify, serialize_array at 1 3.
  destruct d as [rows | objs]; rewrite unlex_wrap, !map_map; f_equal;
    apply map_ext; intros x; cbn [default app].
  - apply unlex_row.
  - apply unlex_object.
Qed.

Lemma significant_cell (c : Cell Num) :
  significant [cell_token c] = [cell_token c].
Proof. by destruct c. Qed.

Lemma significant_member gap (kv : jsstring * Cell Num) :
  significant (member_tokens gap kv) = member_tokens [] kv.
Proof.
  unfold member_tokens. destruct gap; cbn; by destruct (snd kv).
Qed.

Lemma significant_row gap indent (r : list (Cell Num)) :
  significant (row_tokens gap indent r) = row_tokens [] [] r.
Proof.
  unfold row_tokens. rewrite significant_wrap, map_map. f_equal.
  apply map_ext. intros c. apply significant_cell.
Qed.

Lemma significant_object gap indent (o : list (jsstring * Cell Num)) :
  significant (object_tokens gap indent o) = object_tokens [] [] o.
Proof.
  unfold object_tokens. rewrite significant_wrap, map_map. f_equal.
  apply map_ext. intros c. apply significant_member.
Qed.

Lemma significant_data gap (d : Data) :
  significant (data_tokens gap d) = data_tokens [] d.
Proof.
  unfold data_tokens.
  destruct d as [rows | objs]; rewrite significant_wrap, map_map; f_equal;
    apply map_ext; intros x.
  - apply significant_row.
  - apply significant_object.
Qed.

End Layout_facts.

(** ** Parsing the tokens *)

Lemma parse_elements_join tokss pvs :
  Forall2 parses_as tokss pvs -> tokss <> [] ->
  forall fuel rest, (length (join [TPunct 44] tokss) + 1 < fuel)%nat ->
    parse_elements fuel (join [TPunct 44] tokss ++ TPunct 93 :: rest)
    = Some (pvs, rest).
Proof.
  intros Hall. induction Hall as [| toks pv tokss pvs Hp Hall IH]; [done |].
  intros _ fuel rest Hfuel. destruct Hp as (_ & Hne & Hp).
  destruct fuel as [| fuel]; [lia |]. cbn [parse_elements].
  destruct Hall as [| toks' pv' tokss' pvs' Hp' Hall'].
  - cbn [join] in *. rewrite Hp by lia. by cbn.
  - cbn [join] in *. rewrite <- !app_assoc.
    rewrite !length_app in Hfuel. cbn [length] in Hfuel.
    rewrite Hp by lia. cbn.
    rewrite IH; [done | done |]. lia.
Qed.

Lemma wrap_tokens_nonempty opening closing stepback indent parts :
  parts <> [] ->
  wrap_tokens opening closing [] stepback indent parts
  = TPunct opening :: join [TPunct 44] parts ++ [TPunct closing].
Proof. by destruct parts. Qed.

Lemma parses_array stepback indent tokss pvs :
  Forall2 parses_as tokss pvs ->
  parses_as (wrap_tokens 91 93 [] stepback indent tokss) (PArr pvs).
Proof.
  intros Hall. split; [by destruct tokss |]. split; [by destruct tokss |].
  intros fuel rest Hfuel. destruct fuel as [| fuel]; [lia |].
  destruct Hall as [| toks pv tokss pvs Hp Hall]; [done |].
  unfold wrap_tokens in *. cbn [app parse_value].
  change (91 =? 91)%N with true. cbn match.
  rewrite <- app_assoc. cbn [app].
  assert (head (join [TPunct 44] (toks :: tokss) ++ TPunct 93 :: rest)
          = head toks) as ->.
  { destruct Hp as (_ & Hne & _). destruct toks; [done |].
    by destruct tokss. }
  rewrite (proj1 Hp).
  cbn [length] in Hfuel. rewrite length_app in Hfuel. cbn [length] in Hfuel.
  rewrite (parse_elements_join (toks :: tokss) (pv :: pvs)); try done.
  - by constructor.
  - lia.
Qed.

Section Parsing.
Context {Num : Type} `{JsNumber Num}.
Hypothesis num_json :
  forall n : Num, num_is_finite n = true -> json_number (num_to_string n) = true.

Lemma parse_cell_token (c : Cell Num) fuel rest :
  parse_value (S fuel) (cell_token c :: rest) = Some (cell_tree c, rest).
Proof.
  destruct c as [| | [] | n | s]; try done.
  - unfold cell_token, cell_text, cell_tree. cbn [serialize_cell default].
    destruct (num_is_finite n) eqn:Hn; [| done].
    cbn [parse_value]. unfold id.
    by rewrite (json_number_parse_atom _ (num_json _ Hn)).
  - cbn [cell_token parse_value cell_tree]. by rewrite decode_quote_body.
Qed.

Lemma parses_cell (c : Cell Num) : parses_as [cell_token c] (cell_tree c).
Proof.
  split; [by destruct c |]. split; [done |].
  intros fuel rest Hfuel. destruct fuel as [| fuel]; [cbn in Hfuel; lia |].
  apply parse_cell_token.
Qed.

Lemma parses_row (r : list (Cell Num)) :
  parses_as (row_tokens [] [] r) (PArr (map cell_tree r)).
Proof.
  apply parses_array, Forall2_fmap, Forall_Forall2_diag, Forall_forall.
  intros c _. apply parses_cell.
Qed.

Lemma parse_members_join (props : list (jsstring * Cell Num)) :
  props <> [] ->
  forall fuel rest,
    (length (join [TPunct 44] (map (member_tokens []) props)) < fuel)%nat ->
    parse_members fuel
      (join [TPunct 44] (map (member_tokens []) props) ++ TPunct 125 :: rest)
    = Some (map (fun kv => (fst kv, cell_tree (snd kv))) props, rest).
Proof.
  induction props as [| [k v] props IH]; [done |].
  intros _ fuel rest Hfuel. destruct fuel as [| fuel]; [lia |].
  destruct props as [| kv' props'].
  - cbn [map join member_tokens fst snd app length] in *.
    cbn [parse_members]. rewrite decode_quote_body.
    cbn [mbind option_bind head tail is_punct_token].
    change (58 =? 58)%N with true. cbn match.
    destruct fuel as [| fuel]; [lia |]. rewrite parse_cell_token.
    by cbn.
  - cbn [map join] in *. unfold member_tokens at 1 in Hfuel.
    unfold member_tokens at 1.
    cbn [fst snd app length] in *. rewrite ?length_app in Hfuel.
    cbn [parse_members]. rewrite decode_quote_body.
    cbn [mbind option_bind head tail is_punct_token].
    change (58 =? 58)%N with true. cbn match.
    destruct fuel as [| fuel]; [lia |]. rewrite parse_cell_token.
    cbn [mbind option_bind head tail is_punct_token].
    change (44 =? 44)%N with true. cbn match.
    rewrite IH; [done | done |]. cbn [length] in Hfuel. lia.
Qed.

Lemma parses_object (o : list (jsstring * Cell Num)) :
  parses_as (object_tokens [] [] o)
    (PObj (map (fun kv => (fst kv, cell_tree (snd kv))) (printed_props o))).
Proof.
  unfold object_tokens. set (props := printed_props o). clearbody props.
  split; [by destruct props |]. split; [by destruct props |].
  intros fuel rest Hfuel. destruct fuel as [| fuel]; [lia |].
  destruct props as [| kv props]; [done |].
  rewrite wrap_tokens_nonempty in * by done. cbn [app parse_value].
  change (123 =? 91)%N with false. change (123 =? 123)%N with true.
  cbn match. rewrite <- app_assoc. cbn [app].
  assert (head (join [TPunct 44] (map (member_tokens []) (kv :: props))
                  ++ TPunct 125 :: rest)
          = Some (TStr (quote_body (fst kv)))) as ->
    by by destruct props.
  cbn [is_punct_token].
  cbn [length] in Hfuel. rewrite length_app in Hfuel.
  rewrite (parse_members_join (kv :: props)); [done | done | lia].
Qed.

Lemma parses_data (d : Data) : parses_as (data_tokens [] d) (data_tree d).
Proof.
  destruct d as [rows | objs]; unfold data_tokens, data_tree;
    apply parses_array, Forall2_fmap, Forall_Forall2_diag, Forall_forall.
  - intros r _. apply parses_row.
  - intros o _. apply parses_object.
Qed.

Lemma parse_stringify (d : Data) space :
  JSON_parse (JSON_stringify d space) = Some (data_tree d).
Proof.
  unfold JSON_parse. rewrite (lex_stringify num_json). cbn [mbind option_bind].
  rewrite significant_data.
  destruct (parses_data d) as (_ & _ & Hp).
  specialize (Hp (S (length (data_tokens (gap_of_space space) d))) []).
  rewrite app_nil_r in Hp. rewrite Hp; [done |].
  rewrite <- (significant_data (gap_of_space space)).
  unfold significant. pose proof (List.filter_length_le
    (fun t => negb (is_ws_token t)) (data_tokens (gap_of_space space) d)).
  lia.
Qed.

End Parsing.

(** ** Indentation *)

Lemma indent_spaces width depth k j rest :
  indent_ok width depth (AfterBreak k) (map TWs (replicate j 32%N) ++ rest)
  = indent_ok width depth (AfterBreak (k + j)) rest.
Proof.
  revert k. induction j as [| j IH]; intros k.
  - by rewrite Nat.add_0_r.
  - cbn [replicate map app indent_ok]. change (32 =? 10)%N with false.
    change (32 =? 32)%N with true. cbn match. rewrite IH.
    by replace (S k + j)%nat with (k + S j)%nat by lia.
Qed.

Lemma indent_line width depth st j rest :
  match st with AfterBreak _ => False | _ => True end ->
  indent_ok width depth st (TWs 10 :: map TWs (replicate j 32%N) ++ rest)
  = indent_ok width depth (AfterBreak j) rest.
Proof.
  intros Hst. cbn [indent_ok]. change (10 =? 10)%N with true. cbn match.
  destruct st; [done | | ]; apply indent_spaces.
Qed.

Lemma join_cons {A} (sep p p' : list A) ps :
  join sep (p :: p' :: ps) = p ++ sep ++ join sep (p' :: ps).
Proof. reflexivity. Qed.

Lemma indent_comma width depth ts :
  indent_ok width depth InLine (TPunct 44 :: ts)
  = indent_ok width depth MustBreak ts.
Proof. reflexivity. Qed.

Lemma indent_join width depth parts tail :
  Forall (flat width depth) parts -> parts <> [] ->
  indent_ok width depth (AfterBreak (width * depth))
    (join (TPunct 44 :: TWs 10 :: map TWs (replicate (width * depth) 32%N))
       parts ++ tail)
  = indent_ok width depth InLine tail.
Proof.
  intros Hall. induction Hall as [| toks parts Hflat Hall IH]; [done |].
  intros _. destruct Hall as [| toks' parts' Hflat' Hall'].
  - cbn [join]. rewrite Hflat. cbn [start_ok]. by rewrite Nat.eqb_refl.
  - rewrite join_cons, <- !app_assoc, Hflat. cbn [start_ok].
    rewrite Nat.eqb_refl. cbn [andb].
    change ((TPunct 44 :: TWs 10 :: ?sp) ++ ?ts)
      with (TPunct 44 :: TWs 10 :: sp ++ ts).
    rewrite indent_comma, indent_line by done. by apply IH.
Qed.

Lemma flat_wrap width depth opening closing g gap parts :
  (opening = 91%N /\ closing = 93%N) \/ (opening = 123%N /\ closing = 125%N) ->
  Forall (flat width (S depth)) parts ->
  flat width depth
    (wrap_tokens opening closing (g :: gap)
       (replicate (width * depth) 32%N) (replicate (width * S depth) 32%N)
       parts).
Proof.
  intros Hbr Hall st rest.
  assert (forall st' ts,
            indent_ok width depth st' (TPunct opening :: ts)
            = start_ok st' (width * depth)
              && indent_ok width (S depth) MustBreak ts) as Hopen
    by (intros st' ts; by destruct Hbr as [[-> _] | [-> _]]).
  assert (forall ts,
            indent_ok width (S depth) MustBreak (TPunct closing :: ts)
            = indent_ok width depth InLine ts) as Hempty.
  { intros ts. destruct Hbr as [[_ ->] | [_ ->]]; cbn [indent_ok];
      cbn; by rewrite Nat.sub_0_r. }
  assert (forall ts,
            indent_ok width (S depth) (AfterBreak (width * depth))
              (TPunct closing :: ts)
            = indent_ok width depth InLine ts) as Hclose.
  { intros ts. destruct Hbr as [[_ ->] | [_ ->]]; cbn [indent_ok];
      cbn [N.eqb Pos.eqb orb Nat.sub]; by rewrite Nat.sub_0_r, Nat.eqb_refl. }
  destruct parts as [| toks parts].
  - cbn [wrap_tokens app]. by rewrite Hopen, Hempty.
  - unfold wrap_tokens. cbn [app].
    rewrite Hopen, <- !app_assoc, indent_line by done.
    rewrite indent_join by done.
    cbn [app]. rewrite <- app_assoc, indent_line by done. cbn [app].
    by rewrite Hclose.
Qed.

Section Indentation.
Context {Num : Type} `{JsNumber Num}.

Lemma flat_cell width depth (c : Cell Num) : flat width depth [cell_token c].
Proof. intros st rest. by destruct c. Qed.

Lemma flat_member width depth gap (kv : jsstring * Cell Num) :
  flat width depth (member_tokens gap kv).
Proof.
  intros st rest. unfold member_tokens.
  destruct gap as [| g gap]; cbn [app indent_ok].
  - change ((58 =? 93) || (58 =? 125))%N with false.
    change ((58 =? 91) || (58 =? 123))%N with false.
    change (58 =? 44)%N with false. cbn match.
    by destruct (snd kv).
  - change ((58 =? 93) || (58 =? 125))%N with false.
    change ((58 =? 91) || (58 =? 123))%N with false.
    change (58 =? 44)%N with false.
    change (32 =? 10)%N with false. change (32 =? 32)%N with true.
    cbn match. by destruct (snd kv).
Qed.

Lemma indent_ok_data (d : Data) :
  indent_ok 2 0 InLine (data_tokens (gap_of_space 2) d) = true.
Proof.
  assert (flat 2 0 (data_tokens (gap_of_space 2) d)) as Hflat.
  { unfold data_tokens. destruct d as [rows | objs];
      (apply (flat_wrap 2 0); [by left |]);
      apply Forall_fmap, Forall_forall; intros x _.
    - apply (flat_wrap 2 1); [by left |].
      apply Forall_fmap, Forall_forall. intros c _. apply flat_cell.
    - apply (flat_wrap 2 1); [by right |].
      apply Forall_fmap, Forall_forall. intros kv _. apply flat_member. }
  specialize (Hflat InLine []). by rewrite app_nil_r in Hflat.
Qed.

End Indentation.

(** ** The lexer loses no character *)

Lemma unlex_cons t ts : unlex (t :: ts) = unlex_token t ++ unlex ts.
Proof. reflexivity. Qed.

Lemma lex_go_unlex s st ts :
  lex_go st s = Some ts -> unlex ts = state_text st ++ s.
Proof.
  revert st ts. induction s as [| c s IH]; intros st ts.
  - destruct st; cbn [lex_go]; try done; intros [= <-];
      unfold unlex; cbn; by rewrite ?app_nil_r.
  - destruct st as [| acc | acc esc].
    + cbn [lex_go atom_acc state_text].
      destruct (is_json_ws c); [| destruct (is_punct c);
        [| destruct (c =? 34)%N eqn:E]].
      * destruct (lex_go LDefault s) as [ts' |] eqn:E'; [| done].
        intros [= <-]. apply IH in E'. by rewrite unlex_cons, E'.
      * destruct (lex_go LDefault s) as [ts' |] eqn:E'; [| done].
        intros [= <-]. apply IH in E'. by rewrite unlex_cons, E'.
      * destruct (lex_go (LStr [] false) s) as [ts' |] eqn:E'; [| done].
        intros [= <-]. apply IH in E'. apply N.eqb_eq in E. by subst.
      * intros Hts. by apply IH in Hts.
    + cbn [lex_go atom_acc state_text].
      destruct (is_json_ws c); [| destruct (is_punct c);
        [| destruct (c =? 34)%N eqn:E]].
      * destruct (lex_go LDefault s) as [ts' |] eqn:E'; [| done].
        intros [= <-]. apply IH in E'. by rewrite !unlex_cons, E'.
      * destruct (lex_go LDefault s) as [ts' |] eqn:E'; [| done].
        intros [= <-]. apply IH in E'. by rewrite !unlex_cons, E'.
      * destruct (lex_go (LStr [] false) s) as [ts' |] eqn:E'; [| done].
        intros [= <-]. apply IH in E'. apply N.eqb_eq in E. subst.
        by rewrite unlex_cons, E'.
      * intros Hts. apply IH in Hts. rewrite Hts. cbn [state_text rev].
        by rewrite <- app_assoc.
    + cbn [lex_go state_text].
      destruct esc; [| destruct (c =? 92)%N; [| destruct (c =? 34)%N eqn:E]].
      * intros Hts. apply IH in Hts. rewrite Hts. cbn [state_text rev app].
        by rewrite <- app_assoc.
      * intros Hts. apply IH in Hts. rewrite Hts. cbn [state_text rev app].
        by rewrite <- app_assoc.
      * destruct (lex_go LDefault s) as [ts' |] eqn:E'; [| done].
        intros [= <-]. apply IH in E'. apply N.eqb_eq in E. subst.
        rewrite unlex_cons, E'. cbn [unlex_token state_text app].
        by rewrite <- app_assoc.
      * intros Hts. apply IH in Hts. rewrite Hts. cbn [state_text rev app].
        by rewrite <- app_assoc.
Qed.

Lemma significant_shorter ts :
  (length (unlex (significant ts)) <= length (unlex ts))%nat.
Proof.
  induction ts as [| t ts IH]; [done |].
  change (t :: ts) with ([t] ++ ts).
  rewrite significant_app, !unlex_app, !length_app.
  assert (length (unlex (significant [t])) <= length (unlex [t]))%nat
    by (destruct t; cbn; lia).
  lia.
Qed.

(** A text is at least as long as the text without its whitespace. *)
Lemma strip_ws_shorter t t' :
  strip_ws t = Some t' -> (length t' <= length t)%nat.
Proof.
  unfold strip_ws. destruct (lex t) as [ts |] eqn:E; [| done].
  intros [= <-]. apply lex_go_unlex in E. cbn [state_text app] in E.
  rewrite <- E. apply significant_shorter.
Qed.

(** ** The serializer *)

Section PrettyToggle.
Context {Num : Type} `{JsNumber Num}.

Lemma convertResult_pretty (rows : list (list (Cell Num))) options :
  exists d preview count idx,
    forall b,
      convertResult rows (with_pretty b options)
      = Ok {| data := d;
              json := JSON_stringify d (if b then 2 else 0);
              previewRows := preview; rowCount := count;
              headerRowIndex := idx |}.
Proof.
  destruct (outputMode options) eqn:Hmode.
  - do 4 eexists. intros b.
    rewrite (convertResult_objects rows (with_pretty b options) Hmode).
    cbn [with_pretty outputMode headerRowNumber skipEmptyRows pretty].
    reflexivity.
  - do 4 eexists. intros b.
    rewrite (convertResult_arrays rows (with_pretty b options) Hmode).
    cbn [with_pretty outputMode headerRowNumber skipEmptyRows pretty].
    reflexivity.
Qed.

Lemma strip_ws_stringify (d : Data) space :
  (forall n : Num, num_is_finite n = true ->
     json_number (num_to_string n) = true) ->
  strip_ws (JSON_stringify d space) = Some (JSON_stringify d 0).
Proof.
  intros num_json. unfold strip_ws. rewrite (lex_stringify num_json).
  cbn [mbind option_bind]. rewrite significant_data.
  by rewrite <- (unlex_data d 0).
Qed.

(** C9, as amended: for every grid and configuration, the pretty and the
    compact text both parse to the tree of the exported value, which is the
    retained rows in arrays mode and the objects of the data rows in objects
    mode; the compact text is the pretty one without its whitespace outside
    of string literals, has no such whitespace itself and is no longer than
    any text that differs from it in such whitespace only; in the pretty
    text every element and member starts a line of its own, indented by two
    spaces per level of nesting. Finite numbers are assumed to be printed
    as JSON number literals. *)
Theorem pretty_toggle (rows : list (list (Cell Num)))
    (options : ConvertOptions) :
  (forall n : Num, num_is_finite n = true ->
     json_number (num_to_string n) = true) ->
  let value :=
    match outputMode options with
    | objects =>
        DObjects
          (map (row_to_object
                  (normalizeHeaders
                     (spec_header_row rows (headerRowNumber options))))
             (spec_data_rows (skipEmptyRows options) rows
                (headerRowNumber options)))
    | arrays => DArrays (spec_retained (skipEmptyRows options) rows)
    end in
  exists rp rc,
    convertResult rows (with_pretty true options) = Ok rp /\
    convertResult rows (with_pretty false options) = Ok rc /\
    data rp = value /\ data rc = value /\
    json rp = JSON_stringify value 2 /\
    json rc = JSON_stringify value 0 /\
    JSON_parse (json rp) = Some (data_tree value) /\
    JSON_parse (json rc) = Some (data_tree value) /\
    strip_ws (json rp) = Some (json rc) /\
    strip_ws (json rc) = Some (json rc) /\
    (forall t, strip_ws t = Some (json rc) ->
       (length (json rc) <= length t)%nat) /\
    indented_by 2 (json rp).
Proof.
  intros num_json value.
  destruct (convertResult_pretty rows options)
    as (d & preview & count & idx & Hres).
  assert (d = value) as ->.
  { pose proof (Hres true) as Ht. subst value.
    destruct (outputMode options) eqn:Hmode.
    - rewrite (convertResult_objects rows (with_pretty true options) Hmode)
        in Ht.
      cbn [with_pretty headerRowNumber skipEmptyRows pretty] in Ht.
      by injection Ht as <- _ _ _ _.
    - rewrite (convertResult_arrays rows (with_pretty true options) Hmode)
        in Ht.
      cbn [with_pretty headerRowNumber skipEmptyRows pretty] in Ht.
      by injection Ht as <- _ _ _ _. }
  eexists. eexists.
  split; [apply (Hres true) |]. split; [apply (Hres false) |].
  cbn [data json].
  split; [done |]. split; [done |]. split; [done |]. split; [done |].
  split; [by apply parse_stringify |]. split; [by apply parse_stringify |].
  split; [by apply strip_ws_stringify |].
  split; [by apply strip_ws_stringify |].
  split; [intros t; apply strip_ws_shorter |].
  exists (data_tokens (gap_of_space 2) value).
  split; [by apply lex_stringify | apply indent_ok_data].
Qed.

End PrettyToggle.

(** ** Integers are printed as JSON numbers *)

Lemma digit_is_digit n : is_digit (digit (n mod 10)) = true.
Proof.
  pose proof (Nat.mod_upper_bound n 10 ltac:(lia)).
  unfold is_digit, digit. apply andb_true_iff. split; apply N.leb_le; lia.
Qed.

Lemma dec_go_head fuel n acc :
  (0 < n <= fuel)%nat -> forallb is_digit acc = true ->
  exists d ds, dec_go fuel n acc = d :: ds /\ is_digit d = true /\
               d <> 48%N /\ forallb is_digit ds = true.
Proof.
  revert n acc. induction fuel as [| fuel IH]; intros n acc Hn Hacc; [lia |].
  cbn [dec_go].
  assert (forallb is_digit (digit (n mod 10) :: acc) = true) as Hacc'
    by (apply forallb_cons_true; [apply digit_is_digit | done]).
  destruct (Nat.eqb_spec (n / 10) 0) as [E | E].
  - exists (digit (n mod 10)), acc.
    repeat split; try done; [apply digit_is_digit |].
    apply Nat.div_small_iff in E; [| lia]. rewrite Nat.mod_small by done.
    unfold digit. lia.
  - apply IH; [| done]. split; [lia |].
    pose proof (Nat.div_lt n 10 ltac:(lia) ltac:(lia)). lia.
Qed.

Lemma drop_digits_all s : forallb is_digit s = true -> drop_digits s = [].
Proof.
  induction s as [| c s IH]; [done |]. cbn. rewrite andb_true_iff.
  intros [-> Hs]. by apply IH.
Qed.

Lemma dec_json_number n : json_number (dec n) = true.
Proof.
  destruct n as [| n]; [done |].
  destruct (dec_go_head (S (S n)) (S n) []) as (d & ds & E & Hd & Hne & Hds);
    [lia | done |].
  unfold dec. rewrite E. cbn [json_number json_unsigned].
  assert ((d =? 45)%N = false) as ->.
  { unfold is_digit in Hd. apply andb_true_iff in Hd as [Hlo _].
    apply N.leb_le in Hlo. apply N.eqb_neq. lia. }
  rewrite (proj2 (N.eqb_neq d 48) Hne), Hd, (drop_digits_all _ Hds). done.
Qed.

Lemma dec_unsigned n : json_unsigned (dec n) = true.
Proof.
  pose proof (dec_json_number n) as Hn. unfold json_number in Hn.
  destruct (dec n) as [| c s] eqn:E; [done |].
  destruct (N.eqb_spec c 45) as [-> | _]; [| done].
  destruct (dec_last n) as (d & Hd & Hdig). rewrite E in Hd.
  destruct n as [| n]; [done |].
  destruct (dec_go_head (S (S n)) (S n) []) as (d' & ds & E' & Hd' & _);
    [lia | done |].
  unfold dec in E. rewrite E in E'. by injection E' as <- <-.
Qed.

Lemma Z_number_json (z : Z) :
  num_is_finite z = true -> json_number (num_to_string z) = true.
Proof.
  intros _. cbn [num_to_string Z_number]. destruct (z <? 0).
  - apply dec_unsigned.
  - apply dec_json_number.
Qed.

Lemma pretty_toggle_witness :
  (forall z : Z, num_is_finite z = true ->
     json_number (num_to_string z) = true) /\
  exists rp rc,
    convertResult three_rows (with_pretty true (sample_options objects 1))
    = Ok rp /\
    convertResult three_rows (with_pretty false (sample_options objects 1))
    = Ok rc /\
    data rp
    = DObjects [[(lit "Name", str "Ana"); (lit "Age", CNum 30)];
                [(lit "Name", str "Bo"); (lit "Age", CNum 41)]] /\
    JSON_parse (json rp) = Some (data_tree (data rp)) /\
    JSON_parse (json rc) = Some (data_tree (data rp)) /\
    strip_ws (json rp) = Some (json rc) /\
    indented_by 2 (json rp).
Proof.
  split; [exact Z_number_json |].
  destruct (pretty_toggle three_rows (sample_options objects 1) Z_number_json)
    as (rp & rc & Hp & Hc & Hdp & _ & _ & _ & Hpp & Hpc & Hs & _ & _ & Hi).
  exists rp, rc. rewrite Hdp.
  split; [exact Hp |]. split; [exact Hc |]. split; [reflexivity |].
  split; [exact Hpp |]. split; [exact Hpc |]. split; [exact Hs | exact Hi].
Defined.

(** The compact text is not the shortest text of its value: the number
    1000 is printed [1000], and [1e3] is a shorter literal of the same
    number. *)
Lemma compact_text_not_shortest :
  exists rc,
    convertResult thousand_sheet (with_pretty false (sample_options arrays 1))
    = Ok rc /\
    json rc = lit "[[1000]]" /\
    JSON_parse (json rc) = Some (PArr [PArr [PNum (lit "1000")]]) /\
    JSON_parse (lit "[[1e3]]") = Some (PArr [PArr [PNum (lit "1e3")]]) /\
    number_value (lit "1000") = Some (1, 3) /\
    number_value (lit "1e3") = Some (1, 3) /\
    (length (lit "[[1e3]]") < length (json rc))%nat.
Proof.
  eexists. split; [reflexivity |]. cbn [json].
  split; [reflexivity |]. split; [reflexivity |]. split; [reflexivity |].
  split; [reflexivity |]. split; [reflexivity |]. vm_compute. lia.
Qed.

(** * Further properties of the code *)

(** ** The exported text is an array *)

Lemma wrap_brackets opening closing gap stepback indent parts :
  exists body,
    wrap opening closing gap stepback indent parts = opening :: body ++ [closing].
Proof.
  unfold wrap. destruct parts as [| p parts]; [by exists [] |].
  destruct gap as [| g gap].
  - by eexists.
  - eexists (10%N :: indent ++ join _ (p :: parts) ++ 10%N :: stepback).
    cbn [app]. by rewrite <- !app_assoc.
Qed.

Section Exported_text.
Context {Num : Type} `{JsNumber Num}.

Lemma stringify_brackets (d : Data) space :
  exists body, JSON_stringify d space = 91%N :: body ++ [93%N].
Proof. destruct d; apply wrap_brackets. Qed.

End Exported_text.

(** ** The download name *)

Lemma ci_char_lower p c :
  (97 <= p <= 122)%N -> App.ci_char p c = (to_lower c =? p)%N.
Proof.
  intros Hp. unfold App.ci_char, to_lower.
  destruct (N.leb_spec 97 p); [| lia]. destruct (N.leb_spec p 122); [| lia].
  cbn [andb].
  destruct (N.leb_spec 65 c); destruct (N.leb_spec c 90); cbn [andb];
    destruct (N.eqb_spec c p); destruct (N.eqb_spec (c + 32) p);
    cbn [orb]; try done; try lia.
Qed.

Lemma ci_literal_lower pat e :
  Forall (fun p => (97 <= p <= 122)%N) pat ->
  App.ends_here (App.ci_literal pat e) = bool_decide (map to_lower e = pat).
Proof.
  intros Hpat. revert e. induction Hpat as [| p pat Hp Hpat IH]; intros e.
  - by destruct e.
  - destruct e as [| c e]; [done |]. cbn [App.ci_literal map].
    rewrite ci_char_lower by done.
    destruct (N.eqb_spec (to_lower c) p) as [-> | Hne].
    + rewrite IH. apply bool_decide_ext. split; [by intros -> | by intros [= ->]].
    + symmetry. apply bool_decide_eq_false_2. by intros [= ? _].
Qed.

Lemma ext_match_spec s :
  App.ext_match s
  = match s with
    | c :: e => (c =? 46)%N && is_spreadsheet_ext e
    | [] => false
    end.
Proof.
  destruct s as [| c e]; [done |]. unfold App.ext_match.
  change (App.ci_literal (lit ".") (c :: e))
    with (if App.ci_char 46 c then Some e else None).
  change (App.ci_char 46 c) with ((c =? 46)%N || false).
  rewrite orb_false_r. destruct (c =? 46)%N; [| done]. cbn [andb].
  rewrite !ci_literal_lower
    by (apply (bool_decide_unpack _); vm_compute; exact I).
  unfold is_spreadsheet_ext.
  destruct (decide (map to_lower e = lit "xlsx")) as [E | E1].
  { rewrite !(bool_decide_eq_true_2 _ E). symmetry.
    apply bool_decide_eq_true_2. rewrite E. repeat constructor. }
  rewrite (bool_decide_eq_false_2 _ E1).
  destruct (decide (map to_lower e = lit "xls")) as [E | E2].
  { rewrite !(bool_decide_eq_true_2 _ E). symmetry.
    apply bool_decide_eq_true_2. rewrite E. repeat constructor. }
  rewrite (bool_decide_eq_false_2 _ E2).
  destruct (decide (map to_lower e = lit "csv")) as [E | E3].
  { rewrite !(bool_decide_eq_true_2 _ E). symmetry.
    apply bool_decide_eq_true_2. rewrite E. repeat constructor. }
  rewrite (bool_decide_eq_false_2 _ E3). symmetry.
  apply bool_decide_eq_false_2. intros Hin.
  repeat (apply elem_of_cons in Hin as [Hin | Hin]; [done |]).
  by apply elem_of_nil in Hin.
Qed.

Lemma spreadsheet_ext_no_point e : is_spreadsheet_ext e = true -> 46%N ∉ e.
Proof.
  unfold is_spreadsheet_ext. intros He Hin. apply bool_decide_eq_true in He.
  assert (46%N ∈ map to_lower e) as Hin'.
  { apply list_elem_of_fmap. by exists 46%N. }
  assert (Forall (fun ext => 46%N ∉ ext) [lit "xlsx"; lit "xls"; lit "csv"])
    as Hext by (apply (bool_decide_unpack _); vm_compute; exact I).
  rewrite Forall_forall in Hext. by apply (Hext _ He).
Qed.

Lemma replace_ext_strips base e :
  is_spreadsheet_ext e = true -> App.replace_ext (base ++ 46%N :: e) = base.
Proof.
  intros He. induction base as [| c base IH].
  - cbn [app App.replace_ext]. by rewrite ext_match_spec, He.
  - cbn [app App.replace_ext]. rewrite ext_match_spec, IH.
    destruct (c =? 46)%N; [| done]. cbn [andb].
    destruct (is_spreadsheet_ext (base ++ 46%N :: e)) eqn:E; [| done].
    apply spreadsheet_ext_no_point in E. exfalso. apply E.
    apply elem_of_app. right. left.
Qed.

Lemma replace_ext_keeps s :
  (forall base e, s = base ++ 46%N :: e -> is_spreadsheet_ext e = false) ->
  App.replace_ext s = s.
Proof.
  induction s as [| c s IH]; intros Hno; [done |].
  cbn [App.replace_ext]. rewrite ext_match_spec.
  destruct (N.eqb_spec c 46) as [-> | Hc].
  - rewrite (Hno [] s eq_refl). cbn [andb]. f_equal. apply IH.
    intros base e ->. by apply (Hno (46%N :: base) e).
  - cbn [andb]. f_equal. apply IH.
    intros base e ->. by apply (Hno (c :: base) e).
Qed.

(** The name of the downloaded file: one spreadsheet extension at the end
    of the file name, in any mix of cases, is replaced by [.json], and only
    that one. *)
Theorem outName_replaces_extension (base e : jsstring) :
  is_spreadsheet_ext e = true ->
  App.outName (Some {| App.name := base ++ lit "." ++ e |})
  = base ++ lit ".json".
Proof.
  intros He. unfold App.outName, App.baseName. cbn [App.name].
  assert (App.is_empty_string (base ++ lit "." ++ e) = false) as ->
    by by destruct base.
  change (lit "." ++ e) with (46%N :: e). by rewrite replace_ext_strips.
Qed.

(** A name that does not end in a spreadsheet extension is kept whole
    before [.json]; without a file, or with a file without a name, the
    download is called [data.json]. *)
Theorem outName_without_extension (f : option App.File) :
  match f with
  | Some f' =>
      (App.name f' = [] -> App.outName f = lit "data.json") /\
      (App.name f' <> [] ->
       (forall base e, App.name f' = base ++ lit "." ++ e ->
                       is_spreadsheet_ext e = false) ->
       App.outName f = App.name f' ++ lit ".json")
  | None => App.outName f = lit "data.json"
  end.
Proof.
  destruct f as [[name] |]; [| done]. cbn [App.name]. split.
  - by intros ->.
  - intros Hne Hno. unfold App.outName, App.baseName. cbn [App.name].
    destruct name as [| c name]; [done |]. cbn [App.is_empty_string].
    by rewrite replace_ext_keeps.
Qed.

(** ** Sheet choice and file loading *)

(** The sheet the effect selects is a sheet of the workbook whenever the
    workbook has one; a previous choice that is not empty and still a
    sheet is kept; an empty one, even when a sheet has the empty name, and
    one that is no sheet are replaced by the first sheet; running the
    effect again changes nothing. *)
Theorem select_sheet_choice (prev : jsstring) (names : list jsstring) :
  (names = [] -> App.select_sheet prev names = []) /\
  (names <> [] -> App.select_sheet prev names ∈ names) /\
  (prev <> [] -> prev ∈ names -> App.select_sheet prev names = prev) /\
  (prev ∉ names -> App.select_sheet prev names = default [] (head names)) /\
  (prev = [] -> App.select_sheet prev names = default [] (head names)) /\
  App.select_sheet (App.select_sheet prev names) names
  = App.select_sheet prev names.
Proof.
  assert (forall p, p ∉ names ->
            App.select_sheet p names = default [] (head names)) as Hout.
  { intros p Hp. unfold App.select_sheet.
    by rewrite (bool_decide_eq_false_2 _ Hp), andb_false_r. }
  assert (forall p, p <> [] -> p ∈ names -> App.select_sheet p names = p)
    as Hin.
  { intros p Hp Hel. unfold App.select_sheet.
    rewrite (bool_decide_eq_true_2 _ Hel). by destruct p. }
  assert (names <> [] -> App.select_sheet prev names ∈ names) as Hmem.
  { intros Hne. unfold App.select_sheet.
    destruct (negb (App.is_empty_string prev) && bool_decide (prev ∈ names))
      eqn:E.
    - apply andb_true_iff in E as [_ E]. by apply bool_decide_eq_true in E.
    - destruct names as [| n names]; [done |]. cbn [head default].
      apply elem_of_cons. by left. }
  split; [| split; [exact Hmem | split; [apply Hin | split; [apply Hout |
    split; [by intros -> |]]]]].
  - intros ->. apply Hout, not_elem_of_nil.
  - destruct names as [| n names]; [by rewrite !Hout by apply not_elem_of_nil |].
    destruct (App.select_sheet prev (n :: names)) as [| c r] eqn:E.
    + unfold App.select_sheet in *. cbn [App.is_empty_string negb andb].
      destruct (negb (App.is_empty_string prev)
                && bool_decide (prev ∈ n :: names)) eqn:E'; [| done].
      subst prev. done.
    + apply Hin; [done | by apply Hmem].
Qed.

Section App_state.
Context {Num : Type} `{JsNumber Num} {WorkSheet : Type}.
Variable sheet_to_json : WorkSheet -> list (list (Cell Num)).

(** After a call of [loadFile] the component is not loading, holds the new
    file and the configuration it had, and shows either a workbook or an
    error, never both and never neither; a workbook it shows is the one
    that was read and has at least one sheet. *)
Theorem loadFile_outcome (outcome : App.ReadOutcome) (nextFile : App.File)
    (st : App.State (WorkSheet := WorkSheet)) :
  let st' := App.loadFile outcome nextFile st in
  App.isLoading st' = false /\
  App.file st' = Some nextFile /\
  App.options st' = App.options st /\
  match App.workbook st' with
  | Some wb =>
      App.error st' = None /\ outcome = App.Decoded wb /\
      App.SheetNames wb <> []
  | None =>
      match outcome with
      | App.Decoded wb =>
          App.SheetNames wb = [] /\ App.error st' = Some App.msg_no_sheets
      | App.Rejected (App.ErrorObject m) =>
          App.error st' = Some (App.msg_unreadable m)
      | App.Rejected App.OtherValue =>
          App.error st' = Some (App.msg_unreadable App.msg_unknown)
      end
  end.
Proof.
  unfold App.loadFile, App.loadFile_settle, App.loadFile_begin.
  destruct outcome as [wb | [m |]];
    [destruct (App.SheetNames wb) as [| n names] eqn:E | |];
    cbn [length Nat.eqb App.isLoading App.file App.options App.workbook
         App.error];
    repeat split; try done.
  by rewrite E.
Qed.

End App_state.

Lemma select_sheet_member (prev : jsstring) (names : list jsstring) :
  names <> [] -> App.select_sheet prev names ∈ names.
Proof.
  intros Hne. unfold App.select_sheet.
  destruct (negb (App.is_empty_string prev) && bool_decide (prev ∈ names))
    eqn:E.
  - apply andb_true_iff in E as [_ E]. by apply bool_decide_eq_true in E.
  - destruct names as [| n names]; [done |]. cbn [head default].
    apply elem_of_cons. by left.
Qed.

Section Loaded.
Context {Num : Type} `{JsNumber Num} {WorkSheet : Type}.
Variable sheet_to_json : WorkSheet -> list (list (Cell Num)).

Lemma convertResult_json (rows : list (list (Cell Num))) options r :
  convertResult rows options = Ok r ->
  json r = JSON_stringify (data r) (if pretty options then 2 else 0).
Proof.
  destruct (outputMode options) eqn:Hmode.
  - rewrite convertResult_objects by done. by intros [= <-].
  - rewrite convertResult_arrays by done. by intros [= <-].
Qed.

Lemma convertResult_json_nonempty (rows : list (list (Cell Num))) options r :
  convertResult rows options = Ok r -> App.is_empty_string (json r) = false.
Proof.
  intros Hr. rewrite (convertResult_json _ _ _ Hr).
  by destruct (stringify_brackets (data r) (if pretty options then 2 else 0))
    as [body ->].
Qed.

(** When a file is read into a workbook whose listed sheets exist and have
    names, then after [loadFile] and the sheet effect a sheet of the
    workbook is selected, the memo holds the conversion of that sheet, and
    the download is enabled. *)
Theorem loaded_workbook_converts (wb : App.WorkBook) (nextFile : App.File)
    (st : App.State (WorkSheet := WorkSheet)) :
  App.SheetNames wb <> [] ->
  (forall n, n ∈ App.SheetNames wb -> n <> [] /\ is_Some (App.Sheets wb n)) ->
  let st' := App.sheet_effect (App.loadFile (App.Decoded wb) nextFile st) in
  sheetName (App.options st') ∈ App.SheetNames wb /\
  exists sheet r,
    App.Sheets wb (sheetName (App.options st')) = Some sheet /\
    App.convertResult_memo sheet_to_json st' = Some (Ok r) /\
    convertResult (sheet_to_json sheet) (App.options st') = Ok r /\
    App.canDownload sheet_to_json st' = true.
Proof.
  intros Hne Hwf st'.
  assert (App.workbook (App.loadFile (App.Decoded wb) nextFile st) = Some wb)
    as Hwb.
  { unfold App.loadFile, App.loadFile_settle.
    destruct (App.SheetNames wb); [done | reflexivity]. }
  assert (App.workbook st' = Some wb /\ App.file st' = Some nextFile /\
          sheetName (App.options st')
          = App.select_sheet
              (sheetName (App.options st)) (App.SheetNames wb))
    as (Hwb' & Hfile & Hname).
  { subst st'. unfold App.sheet_effect. rewrite Hwb.
    cbn [App.workbook App.file App.options sheetName].
    unfold App.loadFile, App.loadFile_settle.
    by destruct (App.SheetNames wb). }
  pose proof (select_sheet_member (sheetName (App.options st)) _ Hne) as Hmem.
  rewrite <- Hname in Hmem. split; [done |].
  destruct (Hwf _ Hmem) as [Hnonempty [sheet Hsheet]].
  destruct (convertResult_total (sheet_to_json sheet) (App.options st'))
    as [r Hr].
  exists sheet, r. split; [done |].
  assert (App.convertResult_memo sheet_to_json st' = Some (Ok r)) as Hmemo.
  { unfold App.convertResult_memo. rewrite Hwb', Hsheet, Hr.
    by destruct (sheetName (App.options st')). }
  split; [done |]. split; [done |].
  unfold App.canDownload. rewrite Hmemo, Hfile.
  by rewrite (convertResult_json_nonempty _ _ _ Hr).
Qed.

(** When reading the file fails, or gives a workbook without sheets, then
    after [loadFile] and the sheet effect no workbook is held, whatever was
    loaded before, an error is shown, the memo is [null] and the download is
    disabled; the configuration is as it was. *)
Theorem failed_load_clears (outcome : App.ReadOutcome) (nextFile : App.File)
    (st : App.State (WorkSheet := WorkSheet)) :
  match outcome with
  | App.Decoded wb => App.SheetNames wb = []
  | App.Rejected _ => True
  end ->
  let st' := App.sheet_effect (App.loadFile outcome nextFile st) in
  App.workbook st' = None /\
  is_Some (App.error st') /\
  App.convertResult_memo sheet_to_json st' = None /\
  App.canDownload sheet_to_json st' = false /\
  App.options st' = App.options st.
Proof.
  intros Hfail st'.
  assert (st' = App.loadFile outcome nextFile st
          /\ App.workbook st' = None /\ is_Some (App.error st'))
    as (Hst & Hwb & Herr).
  { subst st'. unfold App.sheet_effect, App.loadFile, App.loadFile_settle.
    destruct outcome as [wb | e].
    - rewrite Hfail. cbn [length Nat.eqb App.workbook App.error].
      by repeat split.
    - cbn [App.workbook App.error]. by repeat split. }
  split; [done |]. split; [done |].
  unfold App.canDownload, App.convertResult_memo. rewrite Hwb.
  split; [done |]. split; [done |].
  rewrite Hst. unfold App.loadFile, App.loadFile_settle.
  by destruct outcome as [wb | e]; [destruct (length _ =? 0)%nat |].
Qed.

End Loaded.

(** ** What the conversion keeps and what the options change *)

Section Conversion_facts.
Context {Num : Type} `{JsNumber Num}.

Lemma filter_sublist {A} (f : A -> bool) (l : list A) :
  List.filter f l `sublist_of` l.
Proof.
  induction l as [| x l IH]; [constructor |]. cbn.
  destruct (f x); by constructor.
Qed.

Lemma filter_filter_same {A} (f : A -> bool) (l : list A) :
  List.filter f (List.filter f l) = List.filter f l.
Proof.
  induction l as [| x l IH]; [done |]. cbn.
  destruct (f x) eqn:E; [| done]. cbn. by rewrite E, IH.
Qed.

Lemma retained_member skip (rows : list (list (Cell Num))) row :
  row ∈ spec_retained skip rows <->
  row ∈ rows /\ (skip = true -> isRowEmpty row = Ok false).
Proof.
  unfold spec_retained. destruct skip.
  - rewrite !list_elem_of_In, filter_In, isRowEmpty_ok.
    split; intros [Hin Hne]; (split; [done |]).
    + intros _. f_equal. by apply negb_true_iff.
    + specialize (Hne eq_refl). injection Hne as Hne. by rewrite Hne.
  - split; [by intros ? | by intros [? _]].
Qed.

(** The sheet name never changes the conversion of a grid, [pretty] changes
    the text only, and in arrays mode the header row number changes the
    reported header index only. *)
Theorem options_influence (rows : list (list (Cell Num)))
    (o1 o2 : ConvertOptions) :
  outputMode o1 = outputMode o2 ->
  skipEmptyRows o1 = skipEmptyRows o2 ->
  exists r1 r2,
    convertResult rows o1 = Ok r1 /\ convertResult rows o2 = Ok r2 /\
    (headerRowNumber o1 = headerRowNumber o2 ->
       data r1 = data r2 /\ previewRows r1 = previewRows r2 /\
       rowCount r1 = rowCount r2 /\ headerRowIndex r1 = headerRowIndex r2 /\
       (pretty o1 = pretty o2 -> r1 = r2)) /\
    (outputMode o1 = arrays ->
       data r1 = data r2 /\ previewRows r1 = previewRows r2 /\
       rowCount r1 = rowCount r2 /\
       (pretty o1 = pretty o2 -> json r1 = json r2)).
Proof.
  intros Hmode Hskip.
  destruct (outputMode o1) eqn:Hm1.
  - eexists. eexists.
    split; [by apply convertResult_objects |].
    split; [by apply convertResult_objects |].
    split; [| done]. intros Hn. cbn [data previewRows rowCount headerRowIndex].
    rewrite Hskip, Hn. repeat split. by intros ->.
  - eexists. eexists.
    split; [by apply convertResult_arrays |].
    split; [by apply convertResult_arrays |].
    cbn [data previewRows rowCount headerRowIndex json]. rewrite Hskip.
    split.
    + intros Hn. rewrite Hn. repeat split. by intros ->.
    + intros _. repeat split. by intros ->.
Qed.

(** Arrays mode exports rows of the grid as they are and in their order:
    all of them without [skipEmptyRows], and with it exactly the rows that
    [isRowEmpty] rejects, each as often as it occurs in the grid. *)
Theorem arrays_mode_retention (rows : list (list (Cell Num)))
    (options : ConvertOptions) :
  outputMode options = arrays ->
  exists r exportRows,
    convertResult rows options = Ok r /\
    data r = DArrays exportRows /\
    rowCount r = length exportRows /\
    exportRows `sublist_of` rows /\
    (forall row, row ∈ exportRows <->
       row ∈ rows /\
       (skipEmptyRows options = true -> isRowEmpty row = Ok false)) /\
    (skipEmptyRows options = false -> exportRows = rows) /\
    exportRows
    = (if skipEmptyRows options
       then List.filter
              (fun row => match isRowEmpty row with
                          | Ok false => true
                          | _ => false
                          end)
              rows
       else rows).
Proof.
  intros Hmode. eexists. eexists.
  split; [by apply convertResult_arrays |].
  cbn [data rowCount]. split; [done |]. split; [done |].
  split; [| split; [| split]].
  - unfold spec_retained. destruct (skipEmptyRows options);
      [apply filter_sublist | done].
  - intros row. apply retained_member.
  - by intros ->.
  - unfold spec_retained. destruct (skipEmptyRows options); [| done].
    apply filter_ext. intros row. rewrite isRowEmpty_ok.
    by destruct (bool_decide (spec_row_empty row)).
Qed.

(** Converting the rows that arrays mode exported, with the same
    configuration, exports the same rows again. *)
Theorem arrays_export_fixed_point (rows : list (list (Cell Num)))
    (options : ConvertOptions) :
  outputMode options = arrays ->
  exists r exportRows r',
    convertResult rows options = Ok r /\
    data r = DArrays exportRows /\
    convertResult exportRows options = Ok r' /\
    data r' = data r /\ json r' = json r /\ rowCount r' = rowCount r /\
    previewRows r' = previewRows r.
Proof.
  intros Hmode. eexists. eexists. eexists.
  split; [by apply convertResult_arrays |]. split; [done |].
  split; [by apply convertResult_arrays |].
  cbn [data json rowCount previewRows].
  assert (spec_retained (skipEmptyRows options)
            (spec_retained (skipEmptyRows options) rows)
          = spec_retained (skipEmptyRows options) rows) as ->; [| done].
  unfold spec_retained. destruct (skipEmptyRows options); [| done].
  apply filter_filter_same.
Qed.

(** With the same [skipEmptyRows], the rows that objects mode turns into
    objects are the last [rowCount] rows of the arrays-mode export. *)
Theorem objects_rows_end_arrays_export (rows : list (list (Cell Num)))
    (oo oa : ConvertOptions) :
  outputMode oo = objects -> outputMode oa = arrays ->
  skipEmptyRows oo = skipEmptyRows oa ->
  exists ro ra exportRows,
    convertResult rows oo = Ok ro /\ convertResult rows oa = Ok ra /\
    data ra = DArrays exportRows /\
    (rowCount ro <= rowCount ra)%nat /\
    data ro
    = DObjects
        (map (row_to_object
                (normalizeHeaders (spec_header_row rows (headerRowNumber oo))))
           (drop (rowCount ra - rowCount ro) exportRows)).
Proof.
  intros Ho Ha Hskip. eexists. eexists. eexists.
  split; [by apply convertResult_objects |].
  split; [by apply convertResult_arrays |].
  cbn [data rowCount]. split; [done |]. rewrite length_map, <- Hskip.
  set (k := S (spec_header_index rows (headerRowNumber oo))).
  unfold spec_data_rows. fold k.
  assert (exists pre,
            spec_retained (skipEmptyRows oo) rows
            = pre ++ spec_retained (skipEmptyRows oo) (drop k rows))
    as [pre Hpre].
  { unfold spec_retained. destruct (skipEmptyRows oo).
    - eexists. rewrite <- (take_drop k rows) at 1. apply List.filter_app.
    - exists (take k rows). by rewrite take_drop. }
  rewrite Hpre, length_app. split; [lia |]. do 2 f_equal.
  replace (length pre + length (spec_retained (skipEmptyRows oo) (drop k rows))
           - length (spec_retained (skipEmptyRows oo) (drop k rows)))%nat
    with (length pre) by lia.
  by rewrite drop_app_length.
Qed.

(** The empty grid: both modes export the text [[]] and count no row; the
    header index is 0; the preview is empty in arrays mode and is one
    header row without cells in objects mode. *)
Theorem empty_grid (options : ConvertOptions) :
  exists r, convertResult ([] : list (list (Cell Num))) options = Ok r /\
    json r = lit "[]" /\ rowCount r = 0%nat /\ headerRowIndex r = 0 /\
    match outputMode options with
    | objects => data r = DObjects [] /\ previewRows r = [[]]
    | arrays => data r = DArrays [] /\ previewRows r = []
    end.
Proof.
  assert (spec_header_index ([] : list (list (Cell Num)))
            (headerRowNumber options) = 0%nat) as Hidx
    by (unfold spec_header_index, clampNumber; cbn [length]; lia).
  destruct (outputMode options) eqn:Hmode.
  - eexists. split; [by apply convertResult_objects |].
    cbn [json rowCount headerRowIndex data previewRows].
    unfold spec_data_rows, spec_header_row, spec_retained. rewrite Hidx.
    destruct (skipEmptyRows options); destruct (pretty options);
      repeat split; reflexivity.
  - eexists. split; [by apply convertResult_arrays |].
    cbn [json rowCount headerRowIndex data previewRows].
    unfold spec_retained. rewrite Hidx.
    destruct (skipEmptyRows options); destruct (pretty options);
      repeat split; reflexivity.
Qed.

End Conversion_facts.

(** ** The choice of the header row *)

Section Header_row.
Context {Num : Type} `{JsNumber Num}.

Lemma retained_length skip (rows : list (list (Cell Num))) :
  (length (spec_retained skip rows) <= length rows)%nat.
Proof.
  unfold spec_retained. destruct skip; [apply List.filter_length_le | done].
Qed.

(** In objects mode on a grid with rows: a header row number within the
    grid selects that row and at most the rows after it are exported; a
    number below 1 selects the first row; a number at or beyond the last
    row selects the last row and nothing is exported. *)
Theorem header_row_selection (rows : list (list (Cell Num)))
    (options : ConvertOptions) :
  rows <> [] ->
  outputMode options = objects ->
  let n := headerRowNumber options in
  let len := Z.of_nat (length rows) in
  exists r, convertResult rows options = Ok r /\
    (1 <= n <= len ->
       headerRowIndex r = n - 1 /\
       head (previewRows r) = rows !! Z.to_nat (n - 1) /\
       Z.of_nat (rowCount r) <= len - n) /\
    (n <= 1 -> headerRowIndex r = 0 /\ head (previewRows r) = head rows) /\
    (len <= n ->
       headerRowIndex r = len - 1 /\ head (previewRows r) = last rows /\
       data r = DObjects [] /\ rowCount r = 0%nat /\ json r = lit "[]").
Proof.
  intros Hne Hmode n len.
  assert (0 < len) as Hlen by (subst len; destruct rows; [done | cbn; lia]).
  eexists. split; [by apply convertResult_objects |].
  cbn [headerRowIndex previewRows head rowCount data json].
  set (idx := spec_header_index rows (headerRowNumber options)).
  assert (Z.of_nat idx = Z.max 0 (Z.min (n - 1) (len - 1))) as Hidx
    by (subst idx n len; unfold spec_header_index, clampNumber; lia).
  assert (Some (spec_header_row rows (headerRowNumber options)) = rows !! idx)
    as Hrow.
  { unfold spec_header_row. fold idx.
    assert (idx < length rows)%nat as Hlt by lia.
    by destruct (lookup_lt_is_Some_2 rows idx Hlt) as [row ->]. }
  rewrite Hrow, length_map. unfold spec_data_rows. fold idx.
  split; [| split].
  - intros Hn. split; [lia |]. split; [f_equal; lia |].
    etransitivity; [apply inj_le, retained_length |].
    rewrite length_drop. lia.
  - intros Hn. split; [lia |]. rewrite head_lookup. f_equal. lia.
  - intros Hn. split; [lia |]. split; [rewrite last_lookup; f_equal; lia |].
    rewrite drop_ge by lia.
    assert (spec_retained (skipEmptyRows options) ([] : list (list (Cell Num)))
            = []) as -> by by destruct (skipEmptyRows options).
    repeat split; by destruct (pretty options).
Qed.

End Header_row.

(** ** Trimming *)


Lemma trim_start_head s c t :
  trim_start s = c :: t -> is_js_space c = false.
Proof.
  induction s as [| c' s IH]; [done |]. cbn.
  destruct (is_js_space c') eqn:E; [apply IH | by intros [= <- _]].
Qed.

Lemma trim_start_fixed c t :
  is_js_space c = false -> trim_start (c :: t) = c :: t.
Proof. intros Hc. cbn. by rewrite Hc. Qed.

Lemma trim_start_keeps_last l c :
  is_js_space c = false -> exists u, trim_start (l ++ [c]) = u ++ [c].
Proof.
  intros Hc. induction l as [| x l IH].
  - exists []. by apply trim_start_fixed.
  - cbn. destruct (is_js_space x); [apply IH | by exists (x :: l)].
Qed.

Lemma trim_end_head c t :
  is_js_space c = false -> exists t', trim_end (c :: t) = c :: t'.
Proof.
  intros Hc. unfold trim_end. cbn [rev].
  destruct (trim_start_keeps_last (rev t) c Hc) as [u ->].
  exists (rev u). by rewrite rev_app_distr.
Qed.

Lemma trim_end_idem s : trim_end (trim_end s) = trim_end s.
Proof.
  unfold trim_end. rewrite rev_involutive. f_equal.
  destruct (trim_start (rev s)) as [| c t] eqn:E; [done |].
  apply trim_start_fixed. by apply trim_start_head in E.
Qed.

Lemma trim_head s c t : trim s = c :: t -> is_js_space c = false.
Proof.
  unfold trim. destruct (trim_start s) as [| c' t'] eqn:E; [done |].
  apply trim_start_head in E. destruct (trim_end_head c' t' E) as [t'' ->].
  by intros [= <- _].
Qed.


Lemma trim_idem s : trim (trim s) = trim s.
Proof.
  destruct (trim s) as [| c t] eqn:E; [done |].
  pose proof (trim_head _ _ _ E) as Hc. rewrite <- E.
  unfold trim at 1. rewrite E, (trim_start_fixed _ _ Hc), <- E.
  unfold trim. apply trim_end_idem.
Qed.

Lemma trim_fixed c t d :
  is_js_space c = false -> last (c :: t) = Some d -> is_js_space d = false ->
  trim (c :: t) = c :: t.
Proof.
  intros Hc Hlast Hd. unfold trim. rewrite (trim_start_fixed _ _ Hc).
  apply last_Some in Hlast as [u Hu]. rewrite Hu. unfold trim_end.
  rewrite rev_app_distr. cbn [rev app].
  rewrite (trim_start_fixed _ _ Hd).
  change (d :: rev u) with (rev [d] ++ rev u).
  by rewrite <- rev_app_distr, rev_involutive.
Qed.

Lemma digit_not_space d : is_digit d = true -> is_js_space d = false.
Proof.
  unfold is_digit. intros Hd. apply andb_true_iff in Hd as [Hlo Hhi].
  apply N.leb_le in Hlo, Hhi. unfold is_js_space.
  repeat match goal with
         | |- context [(?a <=? d)%N] =>
             rewrite (proj2 (N.leb_gt a d)) by lia
         | |- context [(d <=? ?a)%N] =>
             rewrite (proj2 (N.leb_gt d a)) by lia
         | |- context [(d =? ?a)%N] =>
             rewrite (proj2 (N.eqb_neq d a)) by lia
         end.
  by rewrite !andb_false_r.
Qed.

(** ** Blank cells and the keys of the headers *)

Section Blank_and_keys.
Context {Num : Type} `{JsNumber Num}.


Lemma last_app_some (k s : jsstring) d :
  last s = Some d -> last (k ++ s) = Some d.
Proof. intros Hs. by rewrite last_app, Hs. Qed.

Lemma base_key_trimmed i (v : Cell Num) :
  base_key i v <> [] /\ trim (base_key i v) = base_key i v.
Proof.
  rewrite base_key_text. destruct (decide (spec_text v = [])) as [E | E].
  - split; [done |]. destruct (dec_last (i + 1)) as (d & Hd & Hdig).
    apply (trim_fixed _ _ d); [done | | by apply digit_not_space].
    apply (last_app_some (lit "Column") (dec (i + 1)) d Hd).
  - split; [done |]. unfold spec_text. apply trim_idem.
Qed.

(** Every key [normalizeHeaders] returns is non-empty and has no white
    space at either end. *)
Theorem header_keys_trimmed (values : list (Cell Num)) (k : jsstring) :
  k ∈ normalizeHeaders values -> k <> [] /\ trim k = k.
Proof.
  rewrite normalizeHeaders_suffixed. intros Hin.
  apply list_elem_of_lookup in Hin as [i Hi].
  rewrite list_lookup_imap in Hi.
  destruct (imap base_key values !! i) as [b |] eqn:Hb; [| done].
  injection Hi as <-.
  rewrite list_lookup_imap in Hb.
  destruct (values !! i) as [v |]; [| done]. injection Hb as <-.
  destruct (base_key_trimmed i v) as [Hne Htrim].
  unfold spec_suffixed.
  destruct (_ =? 1)%nat; [done |].
  destruct (base_key i v) as [| c t] eqn:E; [done |]. split; [done |].
  destruct (suffixed_last (c :: t)
              (occurrences (c :: t) (take (S i) (imap base_key values))))
    as (d & Hd & Hdig).
  apply (trim_fixed _ _ d); [| done | by apply digit_not_space].
  exact (trim_head _ _ _ Htrim).
Qed.

End Blank_and_keys.

(** ** Decimal numerals read back *)

Lemma dec_go_app fuel n acc : dec_go fuel n acc = dec_go fuel n [] ++ acc.
Proof.
  revert n acc. induction fuel as [| fuel IH]; intros n acc; [done |].
  cbn [dec_go]. destruct (n / 10 =? 0)%nat; [done |].
  rewrite (IH _ (_ :: acc)), (IH _ [_]), <- app_assoc. done.
Qed.

Lemma digits_value_app a s1 s2 :
  digits_value a (s1 ++ s2) = digits_value (digits_value a s1) s2.
Proof.
  revert a. induction s1 as [| c s1 IH]; intros a; [done |]. cbn. apply IH.
Qed.

Lemma dec_go_value fuel n :
  (n < fuel)%nat -> digits_value 0 (dec_go fuel n []) = N.of_nat n.
Proof.
  revert n. induction fuel as [| fuel IH]; intros n Hn; [lia |].
  cbn [dec_go].
  pose proof (Nat.div_mod_eq n 10) as Hdm.
  destruct (Nat.eqb_spec (n / 10) 0) as [E | E].
  - cbn [digits_value]. unfold digit. lia.
  - rewrite dec_go_app, digits_value_app, IH.
    + cbn [digits_value]. unfold digit. lia.
    + pose proof (Nat.div_lt n 10 ltac:(lia) ltac:(lia)). lia.
Qed.

Lemma dec_inj n m : dec n = dec m -> n = m.
Proof.
  intros E. apply (f_equal (digits_value 0)) in E. unfold dec in E.
  rewrite !dec_go_value in E by lia. lia.
Qed.

Lemma dec_go_digits fuel n acc :
  forallb is_digit acc = true -> forallb is_digit (dec_go fuel n acc) = true.
Proof.
  revert n acc. induction fuel as [| fuel IH]; intros n acc Hacc; [done |].
  cbn [dec_go].
  assert (forallb is_digit (digit (n mod 10) :: acc) = true) as Hacc'
    by (apply forallb_cons_true; [apply digit_is_digit | done]).
  destruct (n / 10 =? 0)%nat; [done | by apply IH].
Qed.

Lemma dec_no_underscore n : 95%N ∉ dec n.
Proof.
  intros Hin. pose proof (dec_go_digits (S n) n [] eq_refl) as Hd.
  rewrite forallb_forall in Hd. apply list_elem_of_In, Hd in Hin. done.
Qed.

Lemma app_sep_inj (x : N) (s1 s2 d1 d2 : jsstring) :
  x ∉ d1 -> x ∉ d2 -> s1 ++ x :: d1 = s2 ++ x :: d2 -> s1 = s2 /\ d1 = d2.
Proof.
  intros H1 H2. revert s2.
  induction s1 as [| c s1 IH]; intros [| c' s2]; cbn [app].
  - by intros [= ->].
  - intros [= <- ->]. exfalso. apply H1, elem_of_app. right. by left.
  - intros [= -> <-]. exfalso. apply H2, elem_of_app. right. by left.
  - intros [= -> E]. by destruct (IH _ E) as [-> ->].
Qed.

Lemma suffix_inj (k1 k2 : jsstring) n1 n2 :
  k1 ++ lit "_" ++ dec n1 = k2 ++ lit "_" ++ dec n2 -> k1 = k2 /\ n1 = n2.
Proof.
  intros E. apply app_sep_inj in E as [-> E]; try apply dec_no_underscore.
  by apply dec_inj in E.
Qed.

(** ** Counting occurrences by position *)

Lemma occurrences_take_le k (l : list jsstring) i :
  (occurrences k (take i l) <= occurrences k l)%nat.
Proof.
  rewrite <- (take_drop i l) at 2. rewrite occurrences_app. lia.
Qed.

Lemma occurrences_take_mono k (l : list jsstring) i j :
  (i <= j)%nat -> (occurrences k (take i l) <= occurrences k (take j l))%nat.
Proof.
  intros Hij. replace (take i l) with (take i (take j l)).
  - apply occurrences_take_le.
  - rewrite take_take. f_equal. lia.
Qed.

Lemma occurrences_take_S k (l : list jsstring) i :
  l !! i = Some k ->
  occurrences k (take (S i) l) = S (occurrences k (take i l)).
Proof.
  intros Hi. rewrite (take_S_r _ _ _ Hi), occurrences_app, occurrences_one.
  rewrite decide_True by done. lia.
Qed.

Lemma occurrences_position k (l : list jsstring) i j :
  l !! i = Some k -> l !! j = Some k ->
  occurrences k (take (S i) l) = occurrences k (take (S j) l) -> i = j.
Proof.
  intros Hi Hj E.
  destruct (Nat.lt_trichotomy i j) as [Hlt | [-> | Hlt]]; [| done |].
  - rewrite (occurrences_take_S _ _ j Hj) in E.
    pose proof (occurrences_take_mono k l (S i) j ltac:(lia)). lia.
  - rewrite (occurrences_take_S _ _ i Hi) in E.
    pose proof (occurrences_take_mono k l (S j) i ltac:(lia)). lia.
Qed.

Lemma nth_occurrence k (l : list jsstring) n :
  (1 <= n <= occurrences k l)%nat ->
  exists j, l !! j = Some k /\ occurrences k (take (S j) l) = n.
Proof.
  induction l as [| x l IH] using rev_ind; [cbn; lia |].
  rewrite occurrences_app, occurrences_one. intros Hn.
  destruct (decide (n <= occurrences k l)%nat) as [Hle | Hgt].
  - destruct IH as (j & Hj & Hocc); [lia |]. exists j.
    pose proof (lookup_lt_Some _ _ _ Hj) as Hlt.
    split; [by rewrite lookup_app_l |].
    by rewrite take_app_le by lia.
  - destruct (decide (x = k)) as [-> | Hne]; [| lia].
    exists (length l). split.
    + by rewrite lookup_app_r, Nat.sub_diag.
    + rewrite take_ge by (rewrite length_app; cbn; lia).
      rewrite occurrences_app, occurrences_one, decide_True by done. lia.
Qed.

(** ** When the keys of the headers are pairwise different *)

Section Distinct_keys.
Context {Num : Type} `{JsNumber Num}.

(** The keys [normalizeHeaders] returns are pairwise different exactly when
    no key of the header row, after trimming and blank substitution, reads
    [k_n] for a key [k] of the row that occurs at least [n >= 2] times. *)
Theorem header_keys_distinct_iff (values : list (Cell Num)) :
  let base := imap base_key values in
  NoDup (normalizeHeaders values) <->
  forall k n, (2 <= n <= occurrences k base)%nat ->
              k ++ lit "_" ++ dec n ∉ base.
Proof.
  intros base. rewrite normalizeHeaders_suffixed. fold base.
  assert (forall i b, base !! i = Some b ->
            imap (spec_suffixed base) base !! i
            = Some (spec_suffixed base i b)) as Hout.
  { intros i b Hb. by rewrite list_lookup_imap, Hb. }
  split.
  - intros Hnd k n Hn Hin.
    destruct (nth_occurrence k base n) as (j & Hj & Hocc); [lia |].
    pose proof (occurrences_present _ _ Hin) as Hm.
    destruct (nth_occurrence (k ++ lit "_" ++ dec n) base 1)
      as (i & Hi & Hocc1); [lia |].
    pose proof (Hout _ _ Hj) as Hoj. pose proof (Hout _ _ Hi) as Hoi.
    unfold spec_suffixed in Hoj, Hoi. rewrite Hocc in Hoj. rewrite Hocc1 in Hoi.
    cbn [Nat.eqb] in Hoi.
    destruct (Nat.eqb_spec n 1) as [-> | _]; [lia |].
    pose proof (NoDup_lookup _ _ _ _ Hnd Hoi Hoj) as ->.
    rewrite Hi in Hj. injection Hj as E.
    apply (f_equal length) in E. rewrite length_app in E. cbn in E. lia.
  - intros Hgood. apply NoDup_alt. intros i j x Hi Hj.
    rewrite list_lookup_imap in Hi, Hj.
    destruct (base !! i) as [bi |] eqn:Hbi; [| done].
    destruct (base !! j) as [bj |] eqn:Hbj; [| done].
    injection Hi as Hi. injection Hj as Hj. unfold spec_suffixed in Hi, Hj.
    assert (forall p b, base !! p = Some b ->
              (1 <= occurrences b (take (S p) base) <= occurrences b base)%nat)
      as Hrange.
    { intros p b Hp. split; [| apply occurrences_take_le].
      rewrite (occurrences_take_S _ _ _ Hp). lia. }
    pose proof (Hrange _ _ Hbi) as Hri. pose proof (Hrange _ _ Hbj) as Hrj.
    destruct (Nat.eqb_spec (occurrences bi (take (S i) base)) 1) as [Ei | Ei];
      destruct (Nat.eqb_spec (occurrences bj (take (S j) base)) 1) as [Ej | Ej].
    + subst bi bj. apply (occurrences_position x base); try done. congruence.
    + exfalso. subst bi. rewrite <- Hj in Hbi.
      apply (Hgood bj (occurrences bj (take (S j) base))); [lia |].
      by eapply list_elem_of_lookup_2.
    + exfalso. subst bj. rewrite <- Hi in Hbj.
      apply (Hgood bi (occurrences bi (take (S i) base))); [lia |].
      by eapply list_elem_of_lookup_2.
    + rewrite <- Hj in Hi. apply suffix_inj in Hi as [-> Hocc].
      by apply (occurrences_position bj base).
Qed.

End Distinct_keys.

(** ** Objects of rows under pairwise different headers *)

Section Positional_objects.
Context {Num : Type} `{JsNumber Num}.

Lemma obj_set_fresh k v (o : list (jsstring * Cell Num)) :
  k <> proto_key -> k ∉ map fst o -> obj_set k v o = o ++ [(k, v)].
Proof.
  intros Hk Hfresh. unfold obj_set. rewrite decide_False by done.
  by rewrite (proj2 (obj_update_None k v o) Hfresh).
Qed.

Lemma fill_object_fresh hs (r : list (Cell Num)) i o :
  NoDup (map fst o ++ hs) -> proto_key ∉ hs ->
  fill_object hs r i o
  = o ++ imap (fun j k => (k, spec_cell_or_empty r (i + j))) hs.
Proof.
  revert i o. induction hs as [| h hs IH]; intros i o Hnd Hproto.
  - by rewrite app_nil_r.
  - apply not_elem_of_cons in Hproto as [Hh Hproto].
    cbn [fill_object imap]. rewrite coalesce_cell.
    apply NoDup_app in Hnd as (Ho & Hdisj & Hhs).
    rewrite obj_set_fresh; [| done |].
    + rewrite IH; [| | done].
      * rewrite <- app_assoc. cbn [app]. rewrite Nat.add_0_r.
        do 2 f_equal. apply imap_ext. intros j k _. cbn. do 2 f_equal. lia.
      * rewrite map_app. cbn [map fst]. rewrite <- app_assoc. cbn [app].
        apply NoDup_app. split; [done |]. split; [done |]. done.
    + intros Hin. apply (Hdisj _ Hin). by left.
Qed.

Lemma insert_index_perm {A} n (x : A) l : insert_index n x l ≡ₚ (n, x) :: l.
Proof.
  induction l as [| [m y] l IH]; [done |]. cbn [insert_index].
  destruct (n <? m)%N; [done |]. rewrite IH. apply Permutation_swap.
Qed.

Lemma insert_index_sorted {A} n (x : A) l :
  StronglySorted (fun a b => (fst a <= fst b)%N) l ->
  StronglySorted (fun a b => (fst a <= fst b)%N) (insert_index n x l).
Proof.
  induction l as [| [m y] l IH]; intros Hs.
  - repeat constructor.
  - apply StronglySorted_inv in Hs as [Hs Hall]. cbn [insert_index].
    destruct (N.ltb_spec n m) as [Hlt | Hge].
    + constructor; [by constructor |]. constructor; [cbn; lia |].
      eapply Forall_impl; [exact Hall |]. intros [p z]. cbn. lia.
    + constructor; [by apply IH |].
      rewrite insert_index_perm. constructor; [cbn; lia | done].
Qed.

Lemma index_props_spec (o : list (jsstring * Cell Num)) :
  StronglySorted (fun a b => (fst a <= fst b)%N) (index_props o) /\
  Forall (fun e => array_index (fst (snd e)) = Some (fst e)) (index_props o) /\
  map snd (index_props o)
  ≡ₚ List.filter (fun kv => negb (bool_decide (array_index (fst kv) = None))) o.
Proof.
  induction o as [| [k v] o (Hs & Hall & Hperm)]; [by repeat constructor |].
  cbn [index_props List.filter fst].
  destruct (array_index k) as [n |] eqn:E.
  - rewrite bool_decide_eq_false_2 by done. cbn [negb].
    split; [by apply insert_index_sorted |]. split.
    + rewrite insert_index_perm. by constructor.
    + rewrite insert_index_perm. cbn [map snd]. by constructor.
  - by rewrite bool_decide_eq_true_2 by done.
Qed.

(** When the headers are pairwise different and none of them is
    [__proto__], the object of a row has one property per header, created
    in column order, holding the cell of that column (the empty string for
    a missing, [null] or [undefined] one); its text lists first the headers
    that are array indices, by ascending index, and then the others in
    column order. *)
Theorem distinct_headers_object (hs : list jsstring) (r : list (Cell Num)) :
  NoDup hs -> proto_key ∉ hs ->
  let columns := imap (fun i k => (k, spec_cell_or_empty r i)) hs in
  let is_index (kv : jsstring * Cell Num) :=
    negb (bool_decide (array_index (fst kv) = None)) in
  row_to_object hs r = columns /\
  exists first,
    own_props (row_to_object hs r)
    = first ++ List.filter (fun kv => negb (is_index kv)) columns /\
    first ≡ₚ List.filter is_index columns /\
    StronglySorted
      (fun a b => exists n m, array_index (fst a) = Some n /\
                              array_index (fst b) = Some m /\ (n <= m)%N)
      first.
Proof.
  intros Hnd Hproto columns is_index.
  assert (row_to_object hs r = columns) as ->.
  { unfold row_to_object. by rewrite fill_object_fresh. }
  split; [done |].
  destruct (index_props_spec columns) as (Hs & Hall & Hperm).
  exists (map snd (index_props columns)). split; [| split; [done |]].
  - unfold own_props. f_equal. apply filter_ext. intros kv.
    unfold is_index. by rewrite negb_involutive.
  - clear Hperm. induction (index_props columns) as [| e l IH];
      [constructor |].
    apply StronglySorted_inv in Hs as [Hs Hle].
    apply Forall_cons in Hall as [He Hall].
    cbn [map]. constructor; [by apply IH |].
    apply Forall_fmap, Forall_forall. intros e' Hin. cbn.
    rewrite Forall_forall in Hle, Hall.
    exists (fst e), (fst e'). split; [done |]. split; [by apply Hall |].
    by apply Hle.
Qed.

End Positional_objects.

(** ** Reading the exported text back *)

Section Round_trip.
Context {Num : Type} `{JsNumber Num}.

(** The exported text is a JSON text, and parsing it gives the exported
    value back: an array with one array per row or one object per row, a
    cell that is [undefined] or a non-finite number read back as [null].
    Finite numbers are assumed to be printed as JSON number literals. *)
Theorem export_parses_back (rows : list (list (Cell Num)))
    (options : ConvertOptions) :
  (forall n : Num, num_is_finite n = true ->
     json_number (num_to_string n) = true) ->
  exists r, convertResult rows options = Ok r /\
            JSON_parse (json r) = Some (data_tree (data r)).
Proof.
  intros num_json. destruct (convertResult_total rows options) as [r Hr].
  exists r. split; [done |].
  rewrite (convertResult_json _ _ _ Hr). by apply parse_stringify.
Qed.

End Round_trip.

(** ** Columns added at the right *)

Section Prefix.
Context {Num : Type} `{JsNumber Num}.

(** The keys of the first [n] columns depend on these columns only: the
    keys of a shorter header row are the first keys of the longer one. *)
Theorem normalizeHeaders_prefix (values : list (Cell Num)) (n : nat) :
  normalizeHeaders (take n values) = take n (normalizeHeaders values).
Proof.
  rewrite !normalizeHeaders_suffixed.
  assert (imap base_key (take n values) = take n (imap base_key values))
    as ->.
  { apply list_eq. intros i.
    rewrite list_lookup_imap.
    destruct (decide (i < n)%nat) as [Hlt | Hge].
    - by rewrite !lookup_take_lt, list_lookup_imap by done.
    - by rewrite !lookup_take_ge by lia. }
  set (base := imap base_key values).
  apply list_eq. intros i. rewrite list_lookup_imap.
  destruct (decide (i < n)%nat) as [Hlt | Hge].
  - rewrite !lookup_take_lt, list_lookup_imap by done.
    destruct (base !! i) as [b |]; [| done]. cbn. f_equal.
    unfold spec_suffixed. rewrite take_take.
    by replace (S i `min` n)%nat with (S i) by lia.
  - by rewrite !lookup_take_ge by lia.
Qed.

End Prefix.

(** ** Sequences of events *)

Section Sessions.
Context {Num : Type} `{JsNumber Num} {WorkSheet : Type}.
Variable sheet_to_json : WorkSheet -> list (list (Cell Num)).

Lemma session_inv_step (ev : App.Event)
    (s : App.State (WorkSheet := WorkSheet) * nat) :
  session_inv s -> session_inv (App.step ev s).
Proof.
  destruct s as [st pending]. intros (Hfile & Hwb & Hload).
  destruct ev as [[f |] | outcome | | updater]; cbn [App.step].
  - unfold session_inv, App.loadFile_begin.
    cbn [App.file App.workbook App.isLoading].
    split; [by eexists |]. split; [done | lia].
  - done.
  - destruct pending as [| pending']; [done |].
    assert (is_Some (App.file st)) as Hf by (apply Hfile; left; lia).
    unfold session_inv, App.loadFile_settle.
    destruct outcome as [wb | e];
      [destruct (App.SheetNames wb) as [| n names] eqn:E |];
      cbn [length Nat.eqb App.file App.workbook App.isLoading];
      (split; [done |]); (split; [| done]); intros wb'; try done.
    intros [= <-]. by rewrite E.
  - unfold session_inv, App.sheet_effect.
    destruct (App.workbook st) as [wb |] eqn:E.
    + cbn [App.file App.workbook App.isLoading].
      split; [intros _; apply Hfile; right; by eexists |].
      split; [| done]. intros wb' [= <-]. by apply Hwb.
    + rewrite E. done.
  - done.
Qed.

Lemma session_inv_run (evs : list App.Event)
    (s : App.State (WorkSheet := WorkSheet) * nat) :
  session_inv s -> session_inv (App.run evs s).
Proof.
  revert s. induction evs as [| ev evs IH]; intros s Hs; [done |].
  cbn [App.run fold_left]. apply IH. by apply session_inv_step.
Qed.

Lemma memo_result (st : App.State (WorkSheet := WorkSheet)) :
  App.convertResult_memo sheet_to_json st = None \/
  exists r, App.convertResult_memo sheet_to_json st = Some (Ok r) /\
            App.is_empty_string (json r) = false.
Proof.
  unfold App.convertResult_memo.
  destruct (App.workbook st) as [wb |]; [| by left].
  destruct (App.is_empty_string (sheetName (App.options st))); [by left |].
  destruct (App.Sheets wb (sheetName (App.options st))) as [sheet |];
    [| by left].
  destruct (convertResult_total (sheet_to_json sheet) (App.options st))
    as [r Hr].
  right. exists r. rewrite Hr. split; [done |].
  by apply convertResult_json_nonempty in Hr.
Qed.

(** After every sequence of events from the initial state: a workbook is
    held only together with a file, and it has at least one sheet; the
    loading flag is shown only while a read is in flight; the download and
    the copy are available exactly when a conversion result exists, and
    then both carry the text of that result, the download under the name
    derived from the held file. *)
Theorem session_invariants (evs : list App.Event) :
  let s := App.run evs (App.initial (WorkSheet := WorkSheet), 0%nat) in
  let st := fst s in
  (is_Some (App.workbook st) -> is_Some (App.file st)) /\
  (forall wb, App.workbook st = Some wb -> App.SheetNames wb <> []) /\
  (App.isLoading st = true -> (0 < snd s)%nat) /\
  (App.canDownload sheet_to_json st = true
   <-> is_Some (App.convertResult_memo sheet_to_json st)) /\
  (forall r, App.convertResult_memo sheet_to_json st = Some (Ok r) ->
     App.downloadJson sheet_to_json st = Some (App.outName (App.file st), json r)
     /\ App.copyJson sheet_to_json st = Some (json r)) /\
  (App.convertResult_memo sheet_to_json st = None ->
     App.downloadJson sheet_to_json st = None /\
     App.copyJson sheet_to_json st = None).
Proof.
  intros s st.
  assert (session_inv s) as Hinv.
  { apply session_inv_run. cbn. split; [| done].
    intros [Hp | [wb Hwb]]; [lia | done]. }
  subst st. destruct s as [st pending]. cbn [fst snd].
  destruct Hinv as (Hfile & Hwb & Hload).
  split; [intros Hs; apply Hfile; by right |]. split; [done |].
  split; [done |].
  unfold App.canDownload, App.downloadJson, App.copyJson.
  destruct (memo_result st) as [Hnone | (r & Hr & Hne)].
  - rewrite Hnone. split; [| done]. split; [done | by intros [? ?]].
  - rewrite Hr, Hne. cbn [negb andb].
    split; [| split; [by intros r' [= <-] | done]].
    assert (is_Some (App.file st)) as [f Hf].
    { apply Hfile. right. unfold App.convertResult_memo in Hr.
      by destruct (App.workbook st). }
    rewrite Hf. split; [by eexists | done].
Qed.

(** Two reads in flight: the file shown is the one picked last, while the
    workbook held is the one of the read that settles last, whichever file
    it was read from; an error left by the read that settled first stays
    on the screen beside the workbook. *)
Theorem overlapping_loads (f1 f2 : App.File) (first : App.ReadOutcome)
    (wb : App.WorkBook) (st : App.State (WorkSheet := WorkSheet)) :
  App.SheetNames wb <> [] ->
  let s := App.run [App.PickFile (Some f1); App.PickFile (Some f2);
                    App.Settle first; App.Settle (App.Decoded wb)]
             (st, 0%nat) in
  snd s = 0%nat /\
  App.file (fst s) = Some f2 /\
  App.workbook (fst s) = Some wb /\
  App.isLoading (fst s) = false /\
  App.error (fst s) = App.error (App.loadFile first f2 st) /\
  (App.workbook (App.loadFile first f2 st) = None ->
   is_Some (App.error (fst s))).
Proof.
  intros Hne s. subst s.
  cbn [App.run fold_left App.step fst snd].
  unfold App.loadFile, App.loadFile_settle.
  destruct (App.SheetNames wb) as [| n names]; [done |].
  cbn [length Nat.eqb].
  destruct first as [wb1 | e];
    [destruct (length (App.SheetNames wb1) =? 0)%nat |];
    cbn [App.file App.workbook App.isLoading App.error App.loadFile_begin];
    repeat split; try done; by eexists.
Qed.

End Sessions.

(** ** The exported text as a sequence of code points *)

Lemma well_formed_plain s :
  forallb (fun c => negb (is_surrogate c)) s = true -> well_formed s = true.
Proof.
  induction s as [| c s IH]; [done |]. cbn [forallb well_formed].
  unfold is_surrogate. rewrite andb_true_iff, negb_true_iff, orb_false_iff.
  intros [[-> ->] Hs]. by rewrite IH.
Qed.

Lemma well_formed_app a b :
  well_formed a = true -> well_formed b = true -> well_formed (a ++ b) = true.
Proof.
  intros Ha Hb.
  assert (forall n a, (length a <= n)%nat -> well_formed a = true ->
            well_formed (a ++ b) = true) as Hall; [| by eapply Hall].
  clear a Ha. induction n as [| n IH]; intros a Hlen Ha.
  - by destruct a; [| cbn in Hlen; lia].
  - destruct a as [| c a]; [done |]. cbn [well_formed app] in *.
    destruct (is_lead c).
    + destruct a as [| d a]; [done |]. cbn [app].
      apply andb_true_iff in Ha as [-> Ha]. cbn [andb].
      apply IH; [cbn in Hlen; lia | done].
    + apply andb_true_iff in Ha as [-> Ha]. cbn [andb].
      apply IH; [cbn in Hlen; lia | done].
Qed.

Lemma well_formed_concat parts :
  Forall (fun p => well_formed p = true) parts ->
  well_formed (concat parts) = true.
Proof.
  induction 1 as [| p parts Hp _ IH]; [done |]. cbn [concat].
  by apply well_formed_app.
Qed.

Lemma hex_digit_plain d :
  (d < 16)%N -> negb (is_surrogate (hex_digit d)) = true.
Proof.
  intros Hd. unfold hex_digit, is_surrogate, is_lead, is_trail.
  apply negb_true_iff, orb_false_iff.
  destruct (N.ltb_spec d 10);
    split; apply andb_false_iff; left; apply N.leb_gt; lia.
Qed.

Lemma quote_unit_plain c :
  forallb (fun c => negb (is_surrogate c)) (quote_unit c) = true.
Proof.
  unfold quote_unit.
  repeat (match goal with
          | |- context [(c =? ?k)%N] => destruct (c =? k)%N; [done |]
          end).
  destruct ((c <? 32)%N || is_lead c || is_trail c) eqn:E.
  - unfold unicode_escape. cbn [forallb].
    rewrite !hex_digit_plain by (apply N.mod_lt; lia). done.
  - apply orb_false_iff in E as [E Ht]. apply orb_false_iff in E as [_ Hl].
    cbn [forallb]. unfold is_surrogate. by rewrite Hl, Ht.
Qed.

Lemma well_formed_quote_body s : well_formed (quote_body s) = true.
Proof.
  induction s as [| c d s Hc Hd IH E | c s IH E] using quote_body_cases.
  - done.
  - rewrite E. cbn [well_formed]. by rewrite Hc, Hd.
  - rewrite E. apply well_formed_app; [| done].
    apply well_formed_plain, quote_unit_plain.
Qed.

Lemma well_formed_unlex ts :
  Forall token_well_formed ts -> well_formed (unlex ts) = true.
Proof.
  intros Hts. unfold unlex. apply well_formed_concat, Forall_fmap.
  exact Hts.
Qed.

Lemma Forall_join {A} (P : A -> Prop) sep parts :
  Forall P sep -> Forall (Forall P) parts -> Forall P (join sep parts).
Proof.
  intros Hsep. induction 1 as [| p parts Hp Hparts IH]; [constructor |].
  destruct parts as [| p' parts]; [done |]. rewrite join_cons.
  apply Forall_app. split; [done |]. apply Forall_app. by split.
Qed.

Lemma spaces_well_formed (indent : jsstring) :
  forallb is_json_ws indent = true ->
  Forall token_well_formed (map TWs indent).
Proof.
  intros Hws. apply Forall_fmap, Forall_forall. intros c Hin.
  rewrite forallb_forall in Hws. apply list_elem_of_In, Hws in Hin.
  unfold is_json_ws in Hin.
  repeat (apply orb_true_iff in Hin as [Hin | Hin]);
    apply N.eqb_eq in Hin; by subst.
Qed.

Lemma wrap_tokens_well_formed opening closing gap stepback indent parts :
  token_well_formed (TPunct opening) -> token_well_formed (TPunct closing) ->
  forallb is_json_ws stepback = true -> forallb is_json_ws indent = true ->
  Forall (Forall token_well_formed) parts ->
  Forall token_well_formed
    (wrap_tokens opening closing gap stepback indent parts).
Proof.
  intros Ho Hc Hstep Hind Hparts. unfold wrap_tokens.
  destruct parts as [| p parts]; [by repeat constructor |].
  destruct gap as [| g gap].
  - constructor; [done |]. apply Forall_app. split; [| by repeat constructor].
    apply Forall_join; [by repeat constructor | done].
  - constructor; [done |]. constructor; [done |].
    apply Forall_app. split; [by apply spaces_well_formed |].
    apply Forall_app. split.
    + apply Forall_join; [| done].
      constructor; [done |]. constructor; [done |].
      by apply spaces_well_formed.
    + constructor; [done |]. apply Forall_app.
      split; [by apply spaces_well_formed | by repeat constructor].
Qed.

Section Well_formed_export.
Context {Num : Type} `{JsNumber Num}.
Hypothesis num_plain :
  forall n : Num, num_is_finite n = true ->
    forallb (fun c => negb (is_surrogate c)) (num_to_string n) = true.

Lemma string_token_well_formed s : token_well_formed (TStr (quote_body s)).
Proof.
  unfold token_well_formed. cbn [unlex_token].
  change (34%N :: quote_body s ++ [34%N])
    with ([34%N] ++ quote_body s ++ [34%N]).
  apply well_formed_app; [done |].
  apply well_formed_app; [apply well_formed_quote_body | done].
Qed.

Lemma cell_token_well_formed (c : Cell Num) : token_well_formed (cell_token c).
Proof.
  destruct c as [| | [|] | n | s]; try done.
  - unfold token_well_formed. cbn [cell_token unlex_token].
    unfold cell_text. cbn [serialize_cell default].
    destruct (num_is_finite n) eqn:E; [| done].
    by apply well_formed_plain, num_plain.
  - apply string_token_well_formed.
Qed.

Lemma data_tokens_well_formed gap (d : Data) :
  forallb is_json_ws gap = true ->
  Forall token_well_formed (data_tokens gap d).
Proof.
  intros Hgap.
  assert (forallb is_json_ws (gap ++ gap) = true) as Hgap2
    by (by rewrite forallb_app, Hgap).
  unfold data_tokens. destruct d as [rows | objs];
    (apply wrap_tokens_well_formed; try done);
    apply Forall_fmap, Forall_forall; intros x _; cbn.
  - apply wrap_tokens_well_formed; try done.
    apply Forall_fmap, Forall_forall. intros c _. cbn.
    constructor; [apply cell_token_well_formed | constructor].
  - apply wrap_tokens_well_formed; try done.
    apply Forall_fmap, Forall_forall. intros kv _. cbn.
    unfold member_tokens.
    constructor; [apply string_token_well_formed |].
    constructor; [done |]. apply Forall_app. split.
    + destruct gap; by repeat constructor.
    + constructor; [apply cell_token_well_formed | constructor].
Qed.

End Well_formed_export.

Section Well_formed_text.
Context {Num : Type} `{JsNumber Num}.

(** The exported text is well formed: every surrogate code unit in it is
    half of a pair, whatever the cells and the headers hold, a lone
    surrogate being written as an escape. Numbers are assumed to be printed
    without surrogates. *)
Theorem export_well_formed (rows : list (list (Cell Num)))
    (options : ConvertOptions) :
  (forall n : Num, num_is_finite n = true ->
     forallb (fun c => negb (is_surrogate c)) (num_to_string n) = true) ->
  exists r, convertResult rows options = Ok r /\
            well_formed (json r) = true.
Proof.
  intros num_plain. destruct (convertResult_total rows options) as [r Hr].
  exists r. split; [done |].
  rewrite (convertResult_json _ _ _ Hr), <- unlex_data.
  apply well_formed_unlex, data_tokens_well_formed; [done |].
  apply gap_of_space_ws.
Qed.

End Well_formed_text.

Lemma Z_number_plain (z : Z) :
  num_is_finite z = true ->
  forallb (fun c => negb (is_surrogate c)) (num_to_string z) = true.
Proof.
  intros _.
  assert (forall n, forallb (fun c => negb (is_surrogate c)) (dec n) = true)
    as Hdec.
  { intros n. pose proof (dec_go_digits (S n) n [] eq_refl) as Hd.
    rewrite forallb_forall in Hd |- *. intros c Hin. specialize (Hd c Hin).
    unfold is_digit in Hd. apply andb_true_iff in Hd as [Hlo Hhi].
    apply N.leb_le in Hlo, Hhi. unfold is_surrogate, is_lead, is_trail.
    apply negb_true_iff, orb_false_iff.
    split; apply andb_false_iff; left; apply N.leb_gt; lia. }
  cbn [num_to_string Z_number]. destruct (z <? 0); [| apply Hdec].
  cbn [forallb]. by rewrite Hdec.
Qed.

(** ** Instances of the properties *)

Lemma outName_replaces_extension_witness :
  is_spreadsheet_ext (lit "XLSX") = true /\
  App.outName (Some sample_file) = lit "report.json".
Proof.
  split; [reflexivity |].
  exact (outName_replaces_extension (lit "report") (lit "XLSX") eq_refl).
Defined.

Lemma loaded_workbook_converts_witness :
  sheetName (App.options sample_loaded) = lit "Sheet1" /\
  exists r,
    App.convertResult_memo (fun g => g) sample_loaded = Some (Ok r) /\
    rowCount r = 2%nat /\
    App.canDownload (fun g => g) sample_loaded = true.
Proof.
  split; [reflexivity |].
  destruct (loaded_workbook_converts (fun g => g) sample_workbook sample_file
              App.initial)
    as (_ & sheet & r & Hsheet & Hmemo & Hr & Hcan).
  - discriminate.
  - intros n Hin.
    apply elem_of_cons in Hin as [-> | Hin];
      [split; [discriminate | by eexists] |].
    apply elem_of_cons in Hin as [-> | Hin];
      [split; [discriminate | by eexists] |].
    by apply elem_of_nil in Hin.
  - exists r. split; [exact Hmemo |]. split; [| exact Hcan].
    injection Hsheet as <-. vm_compute in Hr. by injection Hr as <-.
Defined.

Lemma failed_load_clears_witness :
  let st' :=
    App.sheet_effect
      (App.loadFile (App.Decoded empty_workbook) sample_file sample_loaded) in
  App.workbook sample_loaded = Some sample_workbook /\
  App.workbook st' = None /\
  App.error st' = Some App.msg_no_sheets /\
  App.canDownload (fun g => g) st' = false.
Proof.
  cbn zeta. split; [reflexivity |].
  destruct (failed_load_clears (fun g => g) (App.Decoded empty_workbook)
              sample_file sample_loaded eq_refl)
    as (Hwb & _ & _ & Hcan & _).
  split; [exact Hwb |]. split; [reflexivity | exact Hcan].
Defined.

Lemma options_influence_witness :
  let o1 := {| sheetName := lit "Sheet1"; outputMode := arrays;
               headerRowNumber := 1; skipEmptyRows := true; pretty := true |} in
  let o2 := {| sheetName := lit "Totals"; outputMode := arrays;
               headerRowNumber := 3; skipEmptyRows := true; pretty := true |} in
  exists r1 r2,
    convertResult gapped_rows o1 = Ok r1 /\
    convertResult gapped_rows o2 = Ok r2 /\
    data r1 = data r2 /\ json r1 = json r2 /\
    headerRowIndex r1 = 0 /\ headerRowIndex r2 = 2.
Proof.
  cbn zeta.
  destruct (options_influence gapped_rows
              {| sheetName := lit "Sheet1"; outputMode := arrays;
                 headerRowNumber := 1; skipEmptyRows := true; pretty := true |}
              {| sheetName := lit "Totals"; outputMode := arrays;
                 headerRowNumber := 3; skipEmptyRows := true; pretty := true |}
              eq_refl eq_refl)
    as (r1 & r2 & H1 & H2 & _ & Harr).
  destruct (Harr eq_refl) as (Hd & _ & _ & Hj).
  exists r1, r2. split; [exact H1 |]. split; [exact H2 |].
  split; [exact Hd |]. split; [exact (Hj eq_refl) |].
  vm_compute in H1, H2. injection H1 as <-. injection H2 as <-. by split.
Defined.

Lemma arrays_mode_retention_witness :
  exists r,
    convertResult gapped_rows (sample_options arrays 1) = Ok r /\
    data r = DArrays [[str "Name"; str "Age"]; [str "Bo"; CNum 41]] /\
    rowCount r = 2%nat.
Proof.
  destruct (arrays_mode_retention gapped_rows (sample_options arrays 1)
              eq_refl)
    as (r & exportRows & Hr & _).
  exists r. split; [exact Hr |].
  vm_compute in Hr. injection Hr as <-. by split.
Defined.

Lemma arrays_export_fixed_point_witness :
  exists r exportRows r',
    convertResult gapped_rows (sample_options arrays 1) = Ok r /\
    data r = DArrays exportRows /\
    (length exportRows < length gapped_rows)%nat /\
    convertResult exportRows (sample_options arrays 1) = Ok r' /\
    json r' = json r.
Proof.
  destruct (arrays_export_fixed_point gapped_rows (sample_options arrays 1)
              eq_refl)
    as (r & exportRows & r' & Hr & Hd & Hr' & _ & Hj & _).
  exists r, exportRows, r'. split; [exact Hr |]. split; [exact Hd |].
  split; [| split; [exact Hr' | exact Hj]].
  vm_compute in Hr. injection Hr as <-. injection Hd as <-. cbn. lia.
Defined.

Lemma objects_rows_end_arrays_export_witness :
  exists ro ra,
    convertResult gapped_rows (sample_options objects 1) = Ok ro /\
    convertResult gapped_rows (sample_options arrays 1) = Ok ra /\
    rowCount ro = 1%nat /\ rowCount ra = 2%nat /\
    data ro = DObjects [[(lit "Name", str "Bo"); (lit "Age", CNum 41)]].
Proof.
  destruct (objects_rows_end_arrays_export gapped_rows
              (sample_options objects 1) (sample_options arrays 1)
              eq_refl eq_refl eq_refl)
    as (ro & ra & exportRows & Ho & Ha & _).
  exists ro, ra. split; [exact Ho |]. split; [exact Ha |].
  vm_compute in Ho, Ha. injection Ho as <-. injection Ha as <-.
  by repeat split.
Defined.

Lemma header_row_selection_witness :
  exists r,
    convertResult three_rows (sample_options objects 2) = Ok r /\
    headerRowIndex r = 1 /\
    head (previewRows r) = Some [str "Ana"; CNum 30] /\
    rowCount r = 1%nat.
Proof.
  destruct (header_row_selection three_rows (sample_options objects 2))
    as (r & Hr & Hin & _); [discriminate | reflexivity |].
  destruct Hin as (Hidx & Hhead & _); [cbn; lia |].
  exists r. split; [exact Hr |]. split; [exact Hidx |].
  split; [exact Hhead |].
  vm_compute in Hr. by injection Hr as <-.
Defined.

Lemma header_keys_trimmed_witness :
  let values : list (Cell Z) := [str " a b "; CNull; str " a b"] in
  lit "a b_2" ∈ normalizeHeaders values /\ trim (lit "a b_2") = lit "a b_2".
Proof.
  cbn zeta.
  assert (lit "a b_2"
            ∈ normalizeHeaders [str " a b "; CNull; (str " a b" : Cell Z)])
    as Hin by (apply (bool_decide_unpack _); vm_compute; exact I).
  split; [exact Hin |]. exact (proj2 (header_keys_trimmed _ _ Hin)).
Defined.

Lemma distinct_headers_object_witness :
  let hs := [lit "b"; lit "10"; lit "a"; lit "2"] in
  let r : list (Cell Z) := [CNum 1; CNum 2; CNull] in
  NoDup hs /\ (proto_key ∉ hs) /\
  row_to_object hs r
  = [(lit "b", CNum 1); (lit "10", CNum 2); (lit "a", CStr []);
     (lit "2", CStr [])] /\
  own_props (row_to_object hs r)
  = [(lit "2", CStr []); (lit "10", CNum 2); (lit "b", CNum 1);
     (lit "a", CStr [])].
Proof.
  cbn zeta.
  assert (NoDup [lit "b"; lit "10"; lit "a"; lit "2"]) as Hnd
    by (apply (bool_decide_unpack _); vm_compute; exact I).
  assert (proto_key ∉ [lit "b"; lit "10"; lit "a"; lit "2"]) as Hproto
    by (apply (bool_decide_unpack _); vm_compute; exact I).
  split; [exact Hnd |]. split; [exact Hproto |].
  split; [| reflexivity].
  exact (proj1 (distinct_headers_object _ [CNum 1; CNum 2; CNull] Hnd Hproto)).
Defined.

Lemma export_parses_back_witness :
  (forall z : Z, num_is_finite z = true ->
     json_number (num_to_string z) = true) /\
  exists r,
    convertResult three_rows (sample_options objects 1) = Ok r /\
    JSON_parse (json r) = Some (data_tree (data r)).
Proof.
  split; [exact Z_number_json |].
  exact (export_parses_back three_rows (sample_options objects 1)
           Z_number_json).
Defined.

Lemma overlapping_loads_witness :
  let s := App.run [App.PickFile (Some {| App.name := lit "a.csv" |});
                    App.PickFile (Some sample_file);
                    App.Settle (App.Rejected (App.ErrorObject (lit "bad zip")));
                    App.Settle (App.Decoded sample_workbook)]
             (App.initial, 0%nat) in
  App.SheetNames sample_workbook <> [] /\
  App.file (fst s) = Some sample_file /\
  App.workbook (fst s) = Some sample_workbook /\
  App.error (fst s) = Some (App.msg_unreadable (lit "bad zip")).
Proof.
  cbn zeta.
  assert (App.SheetNames sample_workbook <> []) as Hne by discriminate.
  split; [exact Hne |].
  destruct (overlapping_loads {| App.name := lit "a.csv" |} sample_file
              (App.Rejected (App.ErrorObject (lit "bad zip")))
              sample_workbook App.initial Hne)
    as (_ & Hf & Hwb & _ & Herr & _).
  split; [exact Hf |]. split; [exact Hwb | exact Herr].
Defined.

Lemma export_well_formed_witness :
  (forall z : Z, num_is_finite z = true ->
     forallb (fun c => negb (is_surrogate c)) (num_to_string z) = true) /\
  well_formed [55357%N] = false /\
  exists r,
    convertResult surrogate_sheet (sample_options arrays 1) = Ok r /\
    well_formed (json r) = true.
Proof.
  split; [exact Z_number_plain |]. split; [reflexivity |].
  exact (export_well_formed surrogate_sheet (sample_options arrays 1)
           Z_number_plain).
Defined.
